(** * Recursive copy of a file-system entry (package [copy], file [copy.go])

    The Go package copies a file, a directory tree or a symbolic link from a
    source path to a destination path.  This development embeds its functions
    ([Copy], [copy], [fcopy], [dcopy], [lcopy]) in Rocq and proves properties
    of them.

    - Part 1 embeds the code over an abstract operating system: the functions
      of packages [os], [io], [ioutil] the code calls are the methods of the
      class [OS]; a world [W] is threaded through every call.
    - Part 2 gives two instances: one that keeps a log of the calls made on
      top of any other instance, and a file-system tree with Unix permission
      checks.
    - Part 3 says on trees what a copy is expected to do.
    - Part 4 holds the theorems: the code does on the file-system tree what
      Part 3 says, and the properties of the package follow. *)

From Stdlib Require Import ZArith List String Ascii Bool Lia.
From Stdlib Require Import Sorting.Sorted.
Import ListNotations.
Open Scope Z_scope.

Set Implicit Arguments.
Set Warnings "-register-all".

(* ================================================================= *)
(** * Part 1.  The code over an abstract operating system *)

(** ** Paths

    A path is the list of its components from the root, already cleaned.
    [filepath.Join dir name], for a [name] that [ReadDir] returned, adds one
    component; [filepath.Dir] drops the last one. *)

Definition path := list string.

Definition filepath_Join (dir : path) (name : string) : path := dir ++ [name].

Definition filepath_Dir (p : path) : path := removelast p.

(** ** File modes ([os.FileMode], a 32-bit word) *)

Definition FileMode := Z.

Module FileMode.
Definition ModeDir        : FileMode := Z.shiftl 1 31.
Definition ModeSymlink    : FileMode := Z.shiftl 1 27.
Definition ModeDevice     : FileMode := Z.shiftl 1 26.
Definition ModeNamedPipe  : FileMode := Z.shiftl 1 25.
Definition ModeSocket     : FileMode := Z.shiftl 1 24.
Definition ModeSetuid     : FileMode := Z.shiftl 1 23.
Definition ModeSetgid     : FileMode := Z.shiftl 1 22.
Definition ModeCharDevice : FileMode := Z.shiftl 1 21.
Definition ModeSticky     : FileMode := Z.shiftl 1 20.
Definition ModeIrregular  : FileMode := Z.shiftl 1 19.

Definition ModeType : FileMode :=
  Eval cbv in
    Z.lor ModeDir (Z.lor ModeSymlink (Z.lor ModeNamedPipe (Z.lor ModeSocket
      (Z.lor ModeDevice (Z.lor ModeCharDevice ModeIrregular))))).

(** [os.ModePerm = 0777] *)
Definition ModePerm : FileMode := 511.

Definition IsDir (m : FileMode) : bool := negb (Z.land m ModeDir =? 0).
Definition IsRegular (m : FileMode) : bool := Z.land m ModeType =? 0.
Definition Perm (m : FileMode) : FileMode := Z.land m ModePerm.
End FileMode.
Import FileMode.

(** [tmpPermissionForDirectory = os.FileMode(0755)] *)
Definition tmpPermissionForDirectory : FileMode := 493.

(** ** Times, descriptors, handles *)

Record Time := { t_sec : Z; t_nsec : Z }.

(** [time.Unix(sec, nsec)]: nanoseconds outside [0, 1e9) are carried over. *)
Definition time_Unix (sec nsec : Z) : Time :=
  if (nsec <? 0) || (1000000000 <=? nsec) then
    let n := Z.quot nsec 1000000000 in
    let sec := sec + n in
    let nsec := nsec - n * 1000000000 in
    if nsec <? 0 then {| t_sec := sec - 1; t_nsec := nsec + 1000000000 |}
    else {| t_sec := sec; t_nsec := nsec |}
  else {| t_sec := sec; t_nsec := nsec |}.

Record Timespec := { Sec : Z; Nsec : Z }.

(** The fields of [syscall.Stat_t] the code reads. *)
Record Stat_t := { Uid : Z; Gid : Z; Atim : Timespec }.

(** [os.FileInfo], with the methods the code calls.  [Sys] is [None] when
    the underlying data is not a [*syscall.Stat_t]. *)
Record FileInfo := {
  Name : string;
  Mode : FileMode;
  ModTime : Time;
  Sys : option Stat_t
}.

Definition FileInfo_IsDir (info : FileInfo) : bool := IsDir (Mode info).

(** An open file; [file_Name] is what [f.Name()] returns. *)
Record os_File := { file_Name : path }.

(** ** Errors *)

Inductive Errno :=
| EPERM | ENOENT | EIO | ENXIO | EACCES | EEXIST | ENOTDIR | EISDIR
| EINVAL | ENOSPC | ELOOP.

(** An operand of a format string, kept unrendered. *)
Inductive operand :=
| OpPath (p : path)
| OpInt (z : Z)
| OpMode (m : FileMode)
| OpTime (t : Time).

(** Go's [error] values.  [Errorf format operands w] is what
    [fmt.Errorf(format, operands..., w)] returns, [w] being the operand of
    the [%w] verb. *)
Inductive error :=
| PathError (op : string) (p : path) (e : Errno)
| LinkError (op : string) (old : string) (new : path) (e : Errno)
| OtherError (msg : string)
| Errorf (format : string) (operands : list operand) (w : option error)
| UnsupportedFileTypeError (msg : string) (mode : FileMode) (p : path)
| FileCopyTasksError (p : path) (errors : list error).

(** [errors.Unwrap] *)
Definition Unwrap (e : error) : option error :=
  match e with
  | Errorf _ _ w => w
  | _ => None
  end.

(** The type assertion of [err] to a pointer to [UnsupportedFileTypeError]. *)
Definition is_UnsupportedFileTypeError (e : error) : bool :=
  match e with
  | UnsupportedFileTypeError _ _ _ => true
  | _ => false
  end.

Inductive result (A : Type) :=
| Ok (a : A)
| Err (e : error).
Arguments Ok {A} a.
Arguments Err {A} e.

(** ** The operating system *)

Class OS (W : Type) := {
  os_Lstat : path -> W -> result FileInfo * W;
  os_MkdirAll : path -> FileMode -> W -> option error * W;
  os_Create : path -> W -> result os_File * W;
  os_Chmod : path -> FileMode -> W -> option error * W;
  os_Open : path -> W -> result os_File * W;
  io_Copy : os_File -> os_File -> W -> (Z * option error) * W;
  file_Close : os_File -> W -> option error * W;
  ioutil_ReadDir : path -> W -> result (list FileInfo) * W;
  os_Readlink : path -> W -> result string * W;
  os_Symlink : string -> path -> W -> option error * W;
  os_Lchown : path -> Z -> Z -> W -> option error * W;
  os_Chtimes : path -> Time -> Time -> W -> option error * W
}.

(** ** A state monad with divergence

    [None] stands for a computation that does not return (the recursion of
    [copy] has no bound of its own: see [copy] below). *)

Definition M (W A : Type) : Type := W -> option (A * W).

Definition ret {W A} (a : A) : M W A := fun w => Some (a, w).

Definition bind {W A B} (m : M W A) (k : A -> M W B) : M W B :=
  fun w => match m w with
           | Some (a, w') => k a w'
           | None => None
           end.

Definition call {W A} (f : W -> A * W) : M W A := fun w => Some (f w).

(** [defer cleanup; body]: [cleanup] runs when [body] returns, its own
    result is dropped. *)
Definition defer {W A B} (cleanup : M W B) (body : M W A) : M W A :=
  fun w => match body w with
           | Some (a, w') =>
               match cleanup w' with
               | Some (_, w'') => Some (a, w'')
               | None => None
               end
           | None => None
           end.

Declare Scope monad_scope.
Delimit Scope monad_scope with monad.
Notation "x <- m ;; k" := (bind m (fun x => k))
  (at level 100, m at next level, right associativity) : monad_scope.
Open Scope monad_scope.

(** The four package variables. *)
Record Policy := {
  IgnoreUnsupportedFileTypes : bool;
  PreservePermissions : bool;
  PreserveOwner : bool;
  PreserveTime : bool
}.

(** All four are [false] when the package is loaded. *)
Definition default_policy : Policy :=
  {| IgnoreUnsupportedFileTypes := false;
     PreservePermissions := false;
     PreserveOwner := false;
     PreserveTime := false |}.

Definition FileCopyHandler (W : Type) : Type :=
  path -> path -> FileInfo -> M W (option error).

Section Code.
Context {W : Type} `{OS W}.

(** The package variables, read during a copy. *)
Variable policy : Policy.

(** [FileTypeCopyHandlers], in the order the [range] loop of this run
    visits its keys. *)
Variable FileTypeCopyHandlers : list (FileMode * FileCopyHandler W).

(** [lcopy] *)
Definition lcopy (src dest : path) (info : FileInfo) : M W (option error) :=
  r <- call (os_Readlink src) ;;
  match r with
  | Err err => ret (Some err)
  | Ok src' => call (os_Symlink src' dest)
  end.

(** [fcopy] *)
Definition fcopy (src dest : path) (info : FileInfo) : M W (option error) :=
  e <- call (os_MkdirAll (filepath_Dir dest) ModePerm) ;;
  match e with
  | Some err => ret (Some err)
  | None =>
    r <- call (os_Create dest) ;;
    match r with
    | Err err => ret (Some err)
    | Ok f =>
      defer (call (file_Close f))
        (e <- call (os_Chmod (file_Name f) (Mode info)) ;;
         match e with
         | Some err => ret (Some err)
         | None =>
           r <- call (os_Open src) ;;
           match r with
           | Err err => ret (Some err)
           | Ok s =>
             defer (call (file_Close s))
               (wr <- call (io_Copy f s) ;;
                ret (snd wr))
           end
         end)
    end
  end.

(** The attribute restoration at the end of [copy] (lines 87 to 141),
    entered with [err == nil].  [err] and [errs] are threaded as the code
    assigns them. *)
Definition restore_permissions (dest : path) (info : FileInfo)
  : M W (option error * list error) :=
  if PreservePermissions policy then
    e <- call (os_Chmod dest (Perm (Mode info))) ;;
    match e with
    | Some err =>
        let err' :=
          Errorf "could not restore permissions '%s' for file %s: %w"
                 [OpMode (Perm (Mode info)); OpPath dest] (Some err) in
        ret (Some err', [err'])
    | None => ret (None, [])
    end
  else ret (None, []).

Definition restore_owner (dest : path) (stat : option Stat_t)
           (st : option error * list error)
  : M W (option error * list error) :=
  let '(err, errs) := st in
  if PreserveOwner policy then
    err <- match stat with
           | Some s =>
               e <- call (os_Lchown dest (Uid s) (Gid s)) ;;
               match e with
               | Some err =>
                   ret (Some (Errorf
                          "could not restore owner %d:%d for file %s: %w"
                          [OpInt (Uid s); OpInt (Gid s); OpPath dest]
                          (Some err)))
               | None => ret None
               end
           | None =>
               ret (Some (Errorf "could not restore owner for file %s: %w"
                                 [OpPath dest] err))
           end ;;
    match err with
    | Some e => ret (err, errs ++ [e])
    | None => ret (err, errs)
    end
  else ret (err, errs).

Definition restore_time (dest : path) (info : FileInfo)
           (stat : option Stat_t) (st : option error * list error)
  : M W (option error * list error) :=
  let '(err, errs) := st in
  if PreserveTime policy then
    err <- match stat with
           | Some s =>
               let atime := time_Unix (Sec (Atim s)) (Nsec (Atim s)) in
               let mtime := ModTime info in
               e <- call (os_Chtimes dest atime mtime) ;;
               match e with
               | Some err =>
                   ret (Some (Errorf
                          "could not restore timestamp '%s' for file %s: %w"
                          [OpTime (ModTime info); OpPath dest] (Some err)))
               | None => ret None
               end
           | None =>
               ret (Some (Errorf
                      "could not restore timestamp for file %s: %w"
                      [OpPath dest] err))
           end ;;
    match err with
    | Some e => ret (err, errs ++ [e])
    | None => ret (err, errs)
    end
  else ret (err, errs).

Definition restore (dest : path) (info : FileInfo) : M W (option error) :=
  st <- restore_permissions dest info ;;
  let stat := if PreserveOwner policy || PreserveTime policy
              then Sys info else None in
  st <- restore_owner dest stat st ;;
  st <- restore_time dest info stat st ;;
  if (0 <? List.length (snd st))%nat
  then ret (Some (FileCopyTasksError dest (snd st)))
  else ret None.

(** The [range] loop over [FileTypeCopyHandlers]: the first key that
    shares a bit with the mode has its handler called, and the loop
    breaks.  [err] is the value the variable has on entry. *)
Fixpoint range_handlers (hs : list (FileMode * FileCopyHandler W))
         (src dest : path) (info : FileInfo) (err : option error)
  : M W (option error) :=
  match hs with
  | [] => ret err
  | (fileType, handler) :: hs' =>
      if negb (Z.land (Mode info) fileType =? 0)
      then handler src dest info
      else range_handlers hs' src dest info err
  end.

(** The [for] loop of [dcopy] over the directory's contents, [copy]
    being [rec]. *)
Fixpoint walk (rec : path -> path -> FileInfo -> M W (option error))
         (srcdir destdir : path) (contents : list FileInfo)
  : M W (option error) :=
  match contents with
  | [] => ret None
  | content :: rest =>
      let cs := filepath_Join srcdir (Name content) in
      let cd := filepath_Join destdir (Name content) in
      e <- rec cs cd content ;;
      match e with
      | Some err =>
          if is_UnsupportedFileTypeError err then
            if negb (IgnoreUnsupportedFileTypes policy)
            then ret (Some err)
            else walk rec srcdir destdir rest
          else ret (Some err)
      | None => walk rec srcdir destdir rest
      end
  end.

(** [dcopy], [copy] being [rec]. *)
Definition dcopy_with (rec : path -> path -> FileInfo -> M W (option error))
           (srcdir destdir : path) (info : FileInfo) : M W (option error) :=
  let originalMode := Mode info in
  e <- call (os_MkdirAll destdir tmpPermissionForDirectory) ;;
  match e with
  | Some err => ret (Some err)
  | None =>
    defer (call (os_Chmod destdir originalMode))
      (r <- call (ioutil_ReadDir srcdir) ;;
       match r with
       | Err err => ret (Some err)
       | Ok contents => walk rec srcdir destdir contents
       end)
  end.

(** The content copy of [copy] (lines 64 to 81): the value of [err] when
    line 83 is reached. *)
Definition copy_content (rec : path -> path -> FileInfo -> M W (option error))
           (src dest : path) (info : FileInfo) : M W (option error) :=
  if IsRegular (Mode info) then fcopy src dest info
  else if FileInfo_IsDir info then dcopy_with rec src dest info
  else
    _err <- range_handlers FileTypeCopyHandlers src dest info None ;;
    ret (Some (UnsupportedFileTypeError "" (Mode info) src)).

(** [copy].  [copy] and [dcopy] call each other for as long as the
    directories read have directories in them, which the code does not
    bound (a destination inside the source is read again and again), so
    the embedding takes a bound [fuel] on the depth of the calls and
    answers [None] beyond it. *)
Fixpoint copy (fuel : nat) (src dest : path) (info : FileInfo)
  : M W (option error) :=
  match fuel with
  | O => fun _ => None
  | S fuel' =>
      err <- copy_content (copy fuel') src dest info ;;
      match err with
      | Some e => ret (Some e)
      | None => restore dest info
      end
  end.

(** [dcopy] *)
Definition dcopy (fuel : nat) : path -> path -> FileInfo -> M W (option error) :=
  dcopy_with (copy fuel).

(** [Copy] *)
Definition Copy (fuel : nat) (src dest : path) : M W (option error) :=
  r <- call (os_Lstat src) ;;
  match r with
  | Err err => ret (Some err)
  | Ok info =>
    err <- copy fuel src dest info ;;
    match err with
    | Some e =>
        if is_UnsupportedFileTypeError e then
          if negb (IgnoreUnsupportedFileTypes policy)
          then ret (Some e)
          else ret None
        else ret (Some e)
    | None => ret None
    end
  end.

End Code.

(** The registry as the package declares it:
    [map[os.FileMode]FileCopyHandler{os.ModeSymlink: lcopy}]. *)
Definition FileTypeCopyHandlers {W} `{OS W} : list (FileMode * FileCopyHandler W) :=
  [(ModeSymlink, lcopy)].

(* ================================================================= *)
(** * Part 2.  Two operating systems *)

(** ** The log of the calls made

    [Logged W] runs the calls of any [OS W] and appends each one to a log
    with the error it returned.  What holds of the log for every [W] is a statement
    on which calls the code makes, and in which order. *)

Inductive Call :=
| CLstat (p : path)
| CMkdirAll (p : path) (perm : FileMode)
| CCreate (p : path)
| CChmod (p : path) (mode : FileMode)
| COpen (p : path)
| CCopy (dst src : os_File)
| CClose (f : os_File)
| CReadDir (p : path)
| CReadlink (p : path)
| CSymlink (oldname : string) (newname : path)
| CLchown (p : path) (uid gid : Z)
| CChtimes (p : path) (atime mtime : Time).

(** An entry of the log: the call and the error it returned, if any. *)
Definition Event : Type := (Call * option error)%type.

Definition Logged (W : Type) : Type := (W * list Event)%type.

Definition logged {W A} (c : Call) (failure : A -> option error)
           (f : W -> A * W) : Logged W -> A * Logged W :=
  fun s => let (a, w') := f (fst s) in (a, (w', snd s ++ [(c, failure a)])).

Definition failure_of {A} (r : result A) : option error :=
  match r with
  | Ok _ => None
  | Err e => Some e
  end.

Definition Logged_OS (W : Type) (os : OS W) : OS (Logged W) := {|
  os_Lstat p := logged (CLstat p) failure_of (os_Lstat p);
  os_MkdirAll p perm := logged (CMkdirAll p perm) id (os_MkdirAll p perm);
  os_Create p := logged (CCreate p) failure_of (os_Create p);
  os_Chmod p mode := logged (CChmod p mode) id (os_Chmod p mode);
  os_Open p := logged (COpen p) failure_of (os_Open p);
  io_Copy dst src := logged (CCopy dst src) snd (io_Copy dst src);
  file_Close f := logged (CClose f) id (file_Close f);
  ioutil_ReadDir p := logged (CReadDir p) failure_of (ioutil_ReadDir p);
  os_Readlink p := logged (CReadlink p) failure_of (os_Readlink p);
  os_Symlink old new := logged (CSymlink old new) id (os_Symlink old new);
  os_Lchown p uid gid := logged (CLchown p uid gid) id (os_Lchown p uid gid);
  os_Chtimes p atime mtime :=
    logged (CChtimes p atime mtime) id (os_Chtimes p atime mtime)
|}.

(** ** A file-system tree

    The world is the tree of the root directory.  The process has an
    effective user and group, a umask and a clock; every call checks the
    Unix permission bits as the kernel does for that user.  A directory
    keeps its entries ordered by name, the order in which [ioutil.ReadDir]
    returns them.

    The limits of the model.  No call follows a symbolic link: a call that
    would have to answers [ELOOP], so the model says what the calls do only
    on paths that lead through no link.  Opening a special file for
    writing answers [ENXIO].  A file has one name: there are no hard links.
    A new entry gets the group of the process, which is what the kernel
    does in a directory without the setgid bit.  Writing to a file leaves
    its setuid and setgid bits as they are, where the kernel may clear
    them; the permission bits are as the kernel leaves them.  Reading
    leaves the access times as they are.  Paths have no bound on their
    length. *)

Module TreeFS.

Record Meta := { m_uid : Z; m_gid : Z; m_atime : Time; m_mtime : Time }.

Inductive SpecialKind := NamedPipe | Socket | BlockDevice | CharDevice | Irregular.

Inductive Node :=
| File (perm : FileMode) (meta : Meta) (data : list Byte.byte)
| Dir (perm : FileMode) (meta : Meta) (entries : list (string * Node))
| Symlink (meta : Meta) (target : string)
| Special (kind : SpecialKind) (perm : FileMode) (meta : Meta).

Record Env := { euid : Z; egid : Z; umask : FileMode; now : Time }.

Definition kind_bits (k : SpecialKind) : FileMode :=
  match k with
  | NamedPipe => ModeNamedPipe
  | Socket => ModeSocket
  | BlockDevice => ModeDevice
  | CharDevice => Z.lor ModeDevice ModeCharDevice
  | Irregular => ModeIrregular
  end.

(** The bits [os.Chmod] passes to the kernel: permissions, setuid, setgid
    and sticky. *)
Definition chmod_mask : FileMode :=
  Eval cbv in Z.lor ModePerm (Z.lor ModeSetuid (Z.lor ModeSetgid ModeSticky)).

Definition node_mode (n : Node) : FileMode :=
  match n with
  | File p _ _ => Z.land p chmod_mask
  | Dir p _ _ => Z.lor ModeDir (Z.land p chmod_mask)
  | Symlink _ _ => Z.lor ModeSymlink ModePerm
  | Special k p _ => Z.lor (kind_bits k) (Z.land p chmod_mask)
  end.

Definition node_meta (n : Node) : Meta :=
  match n with
  | File _ m _ | Dir _ m _ | Symlink m _ | Special _ _ m => m
  end.

(** The descriptor [Lstat] and [ReadDir] build for a node. *)
Definition info_of (name : string) (n : Node) : FileInfo :=
  let m := node_meta n in
  {| Name := name;
     Mode := node_mode n;
     ModTime := m_mtime m;
     Sys := Some {| Uid := m_uid m; Gid := m_gid m;
                    Atim := {| Sec := t_sec (m_atime m);
                               Nsec := t_nsec (m_atime m) |} |} |}.

(** *** Directory entries *)

Fixpoint assoc (c : string) (es : list (string * Node)) : option Node :=
  match es with
  | [] => None
  | (k, v) :: tl => if String.eqb c k then Some v else assoc c tl
  end.

Fixpoint set_entry (c : string) (x : Node) (es : list (string * Node))
  : list (string * Node) :=
  match es with
  | [] => [(c, x)]
  | (k, v) :: tl =>
      match String.compare c k with
      | Eq => (c, x) :: tl
      | Lt => (c, x) :: (k, v) :: tl
      | Gt => (k, v) :: set_entry c x tl
      end
  end.

(** The node at a path, whatever the permissions. *)
Fixpoint get (r : Node) (p : path) : option Node :=
  match p with
  | [] => Some r
  | c :: p' =>
      match r with
      | Dir _ _ es =>
          match assoc c es with
          | Some ch => get ch p'
          | None => None
          end
      | _ => None
      end
  end.

(** [put r p x] sets the node at [p] to [x]; the parent of [p] has to be a
    directory of [r], or [r] is left as it is. *)
Fixpoint put (r : Node) (p : path) (x : Node) : Node :=
  match p with
  | [] => x
  | c :: p' =>
      match r with
      | Dir pm m es =>
          match assoc c es, p' with
          | Some ch, _ => Dir pm m (set_entry c (put ch p' x) es)
          | None, [] => Dir pm m (set_entry c x es)
          | None, _ => r
          end
      | _ => r
      end
  end.

Definition set_perm (perm : FileMode) (n : Node) : Node :=
  match n with
  | File _ m d => File perm m d
  | Dir _ m es => Dir perm m es
  | Symlink m t => Symlink m t
  | Special k _ m => Special k perm m
  end.

Definition set_meta (m : Meta) (n : Node) : Node :=
  match n with
  | File p _ d => File p m d
  | Dir p _ es => Dir p m es
  | Symlink _ t => Symlink m t
  | Special k p _ => Special k p m
  end.

Section Calls.
Variable env : Env.

(** *** Permission checks: 4 reads, 2 writes, 1 executes or searches *)

Definition class_bits (perm : FileMode) (m : Meta) : Z :=
  Z.land (if m_uid m =? euid env then Z.shiftr perm 6
          else if m_gid m =? egid env then Z.shiftr perm 3
          else perm) 7.

Definition may (perm : FileMode) (m : Meta) (want : Z) : bool :=
  (euid env =? 0) || (Z.land (class_bits perm m) want =? want).

Definition owner_or_root (m : Meta) : bool :=
  (euid env =? 0) || (m_uid m =? euid env).

(** The metadata of a node the process creates. *)
Definition fresh : Meta :=
  {| m_uid := euid env; m_gid := egid env;
     m_atime := now env; m_mtime := now env |}.

(** The node a path resolves to, every directory on the way being
    searched. *)
Fixpoint resolve (r : Node) (p : path) : Errno + Node :=
  match p with
  | [] => inr r
  | c :: p' =>
      match r with
      | Dir pm m es =>
          if may pm m 1 then
            match assoc c es with
            | Some ch => resolve ch p'
            | None => inl ENOENT
            end
          else inl EACCES
      | Symlink _ _ => inl ELOOP
      | _ => inl ENOTDIR
      end
  end.

(** The directory that holds the last component of [q], and the entry
    of that name in it. *)
Definition locate (r : Node) (q : path)
  : Errno + (FileMode * Meta * option Node) :=
  match resolve r (removelast q) with
  | inl e => inl e
  | inr (Dir pm m es) =>
      if may pm m 1 then inr (pm, m, assoc (last q EmptyString) es)
      else inl EACCES
  | inr (Symlink _ _) => inl ELOOP
  | inr _ => inl ENOTDIR
  end.

Definition lstat (p : path) (r : Node) : result FileInfo * Node :=
  match resolve r p with
  | inl e => (Err (PathError "lstat" p e), r)
  | inr n => (Ok (info_of (last p "/"%string) n), r)
  end.

(** [mkdir(2)] *)
Definition mkdir (q : path) (perm : FileMode) (r : Node)
  : option error * Node :=
  match q with
  | [] => (Some (PathError "mkdir" q EEXIST), r)
  | _ =>
      match locate r q with
      | inl e => (Some (PathError "mkdir" q e), r)
      | inr (pm, m, Some _) => (Some (PathError "mkdir" q EEXIST), r)
      | inr (pm, m, None) =>
          if may pm m 3
          then (None,
                put r q (Dir (Z.ldiff (Z.land perm chmod_mask) (umask env))
                             fresh []))
          else (Some (PathError "mkdir" q EACCES), r)
      end
  end.

(** One step of [os.MkdirAll]: [q] is a directory already, or is made. *)
Definition ensure_dir (q : path) (perm : FileMode) (r : Node)
  : option error * Node :=
  match resolve r q with
  | inr (Dir _ _ _) => (None, r)
  | inr _ => (Some (PathError "mkdir" q ENOTDIR), r)
  | inl ENOENT => mkdir q perm r
  | inl e => (Some (PathError "mkdir" q e), r)
  end.

Fixpoint mkdirAll_from (pre rest : path) (perm : FileMode) (r : Node)
  : option error * Node :=
  match rest with
  | [] => (None, r)
  | c :: rest' =>
      match ensure_dir (pre ++ [c]) perm r with
      | (None, r') => mkdirAll_from (pre ++ [c]) rest' perm r'
      | (Some e, r') => (Some e, r')
      end
  end.

(** [os.MkdirAll]: nothing to do when the path is a directory; if not,
    the missing directories are made from the top. *)
Definition mkdirAll (p : path) (perm : FileMode) (r : Node)
  : option error * Node :=
  match resolve r p with
  | inr (Dir _ _ _) => (None, r)
  | inr _ => (Some (PathError "mkdir" p ENOTDIR), r)
  | inl _ => mkdirAll_from [] p perm r
  end.

Definition touch (m : Meta) : Meta :=
  {| m_uid := m_uid m; m_gid := m_gid m;
     m_atime := m_atime m; m_mtime := now env |}.

(** [os.Create]: [open(2)] with [O_RDWR|O_CREATE|O_TRUNC] and mode 0666.  A
    file that is there is opened for reading and writing, which needs both
    permissions, and is emptied. *)
Definition create (q : path) (r : Node) : result os_File * Node :=
  match q with
  | [] => (Err (PathError "open" q EISDIR), r)
  | _ =>
      match locate r q with
      | inl e => (Err (PathError "open" q e), r)
      | inr (pm, m, None) =>
          if may pm m 3
          then (Ok {| file_Name := q |},
                put r q (File (Z.ldiff 438 (umask env)) fresh []))
          else (Err (PathError "open" q EACCES), r)
      | inr (_, _, Some (File p fm _)) =>
          if may p fm 6
          then (Ok {| file_Name := q |}, put r q (File p (touch fm) []))
          else (Err (PathError "open" q EACCES), r)
      | inr (_, _, Some (Dir _ _ _)) => (Err (PathError "open" q EISDIR), r)
      | inr (_, _, Some (Symlink _ _)) => (Err (PathError "open" q ELOOP), r)
      | inr (_, _, Some (Special _ _ _)) => (Err (PathError "open" q ENXIO), r)
      end
  end.

(** A call that changes the attributes of the node at [q]. *)
Definition at_path (op : string) (f : Node -> Errno + Node) (q : path)
           (r : Node) : option error * Node :=
  match resolve r q with
  | inl e => (Some (PathError op q e), r)
  | inr n =>
      match f n with
      | inl e => (Some (PathError op q e), r)
      | inr n' => (None, put r q n')
      end
  end.

Definition chmod_node (mode : FileMode) (n : Node) : Errno + Node :=
  match n with
  | Symlink _ _ => inl ELOOP
  | _ =>
      if owner_or_root (node_meta n)
      then inr (set_perm (Z.land mode chmod_mask) n)
      else inl EPERM
  end.

Definition chmod (q : path) (mode : FileMode) : Node -> option error * Node :=
  at_path "chmod" (chmod_node mode) q.

(** [os.Open]: [open(2)] with [O_RDONLY]. *)
Definition open (q : path) (r : Node) : result os_File * Node :=
  match resolve r q with
  | inl e => (Err (PathError "open" q e), r)
  | inr (File p m _) | inr (Dir p m _) =>
      if may p m 4 then (Ok {| file_Name := q |}, r)
      else (Err (PathError "open" q EACCES), r)
  | inr (Symlink _ _) => (Err (PathError "open" q ELOOP), r)
  | inr (Special _ _ _) => (Err (PathError "open" q ENXIO), r)
  end.

(** [io.Copy(dst, src)] on two open files: all the bytes of [src] are
    written to [dst]. *)
Definition copy_bytes (dst src : os_File) (r : Node)
  : (Z * option error) * Node :=
  match get r (file_Name src) with
  | Some (File _ _ data) =>
      match get r (file_Name dst) with
      | Some (File p m _) =>
          ((Z.of_nat (List.length data), None),
           put r (file_Name dst) (File p (touch m) data))
      | _ => ((0, Some (PathError "write" (file_Name dst) EINVAL)), r)
      end
  | Some (Dir _ _ _) =>
      ((0, Some (PathError "read" (file_Name src) EISDIR)), r)
  | _ => ((0, Some (PathError "read" (file_Name src) EINVAL)), r)
  end.

Definition close (f : os_File) (r : Node) : option error * Node := (None, r).

(** [ioutil.ReadDir]: the directory is opened and read, then [Lstat] is
    called on every name, which needs the directory to be searched; the
    entries come ordered by name. *)
Definition readDir (q : path) (r : Node) : result (list FileInfo) * Node :=
  match resolve r q with
  | inl e => (Err (PathError "open" q e), r)
  | inr (Dir p m es) =>
      if may p m 4 then
        match es with
        | [] => (Ok [], r)
        | e :: _ =>
            if may p m 1
            then (Ok (map (fun e => info_of (fst e) (snd e)) es), r)
            else (Err (PathError "lstat" (q ++ [fst e]) EACCES), r)
        end
      else (Err (PathError "open" q EACCES), r)
  | inr _ => (Err (PathError "readdirent" q ENOTDIR), r)
  end.

Definition readlink (q : path) (r : Node) : result string * Node :=
  match resolve r q with
  | inl e => (Err (PathError "readlink" q e), r)
  | inr (Symlink _ t) => (Ok t, r)
  | inr _ => (Err (PathError "readlink" q EINVAL), r)
  end.

Definition symlink (oldname : string) (q : path) (r : Node)
  : option error * Node :=
  match q with
  | [] => (Some (LinkError "symlink" oldname q EEXIST), r)
  | _ =>
      match locate r q with
      | inl e => (Some (LinkError "symlink" oldname q e), r)
      | inr (_, _, Some _) => (Some (LinkError "symlink" oldname q EEXIST), r)
      | inr (pm, m, None) =>
          if may pm m 3
          then (None, put r q (Symlink fresh oldname))
          else (Some (LinkError "symlink" oldname q EACCES), r)
      end
  end.

(** [os.Lchown]: the owner may keep the user and give the file to the
    group of the process; root may do anything. *)
Definition lchown_node (uid gid : Z) (n : Node) : Errno + Node :=
  let m := node_meta n in
  if (euid env =? 0)
     || ((m_uid m =? euid env) && (uid =? m_uid m)
         && ((gid =? m_gid m) || (gid =? egid env)))
  then inr (set_meta {| m_uid := uid; m_gid := gid;
                        m_atime := m_atime m; m_mtime := m_mtime m |} n)
  else inl EPERM.

Definition lchown (q : path) (uid gid : Z) : Node -> option error * Node :=
  at_path "lchown" (lchown_node uid gid) q.

Definition chtimes_node (atime mtime : Time) (n : Node) : Errno + Node :=
  match n with
  | Symlink _ _ => inl ELOOP
  | _ =>
      let m := node_meta n in
      if owner_or_root m
      then inr (set_meta {| m_uid := m_uid m; m_gid := m_gid m;
                            m_atime := atime; m_mtime := mtime |} n)
      else inl EPERM
  end.

Definition chtimes (q : path) (atime mtime : Time)
  : Node -> option error * Node :=
  at_path "chtimes" (chtimes_node atime mtime) q.

Definition TreeOS : OS Node := {|
  os_Lstat := lstat;
  os_MkdirAll := mkdirAll;
  os_Create := create;
  os_Chmod := chmod;
  os_Open := open;
  io_Copy := copy_bytes;
  file_Close := close;
  ioutil_ReadDir := readDir;
  os_Readlink := readlink;
  os_Symlink := symlink;
  os_Lchown := lchown;
  os_Chtimes := chtimes
|}.

End Calls.

End TreeFS.

(* ================================================================= *)
(** * Part 3.  What a copy is expected to do, on trees *)

(** ** The calls of the attribute restoration *)

Definition restore_calls (policy : Policy) (dest : path) (info : FileInfo)
  : list Call :=
  (if PreservePermissions policy then [CChmod dest (Perm (Mode info))] else [])
  ++ (if PreserveOwner policy then
        match Sys info with
        | Some s => [CLchown dest (Uid s) (Gid s)]
        | None => []
        end
      else [])
  ++ (if PreserveTime policy then
        match Sys info with
        | Some s => [CChtimes dest (time_Unix (Sec (Atim s)) (Nsec (Atim s)))
                              (ModTime info)]
        | None => []
        end
      else []).

(** The errors the logged calls returned, in order. *)
Definition failures (evs : list Event) : list error :=
  flat_map (fun ev => match snd ev with Some e => [e] | None => [] end) evs.

(** The value [copy] returns at lines 134 to 141. *)
Definition aggregated (dest : path) (errs : list error) : option error :=
  match errs with
  | [] => None
  | _ :: _ => Some (FileCopyTasksError dest errs)
  end.

(** The number of steps that fail for want of a [*syscall.Stat_t]. *)
Definition missing_data (policy : Policy) : nat :=
  ((if PreserveOwner policy then 1 else 0)
   + (if PreserveTime policy then 1 else 0))%nat.

(** ** Trees *)

Module Tree.
Import TreeFS.

Fixpoint height (t : Node) : nat :=
  match t with
  | Dir _ _ es => S (fold_right (fun e h => Nat.max (height (snd e)) h) O es)
  | _ => O
  end.

(** Each name is below the names after it. *)
Fixpoint names_sorted (l : list string) : bool :=
  match l with
  | [] => true
  | a :: tl => forallb (fun b => String.ltb a b) tl && names_sorted tl
  end.

(** Every directory of the tree has its entries ordered by name. *)
Fixpoint sorted (t : Node) : bool :=
  match t with
  | Dir _ _ es =>
      names_sorted (map fst es) && forallb (fun e => sorted (snd e)) es
  | _ => true
  end.

(** The two paths part ways at some component: neither is the other, nor
    above it. *)
Fixpoint diverge (p q : path) : bool :=
  match p, q with
  | a :: p', b :: q' => if String.eqb a b then diverge p' q' else true
  | _, _ => false
  end.

Definition place (r : Node) (q : path) (x : option Node) : Node :=
  match x with
  | Some n => put r q n
  | None => r
  end.

Definition get_opt (x : option Node) (q : path) : option Node :=
  match x with
  | Some n => get n q
  | None => None
  end.

Fixpoint count_special (t : Node) : nat :=
  match t with
  | Special _ _ _ => 1
  | Dir _ _ es => fold_right (fun e k => (count_special (snd e) + k)%nat) O es
  | _ => O
  end.

(** The directories [names], one in the other, each with the mode [perm]
    and the attributes [meta], around [leaf]. *)
Fixpoint nest (perm : FileMode) (meta : Meta) (names : path) (leaf : Node)
  : Node :=
  match names with
  | [] => leaf
  | c :: rest => Dir perm meta [(c, nest perm meta rest leaf)]
  end.

(** The tree has regular files and directories only. *)
Fixpoint plain (t : Node) : bool :=
  match t with
  | File _ _ _ => true
  | Dir _ _ es => forallb (fun e => plain (snd e)) es
  | _ => false
  end.


(** The first entry of a list of entries, in their order, in which [f]
    finds a path. *)
Definition first_in (f : Node -> option path)
  : list (string * Node) -> option path :=
  fix go es :=
    match es with
    | [] => None
    | e :: tl =>
        match f (snd e) with
        | Some q => Some (fst e :: q)
        | None => go tl
        end
    end.

(** The path, from the top of the tree, of the first entry in the order of
    the walk that is neither a regular file nor a directory. *)
Fixpoint first_unsupported (t : Node) : option path :=
  match t with
  | File _ _ _ => None
  | Dir _ _ es => first_in (fun x => first_unsupported x) es
  | _ => Some []
  end.

(** The walk comes to [q'] after it has come to [q]: where the two paths
    part, the name on the way to [q'] is the later one. *)
Fixpoint walked_after (q q' : path) : bool :=
  match q, q' with
  | a :: q1, b :: q1' =>
      if String.eqb a b then walked_after q1 q1' else String.ltb a b
  | _, _ => false
  end.

(** [x] is what is found where the source has [n]: an entry of the same
kind with the same bytes or the same target, and nothing for a special
file. *)
Definition copied_as (n : Node) (x : option Node) : Prop :=
match n with
| File _ _ data => exists p' m', x = Some (File p' m' data)
| Dir _ _ _ => exists p' m' es', x = Some (Dir p' m' es')
| Symlink _ target => exists m', x = Some (Symlink m' target)
| Special _ _ _ => x = None
end.

(** Every path that leads to a node of [r] leads to a node of [r']:
nothing was removed. *)
Definition keeps (r r' : Node) : Prop :=
forall p : path, get r p <> None -> get r' p <> None.

(** A computation that removes nothing. *)
Definition mono {A : Type} (m : M Node A) : Prop :=
forall (r : Node) (a : A) (r' : Node), m r = Some (a, r') -> keeps r r'.

Section Expected.
Variable env : Env.
Variable policy : Policy.

(** The process may read every file and list every directory. *)
Fixpoint readable (t : Node) : bool :=
  match t with
  | File p m _ => may env p m 4
  | Dir p m es => may env p m 5 && forallb (fun e => readable (snd e)) es
  | _ => true
  end.

(** The directories [MkdirAll] makes with [tmpPermissionForDirectory]
    can be written and searched by the process. *)
Definition umask_ok : bool :=
  may env (Z.ldiff (Z.land tmpPermissionForDirectory chmod_mask) (umask env))
      (fresh env) 3.

Definition dest_ready (r : Node) (dp : path) (c : string) : Prop :=
  exists pm m es,
    resolve env r dp = inr (Dir pm m es)
    /\ may env pm m 3 = true
    /\ assoc c es = None.

(** Whatever node is put at [q], the path [q] resolves to it. *)
Definition placed (r : Node) (q : path) : Prop :=
forall x, resolve env (put r q x) q = inr x.

(** What lines 87 to 141 of [copy] do to the node [x] at [dest], [info]
    being the descriptor of the source. *)
Definition trestore (dest : path) (info : FileInfo) (x : Node)
  : option error * Node :=
  let '(err, errs, x) :=
    if PreservePermissions policy then
      match chmod_node env (Perm (Mode info)) x with
      | inl e =>
          let err' :=
            Errorf "could not restore permissions '%s' for file %s: %w"
                   [OpMode (Perm (Mode info)); OpPath dest]
                   (Some (PathError "chmod" dest e)) in
          (Some err', [err'], x)
      | inr x' => (None, [], x')
      end
    else (None, [], x) in
  let stat := if PreserveOwner policy || PreserveTime policy
              then Sys info else None in
  let '(err, errs, x) :=
    if PreserveOwner policy then
      let '(err, x) :=
        match stat with
        | Some s =>
            match lchown_node env (Uid s) (Gid s) x with
            | inl e =>
                (Some (Errorf
                   "could not restore owner %d:%d for file %s: %w"
                   [OpInt (Uid s); OpInt (Gid s); OpPath dest]
                   (Some (PathError "lchown" dest e))), x)
            | inr x' => (None, x')
            end
        | None =>
            (Some (Errorf "could not restore owner for file %s: %w"
                          [OpPath dest] err), x)
        end in
      (err, match err with Some e => errs ++ [e] | None => errs end, x)
    else (err, errs, x) in
  let '(err, errs, x) :=
    if PreserveTime policy then
      let '(err, x) :=
        match stat with
        | Some s =>
            match chtimes_node env
                    (time_Unix (Sec (Atim s)) (Nsec (Atim s)))
                    (ModTime info) x with
            | inl e =>
                (Some (Errorf
                   "could not restore timestamp '%s' for file %s: %w"
                   [OpTime (ModTime info); OpPath dest]
                   (Some (PathError "chtimes" dest e))), x)
            | inr x' => (None, x')
            end
        | None =>
            (Some (Errorf "could not restore timestamp for file %s: %w"
                          [OpPath dest] err), x)
        end in
      (err, match err with Some e => errs ++ [e] | None => errs end, x)
    else (err, errs, x) in
  (aggregated dest errs, x).

(** The loop of [dcopy] on the entries [cs] of the source directory,
    [acc] being the entries made so far in the destination. *)
Definition twalk (rec : path -> path -> Node -> option error * option Node)
           (srcdir destdir : path)
  : list (string * Node) -> list (string * Node)
    -> option error * list (string * Node) :=
  fix go cs acc :=
    match cs with
    | [] => (None, acc)
    | e :: tl =>
        let '(err, d) := rec (srcdir ++ [fst e]) (destdir ++ [fst e]) (snd e) in
        let acc' := match d with
                    | Some x => acc ++ [(fst e, x)]
                    | None => acc
                    end in
        match err with
        | None => go tl acc'
        | Some er =>
            if is_UnsupportedFileTypeError er
               && IgnoreUnsupportedFileTypes policy
            then go tl acc'
            else (Some er, acc')
        end
    end.

(** What [copy src dest] returns for the source tree [t], and the tree
    it leaves at [dest] ([None]: nothing is made there). *)
Fixpoint tcopy (src dest : path) (t : Node) : option error * option Node :=
  let info := info_of EmptyString t in
  match t with
  | File _ _ data =>
      let '(err, x) :=
        trestore dest info
          (File (Z.land (node_mode t) chmod_mask) (fresh env) data) in
      (err, Some x)
  | Dir _ _ cs =>
      let '(err, es) := twalk tcopy src dest cs [] in
      let d := Dir (Z.land (node_mode t) chmod_mask) (fresh env) es in
      match err with
      | Some er => (Some er, Some d)
      | None => let '(err, x) := trestore dest info d in (err, Some x)
      end
  | Symlink _ target =>
      (Some (UnsupportedFileTypeError "" (node_mode t) src),
       Some (Symlink (fresh env) target))
  | Special _ _ _ =>
      (Some (UnsupportedFileTypeError "" (node_mode t) src), None)
  end.

(** The code on the file-system tree, with the registry of the package. *)
Definition run_lcopy := @lcopy Node (TreeOS env).
Definition run_fcopy := @fcopy Node (TreeOS env).
Definition run_restore := @restore Node (TreeOS env) policy.
Definition run_copy :=
@copy Node (TreeOS env) policy (@FileTypeCopyHandlers Node (TreeOS env)).
Definition run_dcopy :=
@dcopy Node (TreeOS env) policy (@FileTypeCopyHandlers Node (TreeOS env)).
Definition run_Copy :=
@Copy Node (TreeOS env) policy (@FileTypeCopyHandlers Node (TreeOS env)).

(** What [Copy] returns, from what [copy] does. *)
Definition tCopy (src dest : path) (t : Node) : option error * option Node :=
  let '(err, d) := tcopy src dest t in
  (match err with
   | Some e =>
       if is_UnsupportedFileTypeError e
          && IgnoreUnsupportedFileTypes policy
       then None else Some e
   | None => None
   end, d).

(** The owner of a source entry can be restored, if it is to be: the
process is root, or the entry is its own. *)
Definition may_chown (m : Meta) : bool :=
negb (PreserveOwner policy)
|| (euid env =? 0)
|| ((m_uid m =? euid env) && (m_gid m =? egid env)).

Fixpoint chown_ok (t : Node) : bool :=
match t with
| File _ m _ => may_chown m
| Dir _ m es => may_chown m && forallb (fun e => chown_ok (snd e)) es
| _ => true
end.

(** The attributes of the copy of [t] when the restoration succeeds. *)
Definition perm_after (t : Node) : FileMode :=
if PreservePermissions policy
then Z.land (Perm (node_mode t)) chmod_mask
else Z.land (node_mode t) chmod_mask.

Definition meta_after (t : Node) : Meta :=
{| m_uid := if PreserveOwner policy then m_uid (node_meta t) else euid env;
   m_gid := if PreserveOwner policy then m_gid (node_meta t) else egid env;
   m_atime := if PreserveTime policy
              then time_Unix (t_sec (m_atime (node_meta t)))
                             (t_nsec (m_atime (node_meta t)))
              else now env;
   m_mtime := if PreserveTime policy then m_mtime (node_meta t) else now env |}.

(** The copy of a tree when nothing fails: special files are left out. *)
Fixpoint clone (t : Node) : option Node :=
match t with
| File _ _ data => Some (File (perm_after t) (meta_after t) data)
| Dir _ _ cs =>
    Some (Dir (perm_after t) (meta_after t)
              (flat_map (fun e => match clone (snd e) with
                                  | Some x => [(fst e, x)]
                                  | None => []
                                  end) cs))
| Symlink _ target => Some (Symlink (fresh env) target)
| Special _ _ _ => None
end.

(** The result of [copy] on [t] when nothing else fails. *)
Definition unsupported (src : path) (t : Node) : option error :=
match t with
| File _ _ _ | Dir _ _ _ => None
| _ => Some (UnsupportedFileTypeError "" (node_mode t) src)
end.

(** Every unsupported entry is passed over, or there is none. *)
Definition passes (t : Node) : Prop :=
IgnoreUnsupportedFileTypes policy = true \/ plain t = true.

(** [copy] with [n] levels of calls does what [tcopy] says, for every
source tree that needs fewer levels. *)
Definition copy_spec (n : nat) : Prop :=
forall (t r : Node) (src dp : path) (c name : string),
  (height t < n)%nat ->
  sorted t = true ->
  readable t = true ->
  resolve env r src = inr t ->
  diverge src (dp ++ [c]) = true ->
  dest_ready r dp c ->
  run_copy n src (dp ++ [c]) (info_of name t) r
  = Some (fst (tcopy src (dp ++ [c]) t),
          place r (dp ++ [c]) (snd (tcopy src (dp ++ [c]) t))).

End Expected.
End Tree.

(** ** A small file system for the examples

    The user 1000 with umask 022 owns [/home]; [/home/dst] and
    [/home/copy] do not exist. *)

Module Example.
Import TreeFS.
Local Open Scope string_scope.

Definition env : Env :=
{| euid := 1000; egid := 1000; umask := 18;
   now := {| t_sec := 1700000000; t_nsec := 0 |} |}.

Definition user_meta : Meta :=
{| m_uid := 1000; m_gid := 1000;
   m_atime := {| t_sec := 1600000000; t_nsec := 5 |};
   m_mtime := {| t_sec := 1500000000; t_nsec := 7 |} |}.

Definition root_meta : Meta :=
{| m_uid := 0; m_gid := 0;
   m_atime := {| t_sec := 1400000000; t_nsec := 0 |};
   m_mtime := {| t_sec := 1400000000; t_nsec := 0 |} |}.

Definition home (entries : list (string * Node)) : Node :=
Dir 493 root_meta [("home", Dir 493 user_meta entries)].

Definition hello : list Byte.byte := [Byte.x68; Byte.x69].

(** [/home/link -> /etc/hosts] *)
Definition link : Node := Symlink user_meta "/etc/hosts".
Definition fs_link : Node := home [("link", link)].

(** [/home/src], mode 0755, with a file and a link. *)
Definition mixed : Node :=
Dir 493 user_meta [("a.txt", File 420 user_meta hello); ("link", link)].
Definition fs_mixed : Node := home [("src", mixed)].

(** [/home/src], mode 0500, with a file of mode 0400. *)
Definition readonly : Node :=
Dir 320 user_meta [("a.txt", File 256 user_meta hello)].
Definition fs_readonly : Node := home [("src", readonly)].


(** [/home/src], mode 0755, with two files and a named pipe. *)
Definition with_pipe : Node :=
Dir 493 user_meta [("a.txt", File 420 user_meta hello);
                   ("fifo", Special NamedPipe 420 user_meta);
                   ("z.txt", File 384 user_meta [])].
Definition fs_pipe : Node := home [("src", with_pipe)].

(** [/home/dst] as [MkdirAll] makes it, and with the copy of [a.txt]. *)
Definition started : Node :=
put fs_pipe ["home"; "dst"] (Dir 493 (fresh env) []).

Definition first_done : Node :=
put fs_pipe ["home"; "dst"]
    (Dir 493 (fresh env) [("a.txt", File 420 (fresh env) hello)]).

(** [/home/copy] made as a link by [lcopy]. *)
Definition link_made : Node :=
put fs_link ["home"; "copy"] (Symlink (fresh env) "/etc/hosts").

(** The world and the log [dcopy] leaves, from [/home/src] of mode 0500 to
    [/home/dst]. *)
Definition logged_dcopy : option (option error * Logged Node) :=
@dcopy (Logged Node) (Logged_OS (TreeOS env)) default_policy
       (@FileTypeCopyHandlers _ (Logged_OS (TreeOS env))) 1
       ["home"; "src"] ["home"; "dst"] (info_of "src" readonly)
       (fs_readonly, []).

Definition after_dcopy : Logged Node :=
Eval vm_compute in
  match logged_dcopy with
  | Some (_, s) => s
  | None => (fs_readonly, [])
  end.

(** [/home/dst] as [MkdirAll] makes it beside the directory of mode 0500. *)
Definition started_readonly : Node :=
put fs_readonly ["home"; "dst"] (Dir 493 (fresh env) []).

(** The user's tree [/home] with a link, a named pipe and a socket in it,
    beside an empty directory [/backup] the user owns. *)
Definition two_unsupported : Node :=
Dir 493 user_meta
    [("docs", Dir 493 user_meta [("a.txt", File 420 user_meta hello);
                                 ("fifo", Special NamedPipe 420 user_meta)]);
     ("link", link);
     ("sock", Special Socket 493 user_meta)].
Definition fs_two : Node :=
Dir 493 root_meta [("backup", Dir 493 user_meta []); ("home", two_unsupported)].

(** [/home/shared], mode 02775 (setgid), with a file of mode 0640. *)
Definition setgid_dir : Node :=
Dir (Z.lor ModeSetgid 509) user_meta [("a.txt", File 416 user_meta hello)].
Definition fs_setgid : Node := home [("shared", setgid_dir)].

(** [/home] with five files: two of the user's, of mode 0644 and 0600, one
    of the user's of mode 0444, and two of root's, of mode 0600 and 0666. *)
Definition fs_existing : Node :=
home [("a.txt", File 420 user_meta hello);
      ("key", File 384 root_meta [Byte.x78]);
      ("old.txt", File 384 user_meta [Byte.x78]);
      ("ro.txt", File 292 user_meta [Byte.x78]);
      ("shared.txt", File 438 root_meta [Byte.x78])].

Definition every_attribute : Policy :=
{| IgnoreUnsupportedFileTypes := false;
   PreservePermissions := true;
   PreserveOwner := true;
   PreserveTime := true |}.

Definition ignoring : Policy :=
{| IgnoreUnsupportedFileTypes := true;
   PreservePermissions := false;
   PreserveOwner := false;
   PreserveTime := false |}.

End Example.

(* ================================================================= *)
(** * Part 4.  Theorems *)

Unset Implicit Arguments.

(** ** The monad *)

Section MonadFacts.
Context {W A B : Type}.

Lemma bind_eq (m : M W A) (k : A -> M W B) (w w' : W) (a : A) :
  m w = Some (a, w') -> bind m k w = k a w'.
Proof. intros H. unfold bind. rewrite H. reflexivity. Qed.

Lemma bind_call (f : W -> A * W) (k : A -> M W B) (w w' : W) (a : A) :
  f w = (a, w') -> bind (call f) k w = k a w'.
Proof. intros H. unfold bind, call. rewrite H. reflexivity. Qed.

Lemma defer_eq (cleanup : M W B) (body : M W A) (w w' w'' : W) (a : A) (b : B) :
  body w = Some (a, w') ->
  cleanup w' = Some (b, w'') ->
  defer cleanup body w = Some (a, w'').
Proof. intros H1 H2. unfold defer. rewrite H1, H2. reflexivity. Qed.

Lemma call_eq (f : W -> A * W) (w w' : W) (a : A) :
  f w = (a, w') -> call f w = Some (a, w').
Proof. intros H. unfold call. rewrite H. reflexivity. Qed.

End MonadFacts.
Module TreeFacts.
Import TreeFS Tree.

Lemma compare_refl (c : string) : String.compare c c = Eq.
Proof.
pose proof (String.compare_antisym c c) as H.
destruct (String.compare c c); simpl in H; congruence.
Qed.

Lemma assoc_set_entry_same (c : string) (x : Node) (es : list (string * Node)) :
assoc c (set_entry c x es) = Some x.
Proof.
induction es as [|[k v] tl IH]; simpl.
- rewrite String.eqb_refl. reflexivity.
- destruct (String.compare c k) eqn:E; simpl.
  + rewrite String.eqb_refl. reflexivity.
  + rewrite String.eqb_refl. reflexivity.
  + destruct (String.eqb c k) eqn:E'.
    * apply String.eqb_eq in E'. subst k. rewrite compare_refl in E. discriminate.
    * exact IH.
Qed.

Lemma assoc_set_entry_other (k c : string) (x : Node) (es : list (string * Node)) :
k <> c -> assoc k (set_entry c x es) = assoc k es.
Proof.
intros Hne. apply String.eqb_neq in Hne.
induction es as [|[k' v] tl IH]; simpl.
- rewrite Hne. reflexivity.
- destruct (String.compare c k') eqn:E; simpl.
  + apply String.compare_eq_iff in E. subst k'. rewrite Hne. reflexivity.
  + rewrite Hne. reflexivity.
  + rewrite IH. reflexivity.
Qed.

Lemma set_entry_twice (c : string) (x y : Node) (es : list (string * Node)) :
set_entry c y (set_entry c x es) = set_entry c y es.
Proof.
induction es as [|[k v] tl IH]; simpl.
- rewrite compare_refl. reflexivity.
- destruct (String.compare c k) eqn:E; simpl.
  + rewrite compare_refl. reflexivity.
  + rewrite compare_refl. reflexivity.
  + rewrite E, IH. reflexivity.
Qed.

Lemma set_entry_last (c : string) (x : Node) (es : list (string * Node)) :
Forall (fun e => String.compare c (fst e) = Gt) es ->
set_entry c x es = es ++ [(c, x)].
Proof.
induction 1 as [|[k v] tl Hk _ IH]; simpl.
- reflexivity.
- simpl in Hk. rewrite Hk, IH. reflexivity.
Qed.

Lemma get_app (p q : path) : forall r,
get r (p ++ q) = match get r p with Some n => get n q | None => None end.
Proof.
induction p as [|c p IH]; intros r; simpl.
- reflexivity.
- destruct r; try reflexivity.
  destruct (assoc c entries); [apply IH | reflexivity].
Qed.

Section Env.
Variable env : Env.

Lemma resolve_app (p q : path) : forall r,
resolve env r (p ++ q)
= match resolve env r p with inr n => resolve env n q | inl e => inl e end.
Proof.
induction p as [|c p IH]; intros r; simpl.
- reflexivity.
- destruct r; try reflexivity.
  destruct (may env perm meta 1); [|reflexivity].
  destruct (assoc c entries); [apply IH | reflexivity].
Qed.

Lemma resolve_get (p : path) : forall r n,
resolve env r p = inr n -> get r p = Some n.
Proof.
induction p as [|c p IH]; intros r n; simpl.
- congruence.
- destruct r; try discriminate.
  destruct (may env perm meta 1); [|discriminate].
  destruct (assoc c entries); [apply IH | discriminate].
Qed.

Lemma put_app (p q : path) (x : Node) : forall r n,
get r p = Some n -> put r (p ++ q) x = put r p (put n q x).
Proof.
induction p as [|c p IH]; intros r n; simpl.
- intros [= ->]. reflexivity.
- destruct r; try discriminate.
  destruct (assoc c entries) as [ch|]; [|discriminate].
  intros Hg. rewrite (IH _ _ Hg). reflexivity.
Qed.

Lemma put_put (p : path) (x y : Node) : forall r,
put (put r p x) p y = put r p y.
Proof.
induction p as [|c p IH]; intros r; simpl.
- reflexivity.
- destruct r; try reflexivity.
  destruct (assoc c entries) as [ch|] eqn:E.
  + simpl. rewrite assoc_set_entry_same, IH, set_entry_twice. reflexivity.
  + destruct p; simpl.
    * rewrite assoc_set_entry_same, set_entry_twice. reflexivity.
    * rewrite E. reflexivity.
Qed.

Lemma get_put (p q : path) (x : Node) : forall r n,
get r p = Some n -> get (put r p x) (p ++ q) = get x q.
Proof.
induction p as [|c p IH]; intros r n; simpl.
- reflexivity.
- destruct r; try discriminate.
  destruct (assoc c entries) as [ch|] eqn:E; [|discriminate].
  intros Hg. simpl. rewrite assoc_set_entry_same. apply (IH _ _ Hg).
Qed.

Lemma resolve_put (p q : path) (x : Node) : forall r n,
resolve env r p = inr n -> resolve env (put r p x) (p ++ q) = resolve env x q.
Proof.
induction p as [|c p IH]; intros r n; simpl.
- reflexivity.
- destruct r; try discriminate.
  destruct (may env perm meta 1) eqn:Hm; [|discriminate].
  destruct (assoc c entries) as [ch|] eqn:E; [|discriminate].
  intros Hg. simpl. rewrite Hm, assoc_set_entry_same. apply (IH _ _ Hg).
Qed.

Lemma resolve_put_diverge (p : path) : forall q r x,
diverge p q = true -> resolve env (put r q x) p = resolve env r p.
Proof.
induction p as [|a p IH]; intros [|b q] r x; simpl; try discriminate.
destruct r; try reflexivity.
destruct (String.eqb a b) eqn:Eab.
- apply String.eqb_eq in Eab. subst b. intros Hd.
  destruct (assoc a entries) as [ch|] eqn:E.
  + simpl. rewrite assoc_set_entry_same, ?E.
    destruct (may env perm meta 1); [|reflexivity]. apply IH, Hd.
  + destruct q.
    * destruct p; discriminate.
    * simpl. rewrite ?E. reflexivity.
- intros _. apply String.eqb_neq in Eab.
  destruct (assoc b entries) as [ch|] eqn:E.
  + simpl. rewrite assoc_set_entry_other by exact Eab. reflexivity.
  + destruct q; simpl.
    * rewrite assoc_set_entry_other by exact Eab. reflexivity.
    * reflexivity.
Qed.

Lemma diverge_app (p q p' q' : path) :
diverge p q = true -> diverge (p ++ p') (q ++ q') = true.
Proof.
revert q. induction p as [|a p IH]; intros [|b q]; simpl; try discriminate.
destruct (String.eqb a b); [apply IH | reflexivity].
Qed.


(** *** Permission bits *)

Lemma land_sub (b want sub : Z) :
Z.land want sub = sub -> Z.land b want = want -> Z.land b sub = sub.
Proof.
intros Hs Hb. rewrite <- Hs at 1. rewrite Z.land_assoc, Hb. exact Hs.
Qed.

Lemma may_sub (pm : FileMode) (m : Meta) (want sub : Z) :
Z.land want sub = sub ->
may env pm m want = true -> may env pm m sub = true.
Proof.
unfold may. intros Hs. destruct (euid env =? 0); simpl; [reflexivity|].
rewrite !Z.eqb_eq. apply land_sub, Hs.
Qed.

Lemma may_3_1 pm m : may env pm m 3 = true -> may env pm m 1 = true.
Proof. apply may_sub. reflexivity. Qed.

Lemma may_5_1 pm m : may env pm m 5 = true -> may env pm m 1 = true.
Proof. apply may_sub. reflexivity. Qed.

(** *** The type bits of a mode *)

Lemma land_mask_type (p : Z) (ty : Z) :
Z.land chmod_mask ty = 0 -> Z.land (Z.land p chmod_mask) ty = 0.
Proof. intros H. rewrite <- Z.land_assoc, H. apply Z.land_0_r. Qed.

Lemma IsRegular_file (p : Z) : IsRegular (Z.land p chmod_mask) = true.
Proof.
unfold IsRegular. rewrite land_mask_type by reflexivity. reflexivity.
Qed.

Lemma land_lor_bit (b x ty : Z) :
Z.land b ty = b -> b <> 0 -> Z.land (Z.lor b x) ty <> 0.
Proof.
intros Hb Hnz H0.
assert (Z.land (Z.land (Z.lor b x) ty) b = 0) as H1
  by (rewrite H0; reflexivity).
rewrite <- Z.land_assoc, (Z.land_comm ty b), Hb in H1.
rewrite Z.land_comm, Z.land_lor_distr_r, Z.land_diag in H1.
apply Z.lor_eq_0_iff in H1. tauto.
Qed.

Lemma IsRegular_dir (x : Z) : IsRegular (Z.lor ModeDir x) = false.
Proof.
unfold IsRegular. apply Z.eqb_neq, land_lor_bit; [reflexivity | discriminate].
Qed.

Lemma IsDir_dir (x : Z) : IsDir (Z.lor ModeDir x) = true.
Proof.
unfold IsDir. apply negb_true_iff, Z.eqb_neq, land_lor_bit;
  [reflexivity | discriminate].
Qed.

Lemma IsRegular_special k p :
IsRegular (Z.lor (kind_bits k) (Z.land p chmod_mask)) = false.
Proof.
unfold IsRegular.
apply Z.eqb_neq, land_lor_bit; [destruct k; reflexivity | destruct k; discriminate].
Qed.

Lemma land_special k p (ty : Z) :
Z.land (kind_bits k) ty = 0 -> Z.land chmod_mask ty = 0 ->
Z.land (Z.lor (kind_bits k) (Z.land p chmod_mask)) ty = 0.
Proof.
intros Hk Hm. rewrite Z.land_lor_distr_l, Hk, land_mask_type by exact Hm.
reflexivity.
Qed.

Lemma IsDir_special k p :
IsDir (Z.lor (kind_bits k) (Z.land p chmod_mask)) = false.
Proof.
unfold IsDir. rewrite land_special; [reflexivity | destruct k; reflexivity | reflexivity].
Qed.

Lemma mode_mask_file p : Z.land (Z.land p chmod_mask) chmod_mask = Z.land p chmod_mask.
Proof. rewrite <- Z.land_assoc. reflexivity. Qed.

Lemma mode_mask_dir p :
Z.land (Z.lor ModeDir (Z.land p chmod_mask)) chmod_mask = Z.land p chmod_mask.
Proof.
rewrite Z.land_lor_distr_l, mode_mask_file.
change (Z.land ModeDir chmod_mask) with 0. reflexivity.
Qed.

(** *** Paths that end with a component *)

Lemma snoc_match {A : Type} (dp : path) (c : string) (a b : A) :
match dp ++ [c] with [] => a | _ :: _ => b end = b.
Proof. destruct dp; reflexivity. Qed.

Lemma resolve_snoc (dp : path) (c : string) (r : Node) pm m es :
resolve env r dp = inr (Dir pm m es) ->
may env pm m 1 = true ->
resolve env r (dp ++ [c])
= match assoc c es with Some n => inr n | None => inl ENOENT end.
Proof.
intros Hr Hm. rewrite resolve_app, Hr. simpl. rewrite Hm.
destruct (assoc c es); reflexivity.
Qed.

Lemma locate_snoc (dp : path) (c : string) (r : Node) pm m es :
resolve env r dp = inr (Dir pm m es) ->
may env pm m 1 = true ->
locate env r (dp ++ [c]) = inr (pm, m, assoc c es).
Proof.
intros Hr Hm. unfold locate.
rewrite removelast_last, last_last, Hr, Hm. reflexivity.
Qed.

Lemma put_snoc (dp : path) (c : string) (r x : Node) pm m es :
get r dp = Some (Dir pm m es) ->
put r (dp ++ [c]) x = put r dp (Dir pm m (set_entry c x es)).
Proof.
intros Hg. rewrite (put_app _ _ _ _ _ Hg). simpl.
destruct (assoc c es); reflexivity.
Qed.

Lemma resolve_put_snoc (dp : path) (c : string) (q : path) (r x : Node) pm m es :
resolve env r dp = inr (Dir pm m es) ->
may env pm m 1 = true ->
resolve env (put r (dp ++ [c]) x) ((dp ++ [c]) ++ q) = resolve env x q.
Proof.
intros Hr Hm. rewrite (put_snoc _ _ _ _ _ _ _ (resolve_get _ _ _ Hr)).
rewrite <- app_assoc, (resolve_put _ _ _ _ _ Hr). simpl.
rewrite Hm, assoc_set_entry_same. reflexivity.
Qed.

Lemma get_put_snoc (dp : path) (c : string) (q : path) (r x : Node) pm m es :
get r dp = Some (Dir pm m es) ->
get (put r (dp ++ [c]) x) ((dp ++ [c]) ++ q) = get x q.
Proof.
intros Hg. rewrite (put_snoc _ _ _ _ _ _ _ Hg).
rewrite <- app_assoc, (get_put _ _ _ _ _ Hg). simpl.
rewrite assoc_set_entry_same. reflexivity.
Qed.

Lemma get_put_new (dp : path) (c : string) (r x : Node) pm m es :
  get r dp = Some (Dir pm m es) ->
  get (put r (dp ++ [c]) x) (dp ++ [c]) = Some x.
Proof.
  intros Hg. pose proof (get_put_snoc dp c [] r x pm m es Hg) as H.
  rewrite app_nil_r in H. exact H.
Qed.

Lemma resolve_dir_inv (q : path) : forall n pm m es,
resolve env n q = inr (Dir pm m es) -> exists pm' m' es', n = Dir pm' m' es'.
Proof.
intros n pm m es. destruct q as [|c q]; simpl.
- intros [= ->]. eauto.
- destruct n; try discriminate. eauto.
Qed.

(** *** The calls on a destination that is not there yet *)

Lemma mkdirAll_existing (p : path) (perm : FileMode) (r : Node) pm m es :
resolve env r p = inr (Dir pm m es) -> mkdirAll env p perm r = (None, r).
Proof. intros Hr. unfold mkdirAll. rewrite Hr. reflexivity. Qed.

Lemma mkdir_new (dp : path) (c : string) (perm : FileMode) (r : Node) :
dest_ready env r dp c ->
mkdir env (dp ++ [c]) perm r
= (None, put r (dp ++ [c])
             (Dir (Z.ldiff (Z.land perm chmod_mask) (umask env)) (fresh env) [])).
Proof.
intros (pm & m & es & Hr & Hm & Ha). unfold mkdir.
rewrite snoc_match, (locate_snoc _ _ _ _ _ _ Hr (may_3_1 _ _ Hm)), Ha, Hm.
reflexivity.
Qed.

Lemma mkdirAll_from_new (mid : path) : forall (pre : path) (c : string) perm r,
dest_ready env r (pre ++ mid) c ->
mkdirAll_from env pre (mid ++ [c]) perm r
= (None, put r ((pre ++ mid) ++ [c])
             (Dir (Z.ldiff (Z.land perm chmod_mask) (umask env)) (fresh env) [])).
Proof.
induction mid as [|a mid IH]; intros pre c perm r Hd; simpl.
- rewrite app_nil_r in *. unfold ensure_dir.
  destruct Hd as (pm & m & es & Hr & Hm & Ha).
  rewrite (resolve_snoc _ _ _ _ _ _ Hr (may_3_1 _ _ Hm)), Ha.
  rewrite mkdir_new by (exists pm, m, es; auto). reflexivity.
- replace (pre ++ a :: mid) with ((pre ++ [a]) ++ mid) in *
    by (rewrite <- app_assoc; reflexivity).
  unfold ensure_dir.
  destruct Hd as (pm & m & es & Hr & Hm & Ha).
  pose proof Hr as Hr'. rewrite resolve_app in Hr'.
  destruct (resolve env r (pre ++ [a])) as [e|n] eqn:En; [discriminate|].
  destruct (resolve_dir_inv _ _ _ _ _ Hr') as (pm' & m' & es' & ->).
  apply IH. exists pm, m, es. auto.
Qed.

Lemma mkdirAll_new (dp : path) (c : string) (perm : FileMode) (r : Node) :
dest_ready env r dp c ->
mkdirAll env (dp ++ [c]) perm r
= (None, put r (dp ++ [c])
             (Dir (Z.ldiff (Z.land perm chmod_mask) (umask env)) (fresh env) [])).
Proof.
intros Hd. unfold mkdirAll.
destruct Hd as (pm & m & es & Hr & Hm & Ha).
rewrite (resolve_snoc _ _ _ _ _ _ Hr (may_3_1 _ _ Hm)), Ha.
apply (mkdirAll_from_new dp []). exists pm, m, es. auto.
Qed.

Lemma create_new (dp : path) (c : string) (r : Node) :
dest_ready env r dp c ->
create env (dp ++ [c]) r
= (Ok {| file_Name := dp ++ [c] |},
   put r (dp ++ [c]) (File (Z.ldiff 438 (umask env)) (fresh env) [])).
Proof.
intros (pm & m & es & Hr & Hm & Ha). unfold create.
rewrite snoc_match, (locate_snoc _ _ _ _ _ _ Hr (may_3_1 _ _ Hm)), Ha, Hm.
reflexivity.
Qed.

Lemma symlink_new (target : string) (dp : path) (c : string) (r : Node) :
dest_ready env r dp c ->
symlink env target (dp ++ [c]) r
= (None, put r (dp ++ [c]) (Symlink (fresh env) target)).
Proof.
intros (pm & m & es & Hr & Hm & Ha). unfold symlink.
rewrite snoc_match, (locate_snoc _ _ _ _ _ _ Hr (may_3_1 _ _ Hm)), Ha, Hm.
reflexivity.
Qed.

Lemma placed_snoc (dp : path) (c : string) (r : Node) :
dest_ready env r dp c -> placed env r (dp ++ [c]).
Proof.
intros (pm & m & es & Hr & Hm & Ha) x.
rewrite <- (app_nil_r (dp ++ [c])) at 2.
rewrite (resolve_put_snoc _ _ _ _ _ _ _ _ Hr (may_3_1 _ _ Hm)). reflexivity.
Qed.

Lemma at_path_put (op : string) (f : Node -> Errno + Node) (q : path)
    (r x : Node) :
placed env r q ->
at_path env op f q (put r q x)
= match f x with
  | inl e => (Some (PathError op q e), put r q x)
  | inr x' => (None, put r q x')
  end.
Proof.
intros Hp. unfold at_path. rewrite Hp.
destruct (f x); [reflexivity|]. rewrite put_put. reflexivity.
Qed.

(** *** The copy of one file and of one link *)

Section WithPolicy.
Variable policy : Policy.


Lemma fcopy_new (src dp : path) (c : string) (info : FileInfo) (r : Node)
      p m data :
  dest_ready env r dp c ->
  resolve env r src = inr (File p m data) ->
  may env p m 4 = true ->
  diverge src (dp ++ [c]) = true ->
  run_fcopy env src (dp ++ [c]) info r
  = Some (None, put r (dp ++ [c])
                    (File (Z.land (Mode info) chmod_mask) (fresh env) data)).
Proof.
  intros Hd Hs Hread Hdiv.
  pose proof (placed_snoc _ _ _ Hd) as Hp.
  destruct Hd as (pm & dm & es & Hr & Hm & Ha).
  assert (dest_ready env r dp c) as Hd by (exists pm, dm, es; auto).
  unfold run_fcopy, fcopy, bind, call, defer, ret, filepath_Dir. simpl.
  rewrite removelast_last, (mkdirAll_existing _ _ _ _ _ _ Hr).
  rewrite (create_new _ _ _ Hd). simpl.
  unfold chmod. rewrite (at_path_put _ _ _ _ _ Hp). simpl.
  unfold owner_or_root at 1. simpl. rewrite Z.eqb_refl, orb_true_r.
  unfold open. rewrite (resolve_put_diverge _ _ _ _ Hdiv), Hs, Hread.
  unfold copy_bytes. simpl.
  rewrite (resolve_get _ _ _ (eq_trans (resolve_put_diverge _ _ _ _ Hdiv) Hs)).
  rewrite <- (app_nil_r (dp ++ [c])) at 2.
  rewrite (get_put_snoc _ _ _ _ _ _ _ _ (resolve_get _ _ _ Hr)). simpl.
  rewrite put_put. reflexivity.
Qed.

Lemma lcopy_new (src dp : path) (c : string) (info : FileInfo) (r : Node)
      m target :
  dest_ready env r dp c ->
  resolve env r src = inr (Symlink m target) ->
  run_lcopy env src (dp ++ [c]) info r
  = Some (None, put r (dp ++ [c]) (Symlink (fresh env) target)).
Proof.
  intros Hd Hs. unfold run_lcopy, lcopy, bind, call, ret. simpl.
  unfold readlink. rewrite Hs. simpl. rewrite (symlink_new _ _ _ _ Hd).
  reflexivity.
Qed.

Lemma restore_put (q : path) (name : string) (t x : Node) (r : Node) :
  placed env r q ->
  run_restore env policy q (info_of name t) (put r q x)
  = Some (fst (trestore env policy q (info_of EmptyString t) x),
          put r q (snd (trestore env policy q (info_of EmptyString t) x))).
Proof.
  intros Hp.
  unfold run_restore, restore, restore_permissions, restore_owner, restore_time, trestore,
    bind, call, ret. simpl.
  unfold chmod, lchown, chtimes.
  destruct (PreservePermissions policy), (PreserveOwner policy),
    (PreserveTime policy); simpl;
    rewrite ?(at_path_put _ _ _ _ _ Hp);
    repeat match goal with
    | |- context [chmod_node ?e ?a ?b] =>
        destruct (chmod_node e a b) eqn:?; simpl;
        rewrite ?(at_path_put _ _ _ _ _ Hp)
    | |- context [lchown_node ?e ?a ?b ?c] =>
        destruct (lchown_node e a b c) eqn:?; simpl;
        rewrite ?(at_path_put _ _ _ _ _ Hp)
    | |- context [chtimes_node ?e ?a ?b ?c] =>
        destruct (chtimes_node e a b c) eqn:?; simpl;
        rewrite ?(at_path_put _ _ _ _ _ Hp)
    end; reflexivity.
Qed.

Lemma copy_S (n : nat) (src dest : path) (info : FileInfo) :
  run_copy env policy (S n) src dest info
  = (err <- @copy_content Node (TreeOS env) policy
            (@FileTypeCopyHandlers Node (TreeOS env))
            (run_copy env policy n) src dest info ;;
     match err with
     | Some e => ret (Some e)
     | None => run_restore env policy dest info
     end).
Proof. reflexivity. Qed.


(** *** The walk over a directory *)

Lemma assoc_none_below (c : string) (acc : list (string * Node)) :
  Forall (fun a => String.compare c (fst a) = Gt) acc -> assoc c acc = None.
Proof.
  induction 1 as [|[k v] tl Hk _ IH]; simpl; [reflexivity|].
  destruct (String.eqb c k) eqn:E; [|exact IH].
  apply String.eqb_eq in E. subst k. simpl in Hk.
  rewrite compare_refl in Hk. discriminate.
Qed.

Lemma ltb_gt (a b : string) : String.ltb a b = true -> String.compare b a = Gt.
Proof.
  unfold String.ltb. rewrite (String.compare_antisym b a).
  destruct (String.compare a b); simpl; congruence.
Qed.

Lemma height_entry (e : string * Node) (es : list (string * Node)) pm m :
  In e es -> (height (snd e) < height (Dir pm m es))%nat.
Proof.
  simpl. induction es as [|e' es IH]; simpl; [tauto|].
  intros [->|Hin]; [lia|]. specialize (IH Hin). lia.
Qed.

Lemma fst_let {A B C : Type} (x : A * B) (f : B -> C) :
  fst (let '(a, b) := x in (a, f b)) = fst x.
Proof. destruct x; reflexivity. Qed.

Lemma snd_let {A B C : Type} (x : A * B) (f : B -> C) :
  snd (let '(a, b) := x in (a, f b)) = f (snd x).
Proof. destruct x; reflexivity. Qed.

Lemma put_child (q : path) (c : string) (r x : Node) pm m acc :
  placed env r q ->
  Forall (fun a => String.compare c (fst a) = Gt) acc ->
  put (put r q (Dir pm m acc)) (q ++ [c]) x
  = put r q (Dir pm m (acc ++ [(c, x)])).
Proof.
  intros Hp Hb.
  rewrite (put_snoc _ _ _ _ _ _ _ (resolve_get _ _ _ (Hp (Dir pm m acc)))).
  rewrite put_put, (set_entry_last _ _ _ Hb). reflexivity.
Qed.

Lemma walk_spec (n : nat) (src dp : path) (c : string) (r0 : Node) (pm : FileMode) :
  copy_spec env policy n ->
  dest_ready env r0 dp c ->
  may env pm (fresh env) 3 = true ->
  diverge src (dp ++ [c]) = true ->
  forall (todo acc : list (string * Node)),
    Forall (fun e => (height (snd e) < n)%nat
                     /\ sorted (snd e) = true
                     /\ readable env (snd e) = true
                     /\ resolve env r0 (src ++ [fst e]) = inr (snd e)) todo ->
    names_sorted (map fst todo) = true ->
    Forall (fun a => Forall (fun b => String.compare (fst b) (fst a) = Gt) todo) acc ->
    walk policy (run_copy env policy n) src (dp ++ [c])
         (map (fun e => info_of (fst e) (snd e)) todo)
         (put r0 (dp ++ [c]) (Dir pm (fresh env) acc))
    = Some (fst (twalk policy (tcopy env policy) src (dp ++ [c]) todo acc),
            put r0 (dp ++ [c])
                (Dir pm (fresh env)
                     (snd (twalk policy (tcopy env policy) src (dp ++ [c]) todo acc)))).
Proof.
  intros Hspec Hd Hm Hdiv.
  pose proof (placed_snoc _ _ _ Hd) as Hp.
  induction todo as [|[c' ch] tl IH]; intros acc Hall Hsorted Hbelow.
  - reflexivity.
  - simpl in Hsorted. apply andb_true_iff in Hsorted as [Hhead Hsorted].
    rewrite forallb_forall in Hhead.
    inversion Hall as [|? ? (Hh & Hs & Hr & Hres) Hall']; subst. simpl in *.
    assert (Forall (fun a => String.compare c' (fst a) = Gt) acc) as Hc'.
    { eapply Forall_impl; [|exact Hbelow]. intros a Ha.
      inversion Ha; assumption. }
    assert (Forall (fun a => Forall (fun b => String.compare (fst b) (fst a) = Gt) tl) acc)
      as Hbelow'.
    { eapply Forall_impl; [|exact Hbelow]. intros a Ha.
      inversion Ha; assumption. }
    assert (Forall (fun b => String.compare (fst b) c' = Gt) tl) as Htl.
    { apply Forall_forall. intros b Hb. apply ltb_gt, Hhead, in_map, Hb. }
    unfold bind, filepath_Join.
    rewrite (Hspec ch _ (src ++ [c']) (dp ++ [c]) c' c' Hh Hs Hr).
    + destruct (tcopy env policy (src ++ [c']) ((dp ++ [c]) ++ [c']) ch)
        as [err d] eqn:Etc. simpl.
      assert (place (put r0 (dp ++ [c]) (Dir pm (fresh env) acc))
                    ((dp ++ [c]) ++ [c']) d
              = put r0 (dp ++ [c])
                    (Dir pm (fresh env)
                         (match d with
                          | Some x => acc ++ [(c', x)]
                          | None => acc
                          end))) as ->.
      { destruct d; simpl; [apply (put_child _ _ _ _ _ _ _ Hp Hc') | reflexivity]. }
      assert (Forall (fun a => Forall (fun b => String.compare (fst b) (fst a) = Gt) tl)
                     (match d with
                      | Some x => acc ++ [(c', x)]
                      | None => acc
                      end)) as Hnext.
      { destruct d; [|exact Hbelow'].
        apply Forall_app. split; [exact Hbelow'|]. constructor; [exact Htl|constructor]. }
      destruct err as [er|].
      * destruct (is_UnsupportedFileTypeError er); simpl; [|reflexivity].
        destruct (IgnoreUnsupportedFileTypes policy); simpl; [|reflexivity].
        apply IH; assumption.
      * apply IH; assumption.
    + rewrite resolve_put_diverge; [exact Hres|].
      rewrite <- (app_nil_r (dp ++ [c])). apply diverge_app, Hdiv.
    + apply diverge_app, Hdiv.
    + exists pm, (fresh env), acc. split; [apply Hp|]. split; [exact Hm|].
      apply assoc_none_below, Hc'.
Qed.

(** *** A link made by [lcopy], in any state *)

Lemma locate_inv (r : Node) (q : path) pm m x :
  locate env r q = inr (pm, m, x) ->
  exists es, resolve env r (removelast q) = inr (Dir pm m es)
             /\ may env pm m 1 = true
             /\ x = assoc (last q EmptyString) es.
Proof.
  unfold locate.
  destruct (resolve env r (removelast q)) as [e|[| pm' m' es | |]]; try discriminate.
  destruct (may env pm' m' 1) eqn:Hm; [|discriminate].
  intros [= -> -> <-]. exists es. auto.
Qed.

Lemma symlink_success (target : string) (q : path) (r r' : Node) :
  symlink env target q r = (None, r') ->
  r' = put r q (Symlink (fresh env) target)
  /\ get r' q = Some (Symlink (fresh env) target).
Proof.
  unfold symlink. destruct q as [|a q]; [discriminate|].
  destruct (locate env r (a :: q)) as [e|[[pm m] [x|]]] eqn:El; try discriminate.
  destruct (may env pm m 3); [|discriminate].
  intros [= <-]. split; [reflexivity|].
  destruct (locate_inv _ _ _ _ _ El) as (es & Hr & _ & _).
  assert (a :: q <> []) as Hne by discriminate.
  pose proof (get_put_new (removelast (a :: q)) (last (a :: q) EmptyString)
                r (Symlink (fresh env) target) _ _ _ (resolve_get _ _ _ Hr)) as Hg.
  rewrite <- (app_removelast_last EmptyString Hne) in Hg.
  exact Hg.
Qed.

Lemma lcopy_success (src dest : path) (info : FileInfo) (r r' : Node) :
  run_lcopy env src dest info r = Some (None, r') ->
  exists m target,
    resolve env r src = inr (Symlink m target)
    /\ get r' dest = Some (Symlink (fresh env) target).
Proof.
  unfold run_lcopy, lcopy, bind, call, ret. cbn [os_Readlink os_Symlink TreeOS].
  unfold readlink.
  destruct (resolve env r src) as [e|[| | m target |]] eqn:Hs; try discriminate.
  intros [= H]. exists m, target. split; [reflexivity|].
  destruct (symlink env target dest r) as [[e|] r1] eqn:Hl; [discriminate|].
  injection H as <-. apply (symlink_success _ _ _ _ Hl).
Qed.

(** *** No call removes an entry *)

Lemma keeps_refl (r : Node) : keeps r r.
Proof. intros p H. exact H. Qed.

Lemma keeps_trans (r1 r2 r3 : Node) : keeps r1 r2 -> keeps r2 r3 -> keeps r1 r3.
Proof. intros H12 H23 p H. apply H23, H12, H. Qed.

Lemma keeps_put (q : path) : forall (r x : Node),
  (forall old, get r q = Some old -> keeps old x) ->
  keeps r (put r q x).
Proof.
  induction q as [|c q IH]; intros r x Hold.
  - apply Hold. reflexivity.
  - destruct r as [| pm m es | |]; try apply keeps_refl.
    simpl in Hold. simpl put.
    destruct (assoc c es) as [ch|] eqn:Ea.
    + intros p H. destruct p as [|a p]; [discriminate|]. simpl in *.
      destruct (String.eqb a c) eqn:Eac.
      * apply String.eqb_eq in Eac. subst a.
        rewrite assoc_set_entry_same. rewrite Ea in H. apply (IH ch x Hold), H.
      * apply String.eqb_neq in Eac.
        rewrite (assoc_set_entry_other _ _ _ _ Eac). exact H.
    + destruct q as [|c' q]; [|apply keeps_refl].
      intros p H. destruct p as [|a p]; [discriminate|]. simpl in *.
      destruct (String.eqb a c) eqn:Eac.
      * apply String.eqb_eq in Eac. subst a. rewrite Ea in H. congruence.
      * apply String.eqb_neq in Eac.
        rewrite (assoc_set_entry_other _ _ _ _ Eac). exact H.
Qed.

Lemma keeps_put_new (q : path) (r x : Node) :
  get r q = None -> keeps r (put r q x).
Proof. intros H. apply keeps_put. intros old Ho. congruence. Qed.

Lemma keeps_set_perm (pm : FileMode) (n : Node) : keeps n (set_perm pm n).
Proof. destruct n; intros [|c p] H; simpl in *; try discriminate; exact H. Qed.

Lemma keeps_set_meta (m : Meta) (n : Node) : keeps n (set_meta m n).
Proof. destruct n; intros [|c p] H; simpl in *; try discriminate; exact H. Qed.

Lemma keeps_file (p : FileMode) (m : Meta) (data : list Byte.byte) (x : Node) :
  keeps (File p m data) x.
Proof. intros [|c q] H; [discriminate | contradiction]. Qed.

Lemma cons_ne (a : string) (q : path) : a :: q <> [].
Proof. discriminate. Qed.

Lemma locate_get (r : Node) (q : path) pm m x :
  q <> [] -> locate env r q = inr (pm, m, x) -> get r q = x.
Proof.
  intros Hne Hl. destruct (locate_inv _ _ _ _ _ Hl) as (es & Hr & _ & ->).
  rewrite (app_removelast_last EmptyString Hne) at 1.
  rewrite get_app, (resolve_get _ _ _ Hr). simpl.
  destruct (assoc (last q EmptyString) es); reflexivity.
Qed.

Lemma keeps_mkdir (q : path) (perm : FileMode) (r : Node) :
  keeps r (snd (mkdir env q perm r)).
Proof.
  unfold mkdir. destruct q as [|a q]; [apply keeps_refl|].
  destruct (locate env r (a :: q)) as [e|[[pm m] [x|]]] eqn:El;
    try apply keeps_refl.
  destruct (may env pm m 3); [|apply keeps_refl].
  apply keeps_put_new, (locate_get _ _ _ _ _ (cons_ne a q) El).
Qed.

Lemma keeps_ensure_dir (q : path) (perm : FileMode) (r : Node) :
  keeps r (snd (ensure_dir env q perm r)).
Proof.
  unfold ensure_dir.
  destruct (resolve env r q) as [[]|[]]; try apply keeps_refl.
  apply keeps_mkdir.
Qed.

Lemma keeps_mkdirAll_from (rest : path) : forall (pre : path) perm r,
  keeps r (snd (mkdirAll_from env pre rest perm r)).
Proof.
  induction rest as [|c rest IH]; intros pre perm r; simpl; [apply keeps_refl|].
  pose proof (keeps_ensure_dir (pre ++ [c]) perm r) as H.
  destruct (ensure_dir env (pre ++ [c]) perm r) as [[e|] r1]; [exact H|].
  eapply keeps_trans; [exact H | apply IH].
Qed.

Lemma keeps_mkdirAll (p : path) (perm : FileMode) (r : Node) :
  keeps r (snd (mkdirAll env p perm r)).
Proof.
  unfold mkdirAll.
  destruct (resolve env r p) as [e|[]]; try apply keeps_refl.
  apply keeps_mkdirAll_from.
Qed.

Lemma keeps_create (q : path) (r : Node) : keeps r (snd (create env q r)).
Proof.
  unfold create. destruct q as [|a q]; [apply keeps_refl|].
  destruct (locate env r (a :: q)) as [e|[[pm m] [[p fm data| | |]|]]] eqn:El;
    try apply keeps_refl.
  - destruct (may env p fm 6); [|apply keeps_refl].
    apply keeps_put. intros old Ho.
    rewrite (locate_get _ _ _ _ _ (cons_ne a q) El) in Ho.
    injection Ho as <-. apply keeps_file.
  - destruct (may env pm m 3); [|apply keeps_refl].
    apply keeps_put_new, (locate_get _ _ _ _ _ (cons_ne a q) El).
Qed.

Lemma keeps_symlink (target : string) (q : path) (r : Node) :
  keeps r (snd (symlink env target q r)).
Proof.
  unfold symlink. destruct q as [|a q]; [apply keeps_refl|].
  destruct (locate env r (a :: q)) as [e|[[pm m] [x|]]] eqn:El;
    try apply keeps_refl.
  destruct (may env pm m 3); [|apply keeps_refl].
  apply keeps_put_new, (locate_get _ _ _ _ _ (cons_ne a q) El).
Qed.

Lemma keeps_at_path (op : string) (f : Node -> Errno + Node) (q : path) (r : Node) :
  (forall n n', f n = inr n' -> keeps n n') ->
  keeps r (snd (at_path env op f q r)).
Proof.
  intros Hf. unfold at_path.
  destruct (resolve env r q) as [e|n] eqn:Hr; [apply keeps_refl|].
  destruct (f n) as [e|n'] eqn:Hn; [apply keeps_refl|].
  apply keeps_put. intros old Ho.
  rewrite (resolve_get _ _ _ Hr) in Ho. injection Ho as <-.
  apply (Hf _ _ Hn).
Qed.

Lemma keeps_chmod (q : path) (mode : FileMode) (r : Node) :
  keeps r (snd (chmod env q mode r)).
Proof.
  apply keeps_at_path. intros n n' H.
  assert (n' = set_perm (Z.land mode chmod_mask) n) as ->.
  { unfold chmod_node in H.
    destruct n; try discriminate;
      (destruct (owner_or_root env _); [|discriminate]);
      injection H as <-; reflexivity. }
  apply keeps_set_perm.
Qed.

Lemma keeps_lchown (q : path) (uid gid : Z) (r : Node) :
  keeps r (snd (lchown env q uid gid r)).
Proof.
  apply keeps_at_path. intros n n' H. unfold lchown_node in H.
  match type of H with context [if ?b then _ else _] => destruct b end;
    [|discriminate].
  injection H as <-. apply keeps_set_meta.
Qed.

Lemma keeps_chtimes (q : path) (atime mtime : Time) (r : Node) :
  keeps r (snd (chtimes env q atime mtime r)).
Proof.
  apply keeps_at_path. intros n n' H.
  assert (exists m, n' = set_meta m n) as (m & ->).
  { unfold chtimes_node in H.
    destruct n; try discriminate;
      (destruct (owner_or_root env _); [|discriminate]);
      injection H as <-; eexists; reflexivity. }
  apply keeps_set_meta.
Qed.

Lemma keeps_copy_bytes (dst src : os_File) (r : Node) :
  keeps r (snd (copy_bytes env dst src r)).
Proof.
  unfold copy_bytes.
  destruct (get r (file_Name src)) as [[p m data| | |]|]; try apply keeps_refl.
  destruct (get r (file_Name dst)) as [[p' m' data'| | |]|] eqn:Hg;
    try apply keeps_refl.
  apply keeps_put. intros old Ho. rewrite Hg in Ho. injection Ho as <-.
  apply keeps_file.
Qed.

Lemma keeps_lstat (q : path) (r : Node) : keeps r (snd (lstat env q r)).
Proof. unfold lstat. destruct (resolve env r q); apply keeps_refl. Qed.

Lemma keeps_open (q : path) (r : Node) : keeps r (snd (open env q r)).
Proof.
  unfold open. destruct (resolve env r q) as [e|[p m d|p m es| |]];
    try apply keeps_refl; destruct (may env p m 4); apply keeps_refl.
Qed.

Lemma keeps_readDir (q : path) (r : Node) : keeps r (snd (readDir env q r)).
Proof.
  unfold readDir. destruct (resolve env r q) as [e|[|p m es| |]];
    try apply keeps_refl.
  destruct (may env p m 4); [|apply keeps_refl].
  destruct es; [apply keeps_refl|].
  destruct (may env p m 1); apply keeps_refl.
Qed.

Lemma keeps_readlink (q : path) (r : Node) : keeps r (snd (readlink env q r)).
Proof.
  unfold readlink. destruct (resolve env r q) as [e|[]]; apply keeps_refl.
Qed.

(** *** The code removes nothing *)

Lemma mono_ret {A : Type} (a : A) : mono (ret a).
Proof. intros r a' r' [= _ <-]. apply keeps_refl. Qed.

Lemma mono_call {A : Type} (f : Node -> A * Node) :
  (forall r, keeps r (snd (f r))) -> mono (call f).
Proof. intros Hf r a r' [= H]. specialize (Hf r). rewrite H in Hf. exact Hf. Qed.

Lemma mono_bind {A B : Type} (m : M Node A) (k : A -> M Node B) :
  mono m -> (forall a, mono (k a)) -> mono (bind m k).
Proof.
  intros Hm Hk r b r'. unfold bind.
  destruct (m r) as [[a r1]|] eqn:E; [|discriminate].
  intros H. eapply keeps_trans; [apply (Hm _ _ _ E) | apply (Hk _ _ _ _ H)].
Qed.

Lemma mono_defer {A B : Type} (cleanup : M Node B) (body : M Node A) :
  mono cleanup -> mono body -> mono (defer cleanup body).
Proof.
  intros Hc Hb r a r'. unfold defer.
  destruct (body r) as [[a1 r1]|] eqn:E; [|discriminate].
  destruct (cleanup r1) as [[b r2]|] eqn:E2; [|discriminate].
  intros [= _ <-].
  eapply keeps_trans; [apply (Hb _ _ _ E) | apply (Hc _ _ _ E2)].
Qed.

Ltac mono_step :=
  match goal with
  | |- mono (bind _ _) => apply mono_bind; [|intros ?]
  | |- mono (defer _ _) => apply mono_defer
  | |- mono (ret _) => apply mono_ret
  | |- mono (call _) => apply mono_call; intros ?
  | |- mono (match ?x with _ => _ end) => destruct x
  | |- mono (let '(_, _) := ?x in _) => destruct x
  end.

Lemma mono_lcopy (src dest : path) (info : FileInfo) :
  mono (run_lcopy env src dest info).
Proof.
  unfold run_lcopy, lcopy. repeat mono_step.
  - apply keeps_readlink.
  - apply keeps_symlink.
Qed.

Lemma mono_fcopy (src dest : path) (info : FileInfo) :
  mono (run_fcopy env src dest info).
Proof.
  unfold run_fcopy, fcopy. repeat mono_step;
    first [ apply keeps_mkdirAll | apply keeps_create | apply keeps_chmod
          | apply keeps_open | apply keeps_copy_bytes | apply keeps_refl ].
Qed.

Lemma mono_restore (dest : path) (info : FileInfo) :
  mono (run_restore env policy dest info).
Proof.
  unfold run_restore, restore, restore_permissions, restore_owner, restore_time.
  repeat mono_step;
    first [ apply keeps_chmod | apply keeps_lchown | apply keeps_chtimes ].
Qed.

Lemma mono_walk (rec : path -> path -> FileInfo -> M Node (option error))
      (srcdir destdir : path) (contents : list FileInfo) :
  (forall s d i, mono (rec s d i)) ->
  mono (walk policy rec srcdir destdir contents).
Proof.
  intros Hrec. induction contents as [|content rest IH]; simpl.
  - apply mono_ret.
  - apply mono_bind; [apply Hrec|]. intros [err|]; [|exact IH].
    destruct (is_UnsupportedFileTypeError err); [|apply mono_ret].
    destruct (negb (IgnoreUnsupportedFileTypes policy)); [apply mono_ret | exact IH].
Qed.

Lemma mono_dcopy_with (rec : path -> path -> FileInfo -> M Node (option error))
      (srcdir destdir : path) (info : FileInfo) :
  (forall s d i, mono (rec s d i)) ->
  mono (@dcopy_with Node (TreeOS env) policy rec srcdir destdir info).
Proof.
  intros Hrec. unfold dcopy_with.
  apply mono_bind; [apply mono_call; intros r; apply keeps_mkdirAll|].
  intros [err|]; [apply mono_ret|].
  apply mono_defer; [apply mono_call; intros r; apply keeps_chmod|].
  apply mono_bind; [apply mono_call; intros r; apply keeps_readDir|].
  intros [contents|err]; [apply mono_walk, Hrec | apply mono_ret].
Qed.

Lemma mono_copy (n : nat) : forall (src dest : path) (info : FileInfo),
  mono (run_copy env policy n src dest info).
Proof.
  induction n as [|n IH]; intros src dest info.
  - intros r a r' H. discriminate.
  - rewrite copy_S.
    apply mono_bind; [|intros [e|]; [apply mono_ret | apply mono_restore]].
    unfold copy_content.
    destruct (IsRegular (Mode info)); [apply (mono_fcopy src dest info)|].
    destruct (FileInfo_IsDir info); [apply mono_dcopy_with, IH|].
    apply mono_bind; [|intros ?; apply mono_ret].
    unfold FileTypeCopyHandlers, range_handlers.
    match goal with |- context [if ?b then _ else _] => destruct b end;
      [apply (mono_lcopy src dest info) | apply mono_ret].
Qed.

Lemma mono_dcopy (n : nat) (srcdir destdir : path) (info : FileInfo) :
  mono (run_dcopy env policy n srcdir destdir info).
Proof. apply mono_dcopy_with, mono_copy. Qed.

(** *** [copy] on a tree *)

Section Refinement.
Hypothesis Humask : umask_ok env = true.

Lemma forallb_Forall {A : Type} (f : A -> bool) (l : list A) :
  forallb f l = true -> Forall (fun a => f a = true) l.
Proof. rewrite forallb_forall. apply Forall_forall. Qed.

Lemma owner_fresh : owner_or_root env (fresh env) = true.
Proof. unfold owner_or_root. simpl. rewrite Z.eqb_refl. apply orb_true_r. Qed.

Lemma readDir_dir (q : path) (r : Node) p m es :
  resolve env r q = inr (Dir p m es) ->
  may env p m 5 = true ->
  readDir env q r = (Ok (map (fun e => info_of (fst e) (snd e)) es), r).
Proof.
  intros Hr Hm. unfold readDir.
  rewrite Hr, (may_sub _ _ 5 4 eq_refl Hm), (may_5_1 _ _ Hm).
  destruct es; reflexivity.
Qed.

Lemma chmod_fresh_dir (q : path) (mode : FileMode) (r : Node) pm es :
  placed env r q ->
  chmod env q mode (put r q (Dir pm (fresh env) es))
  = (None, put r q (Dir (Z.land mode chmod_mask) (fresh env) es)).
Proof.
  intros Hp. unfold chmod. rewrite (at_path_put _ _ _ _ _ Hp).
  unfold chmod_node, node_meta. rewrite owner_fresh. reflexivity.
Qed.

Lemma copy_file (n : nat) (src dp : path) (c name : string) (r : Node) p m data :
  resolve env r src = inr (File p m data) ->
  may env p m 4 = true ->
  diverge src (dp ++ [c]) = true ->
  dest_ready env r dp c ->
  run_copy env policy (S n) src (dp ++ [c]) (info_of name (File p m data)) r
  = Some (fst (tcopy env policy src (dp ++ [c]) (File p m data)),
          place r (dp ++ [c]) (snd (tcopy env policy src (dp ++ [c]) (File p m data)))).
Proof.
  intros Hs Hread Hdiv Hd.
  pose proof (placed_snoc _ _ _ Hd) as Hp.
  rewrite copy_S.
  erewrite bind_eq.
  2:{ unfold copy_content.
      change (Mode (info_of name (File p m data))) with (Z.land p chmod_mask).
      rewrite IsRegular_file.
      exact (fcopy_new src dp c (info_of name (File p m data)) r p m data
                       Hd Hs Hread Hdiv). }
  cbv beta iota. rewrite (restore_put _ name (File p m data) _ _ Hp).
  change (tcopy env policy src (dp ++ [c]) (File p m data))
    with (let '(err, x) :=
            trestore env policy (dp ++ [c]) (info_of EmptyString (File p m data))
              (File (Z.land (node_mode (File p m data)) chmod_mask) (fresh env) data)
          in (err, Some x)).
  rewrite fst_let, snd_let. reflexivity.
Qed.

Lemma copy_symlink (n : nat) (src dp : path) (c name : string) (r : Node) m target :
  resolve env r src = inr (Symlink m target) ->
  dest_ready env r dp c ->
  run_copy env policy (S n) src (dp ++ [c]) (info_of name (Symlink m target)) r
  = Some (Some (UnsupportedFileTypeError "" (node_mode (Symlink m target)) src),
          put r (dp ++ [c]) (Symlink (fresh env) target)).
Proof.
  intros Hs Hd.
  rewrite copy_S.
  erewrite bind_eq.
  2:{ unfold copy_content.
      change (IsRegular (Mode (info_of name (Symlink m target)))) with false.
      change (FileInfo_IsDir (info_of name (Symlink m target))) with false.
      cbv iota.
      erewrite bind_eq; [reflexivity|].
      unfold FileTypeCopyHandlers, range_handlers.
      change (negb (Z.land (Mode (info_of name (Symlink m target))) ModeSymlink =? 0))
        with true.
      cbv iota.
      exact (lcopy_new src dp c (info_of name (Symlink m target)) r m target Hd Hs). }
  reflexivity.
Qed.

Lemma copy_special (n : nat) (src dest : path) (name : string) (r : Node) k p m :
  run_copy env policy (S n) src dest (info_of name (Special k p m)) r
  = Some (Some (UnsupportedFileTypeError "" (node_mode (Special k p m)) src), r).
Proof.
  rewrite copy_S.
  erewrite bind_eq.
  2:{ unfold copy_content, FileInfo_IsDir.
      change (Mode (info_of name (Special k p m)))
        with (Z.lor (kind_bits k) (Z.land p chmod_mask)).
      rewrite IsRegular_special, IsDir_special.
      erewrite bind_eq; [reflexivity|].
      unfold FileTypeCopyHandlers, range_handlers.
      change (Mode (info_of name (Special k p m)))
        with (Z.lor (kind_bits k) (Z.land p chmod_mask)).
      rewrite land_special; [reflexivity | destruct k; reflexivity | reflexivity]. }
  reflexivity.
Qed.

Lemma copy_dir (n : nat) (src dp : path) (c name : string) (r : Node) p m cs :
  copy_spec env policy n ->
  (height (Dir p m cs) < S n)%nat ->
  sorted (Dir p m cs) = true ->
  readable env (Dir p m cs) = true ->
  resolve env r src = inr (Dir p m cs) ->
  diverge src (dp ++ [c]) = true ->
  dest_ready env r dp c ->
  run_copy env policy (S n) src (dp ++ [c]) (info_of name (Dir p m cs)) r
  = Some (fst (tcopy env policy src (dp ++ [c]) (Dir p m cs)),
          place r (dp ++ [c]) (snd (tcopy env policy src (dp ++ [c]) (Dir p m cs)))).
Proof.
  intros Hspec Hh Hsorted Hread Hs Hdiv Hd.
  pose proof (placed_snoc _ _ _ Hd) as Hp.
  simpl in Hsorted, Hread.
  apply andb_true_iff in Hsorted as [Hnames Hsorted].
  apply andb_true_iff in Hread as [Hlist Hread].
  assert (Forall (fun e => (height (snd e) < n)%nat
                           /\ sorted (snd e) = true
                           /\ readable env (snd e) = true
                           /\ resolve env r (src ++ [fst e]) = inr (snd e)) cs) as Hall.
  { apply Forall_forall. intros e Hin.
    rewrite forallb_forall in Hsorted, Hread.
    pose proof (height_entry e cs p m Hin) as Hlt.
    repeat split; [lia | auto | auto |].
    rewrite (resolve_snoc _ _ _ _ _ _ Hs (may_5_1 _ _ Hlist)).
    assert (assoc (fst e) cs = Some (snd e)) as ->; [|reflexivity].
    clear - Hnames Hin. induction cs as [|[k v] tl IH]; [contradiction|].
    simpl in Hnames. apply andb_true_iff in Hnames as [Hhead Hnames].
    destruct Hin as [<-|Hin]; simpl.
    - rewrite String.eqb_refl. reflexivity.
    - destruct (String.eqb (fst e) k) eqn:E; [|auto].
      apply String.eqb_eq in E. subst k. rewrite forallb_forall in Hhead.
      pose proof (ltb_gt _ _ (Hhead _ (in_map fst _ _ Hin))) as Hgt.
      rewrite compare_refl in Hgt. discriminate. }
  rewrite copy_S.
  destruct (twalk policy (tcopy env policy) src (dp ++ [c]) cs []) as [err es] eqn:Ew.
  erewrite bind_eq.
  2:{ unfold copy_content, FileInfo_IsDir.
      change (Mode (info_of name (Dir p m cs)))
        with (Z.lor ModeDir (Z.land p chmod_mask)).
      rewrite IsRegular_dir, IsDir_dir.
      unfold dcopy_with.
      erewrite bind_call; [|exact (mkdirAll_new _ _ tmpPermissionForDirectory _ Hd)].
      cbv beta iota.
      eapply defer_eq.
      - erewrite bind_call;
          [|apply (readDir_dir src _ p m cs);
            [rewrite (resolve_put_diverge _ _ _ _ Hdiv); exact Hs | exact Hlist]].
        cbv beta iota.
        rewrite (walk_spec n src dp c r _ Hspec Hd Humask Hdiv cs [] Hall Hnames
                           (Forall_nil _)).
        rewrite Ew. reflexivity.
      - apply call_eq. apply (chmod_fresh_dir _ _ _ _ _ Hp). }
  change (tcopy env policy src (dp ++ [c]) (Dir p m cs))
    with (let '(err, es) := twalk policy (tcopy env policy) src (dp ++ [c]) cs [] in
          let d := Dir (Z.land (node_mode (Dir p m cs)) chmod_mask) (fresh env) es in
          match err with
          | Some er => (Some er, Some d)
          | None =>
              let '(err, x) :=
                trestore env policy (dp ++ [c]) (info_of EmptyString (Dir p m cs)) d
              in (err, Some x)
          end).
  rewrite Ew. cbv beta iota zeta.
  destruct err as [er|]; [reflexivity|].
  rewrite (restore_put _ name (Dir p m cs) _ _ Hp).
  rewrite fst_let, snd_let. reflexivity.
Qed.

Theorem copy_refines_tcopy (n : nat) : copy_spec env policy n.
Proof.
  induction n as [|n IH]; intros t r src dp c name Hh Hsorted Hread Hs Hdiv Hd.
  - inversion Hh.
  - destruct t as [p m data | p m cs | m target | k p m].
    + apply copy_file; assumption.
    + apply copy_dir; assumption.
    + apply copy_symlink; assumption.
    + apply copy_special.
Qed.

(** *** What [tcopy] gives when the attributes can be restored *)

Lemma may_chown_inv (m : Meta) :
  may_chown env policy m = true ->
  PreserveOwner policy = true ->
  (euid env =? 0) = true
  \/ ((euid env =? 0) = false
      /\ (m_uid m =? euid env) = true
      /\ (m_gid m =? egid env) = true).
Proof.
  unfold may_chown. intros H Hpo. rewrite Hpo in H. simpl in H.
  destruct (euid env =? 0); [left; reflexivity|]. right.
  simpl in H. apply andb_true_iff in H. tauto.
Qed.

Ltac restore_steps :=
  unfold chmod_node, lchown_node, chtimes_node, owner_or_root;
  cbn [node_meta set_perm set_meta fresh m_uid m_gid m_atime m_mtime
       info_of Sys Uid Gid Atim Sec Nsec ModTime Mode];
  rewrite ?Z.eqb_refl, ?orb_true_r; cbn [orb andb].

Lemma trestore_node (dest : path) (t x : Node) :
  may_chown env policy (node_meta t) = true ->
  (exists data, x = File (Z.land (node_mode t) chmod_mask) (fresh env) data)
  \/ (exists es, x = Dir (Z.land (node_mode t) chmod_mask) (fresh env) es) ->
  trestore env policy dest (info_of EmptyString t) x
  = (None, set_meta (meta_after env policy t) (set_perm (perm_after policy t) x)).
Proof.
  intros Hc Hx. unfold trestore, perm_after, meta_after.
  destruct (PreserveOwner policy) eqn:Hpo.
  - destruct (may_chown_inv _ Hc Hpo) as [Hroot|(Hroot & Hu & Hg)];
      destruct Hx as [[data ->]|[es ->]];
      destruct (PreservePermissions policy), (PreserveTime policy);
      cbn [orb andb]; repeat (restore_steps; rewrite ?Hroot, ?Hu, ?Hg; cbn [orb andb]);
      reflexivity.
  - destruct Hx as [[data ->]|[es ->]];
      destruct (PreservePermissions policy), (PreserveTime policy);
      cbn [orb andb]; repeat restore_steps; reflexivity.
Qed.

Lemma trestore_file (dest : path) (t : Node) (data : list Byte.byte) :
  may_chown env policy (node_meta t) = true ->
  trestore env policy dest (info_of EmptyString t)
           (File (Z.land (node_mode t) chmod_mask) (fresh env) data)
  = (None, File (perm_after policy t) (meta_after env policy t) data).
Proof.
  intros Hc. rewrite (trestore_node dest t _ Hc); [reflexivity|].
  left. exists data. reflexivity.
Qed.

Lemma trestore_dir (dest : path) (t : Node) (es : list (string * Node)) :
  may_chown env policy (node_meta t) = true ->
  trestore env policy dest (info_of EmptyString t)
           (Dir (Z.land (node_mode t) chmod_mask) (fresh env) es)
  = (None, Dir (perm_after policy t) (meta_after env policy t) es).
Proof.
  intros Hc. rewrite (trestore_node dest t _ Hc); [reflexivity|].
  right. exists es. reflexivity.
Qed.

Lemma tcopy_file_eq (src dest : path) p m data :
  tcopy env policy src dest (File p m data)
  = (let '(err, x) :=
       trestore env policy dest (info_of EmptyString (File p m data))
         (File (Z.land (node_mode (File p m data)) chmod_mask) (fresh env) data)
     in (err, Some x)).
Proof. reflexivity. Qed.

Lemma tcopy_dir_eq (src dest : path) p m cs :
  tcopy env policy src dest (Dir p m cs)
  = (let '(err, es) := twalk policy (tcopy env policy) src dest cs [] in
     let d := Dir (Z.land (node_mode (Dir p m cs)) chmod_mask) (fresh env) es in
     match err with
     | Some er => (Some er, Some d)
     | None =>
         let '(err, x) :=
           trestore env policy dest (info_of EmptyString (Dir p m cs)) d
         in (err, Some x)
     end).
Proof. reflexivity. Qed.

Lemma twalk_cons (src dest : path) (e : string * Node) tl acc :
  twalk policy (tcopy env policy) src dest (e :: tl) acc
  = (let '(err, d) := tcopy env policy (src ++ [fst e]) (dest ++ [fst e]) (snd e) in
     let acc' := match d with
                 | Some x => acc ++ [(fst e, x)]
                 | None => acc
                 end in
     match err with
     | None => twalk policy (tcopy env policy) src dest tl acc'
     | Some er =>
         if is_UnsupportedFileTypeError er && IgnoreUnsupportedFileTypes policy
         then twalk policy (tcopy env policy) src dest tl acc'
         else (Some er, acc')
     end).
Proof. reflexivity. Qed.

Lemma twalk_clone (src dest : path) (cs : list (string * Node)) :
  Forall (fun e => forall s d,
            tcopy env policy s d (snd e) = (unsupported s (snd e), clone env policy (snd e))) cs ->
  Forall (fun e => passes policy (snd e)) cs ->
  forall acc,
    twalk policy (tcopy env policy) src dest cs acc
    = (None, acc ++ flat_map (fun e => match clone env policy (snd e) with
                                       | Some x => [(fst e, x)]
                                       | None => []
                                       end) cs).
Proof.
  induction 1 as [|e tl He _ IH]; intros Hpass acc.
  - simpl. rewrite app_nil_r. reflexivity.
  - inversion Hpass as [|? ? Hp Hpass']; subst.
    rewrite twalk_cons, He. cbv beta iota zeta. simpl flat_map.
    assert (forall acc', twalk policy (tcopy env policy) src dest tl acc'
                         = (None, acc' ++ flat_map (fun e => match clone env policy (snd e) with
                                       | Some x => [(fst e, x)]
                                       | None => []
                                       end) tl)) as IH' by (intros; apply IH, Hpass').
    destruct e as [k v]. cbn [fst snd] in *.
    destruct v; cbn [unsupported clone is_UnsupportedFileTypeError andb];
      try (rewrite IH', <- app_assoc; reflexivity).
    + destruct Hp as [Hi|Hpl]; [|discriminate].
      rewrite Hi, IH', <- app_assoc. reflexivity.
    + destruct Hp as [Hi|Hpl]; [|discriminate].
      rewrite Hi, IH'. reflexivity.
Qed.

Lemma passes_entry (e : string * Node) p m cs :
  passes policy (Dir p m cs) -> In e cs -> passes policy (snd e).
Proof.
  intros [Hi|Hpl] Hin; [left; exact Hi|right].
  simpl in Hpl. rewrite forallb_forall in Hpl. apply Hpl, Hin.
Qed.

Lemma chown_ok_entry (e : string * Node) p m cs :
  chown_ok env policy (Dir p m cs) = true -> In e cs ->
  chown_ok env policy (snd e) = true.
Proof.
  simpl. intros H Hin. apply andb_true_iff in H as [_ H].
  rewrite forallb_forall in H. apply H, Hin.
Qed.

Lemma chown_ok_dir p m cs :
  chown_ok env policy (Dir p m cs) = true -> may_chown env policy m = true.
Proof. simpl. intros H. apply andb_true_iff in H. tauto. Qed.

Lemma chown_ok_off (n : nat) : forall t,
  PreserveOwner policy = false ->
  (height t < n)%nat ->
  chown_ok env policy t = true.
Proof.
  induction n as [|n IH]; intros t Hpo Hh; [inversion Hh|].
  assert (forall m, may_chown env policy m = true) as Hm
    by (intros m; unfold may_chown; rewrite Hpo; reflexivity).
  destruct t as [p m data | p m cs | m target | k p m]; try reflexivity.
  - apply Hm.
  - simpl. rewrite Hm. simpl. apply forallb_forall. intros e Hin.
    apply IH; [exact Hpo|]. pose proof (height_entry e cs p m Hin). lia.
Qed.

Lemma tcopy_clone (n : nat) : forall (t : Node) (src dest : path),
  (height t < n)%nat ->
  chown_ok env policy t = true ->
  passes policy t ->
  tcopy env policy src dest t = (unsupported src t, clone env policy t).
Proof.
  induction n as [|n IH]; intros t src dest Hh Hc Hp; [inversion Hh|].
  destruct t as [p m data | p m cs | m target | k p m]; try reflexivity.
  - rewrite tcopy_file_eq, (trestore_file dest (File p m data) data Hc).
    reflexivity.
  - rewrite tcopy_dir_eq.
    rewrite (twalk_clone src dest cs).
    + cbv beta iota zeta.
      rewrite (trestore_dir dest (Dir p m cs) _ (chown_ok_dir p m cs Hc)).
      reflexivity.
    + apply Forall_forall. intros e Hin s d. apply IH.
      * pose proof (height_entry e cs p m Hin). lia.
      * apply (chown_ok_entry e p m cs Hc Hin).
      * apply (passes_entry e p m cs Hp Hin).
    + apply Forall_forall. intros e Hin. apply (passes_entry e p m cs Hp Hin).
Qed.

(** *** The entries of a copy *)

Lemma assoc_sorted_head (c : string) (tl : list (string * Node)) :
  forallb (fun b => String.ltb c b) (map fst tl) = true -> assoc c tl = None.
Proof.
  induction tl as [|[k v] tl IH]; simpl; [reflexivity|].
  intros H. apply andb_true_iff in H as [Hk H].
  destruct (String.eqb c k) eqn:E; [|exact (IH H)].
  apply String.eqb_eq in E. subst k.
  unfold String.ltb in Hk. rewrite compare_refl in Hk. discriminate.
Qed.

Lemma assoc_clone (c : string) (cs : list (string * Node)) :
  names_sorted (map fst cs) = true ->
  assoc c (flat_map (fun e => match clone env policy (snd e) with
                              | Some x => [(fst e, x)]
                              | None => []
                              end) cs)
  = match assoc c cs with
    | Some ch => clone env policy ch
    | None => None
    end.
Proof.
  induction cs as [|[k v] tl IH]; simpl; [reflexivity|].
  intros H. apply andb_true_iff in H as [Hk H].
  destruct (String.eqb c k) eqn:E.
  - apply String.eqb_eq in E. subst k.
    destruct (clone env policy v) as [x|]; simpl.
    + rewrite String.eqb_refl. reflexivity.
    + rewrite (IH H), (assoc_sorted_head _ _ Hk). reflexivity.
  - destruct (clone env policy v) as [x|]; simpl; [rewrite E|]; exact (IH H).
Qed.

Lemma sorted_entry (c : string) (ch : Node) p m cs :
  sorted (Dir p m cs) = true -> assoc c cs = Some ch -> sorted ch = true.
Proof.
  simpl. intros H Ha. apply andb_true_iff in H as [_ H].
  rewrite forallb_forall in H.
  induction cs as [|[k v] tl IH]; simpl in Ha; [discriminate|].
  destruct (String.eqb c k).
  - injection Ha as <-. apply (H (k, v)). left. reflexivity.
  - apply IH; [|exact Ha]. intros x Hx. apply H. right. exact Hx.
Qed.

Lemma get_clone (q : path) : forall t,
  sorted t = true ->
  get_opt (clone env policy t) q
  = match get t q with
    | Some n => clone env policy n
    | None => None
    end.
Proof.
  induction q as [|c q IH]; intros t Hs.
  - simpl. destruct (clone env policy t); reflexivity.
  - destruct t as [p m data | p m cs | m target | k p m]; try reflexivity.
    pose proof Hs as Hs'. simpl in Hs'. apply andb_true_iff in Hs' as [Hn _].
    cbn [clone get_opt get]. rewrite (assoc_clone c cs Hn).
    destruct (assoc c cs) as [ch|] eqn:Ea; [|reflexivity].
    rewrite <- (IH ch (sorted_entry c ch p m cs Hs Ea)).
    destruct (clone env policy ch); reflexivity.
Qed.

Lemma clone_copied_as (n : Node) : copied_as n (clone env policy n).
Proof.
  destruct n; simpl; eauto.
Qed.

(** *** [Copy] on a tree *)

Lemma lstat_node (q : path) (r t : Node) :
  resolve env r q = inr t ->
  lstat env q r = (Ok (info_of (last q "/"%string) t), r).
Proof. intros H. unfold lstat. rewrite H. reflexivity. Qed.

Lemma Copy_refines_tCopy (n : nat) (t r : Node) (src dp : path) (c : string) :
  (height t < n)%nat ->
  sorted t = true ->
  readable env t = true ->
  resolve env r src = inr t ->
  diverge src (dp ++ [c]) = true ->
  dest_ready env r dp c ->
  run_Copy env policy n src (dp ++ [c]) r
  = Some (fst (tCopy env policy src (dp ++ [c]) t),
          place r (dp ++ [c]) (snd (tCopy env policy src (dp ++ [c]) t))).
Proof.
  intros Hh Hsorted Hread Hs Hdiv Hd.
  unfold run_Copy, Copy.
  erewrite bind_call; [|exact (lstat_node src r t Hs)].
  cbv beta iota.
  erewrite bind_eq;
    [|exact (copy_refines_tcopy n t r src dp c _ Hh Hsorted Hread Hs Hdiv Hd)].
  unfold tCopy.
  destruct (tcopy env policy src (dp ++ [c]) t) as [[e|] d]; simpl;
    [|reflexivity].
  destruct (is_UnsupportedFileTypeError e); simpl; [|reflexivity].
  destruct (IgnoreUnsupportedFileTypes policy); reflexivity.
Qed.

Lemma get_missing (dp : path) (c : string) (q : path) (r : Node) :
  dest_ready env r dp c -> get r ((dp ++ [c]) ++ q) = None.
Proof.
  intros (pm & m & es & Hr & _ & Ha).
  rewrite <- app_assoc, get_app, (resolve_get _ _ _ Hr). simpl.
  rewrite Ha. reflexivity.
Qed.

Lemma get_place (dp : path) (c : string) (q : path) (r : Node) (d : option Node) :
  dest_ready env r dp c ->
  get (place r (dp ++ [c]) d) ((dp ++ [c]) ++ q) = get_opt d q.
Proof.
  intros Hd. destruct d as [x|]; simpl.
  - destruct Hd as (pm & m & es & Hr & _ & _).
    apply (get_put_snoc _ _ _ _ _ _ _ _ (resolve_get _ _ _ Hr)).
  - apply get_missing, Hd.
Qed.

(** When the attributes can be restored, a copy that passes over what it
    does not support returns no error and leaves the clone of the source. *)
Lemma Copy_clone (n : nat) (t r : Node) (src dp : path) (c : string) :
  (height t < n)%nat ->
  sorted t = true ->
  readable env t = true ->
  chown_ok env policy t = true ->
  resolve env r src = inr t ->
  diverge src (dp ++ [c]) = true ->
  dest_ready env r dp c ->
  passes policy t ->
  run_Copy env policy n src (dp ++ [c]) r
  = Some (match t with
          | File _ _ _ | Dir _ _ _ => None
          | _ => if IgnoreUnsupportedFileTypes policy then None
                 else Some (UnsupportedFileTypeError "" (node_mode t) src)
          end,
          place r (dp ++ [c]) (clone env policy t)).
Proof.
  intros Hh Hsorted Hread Hc Hs Hdiv Hd Hp.
  rewrite (Copy_refines_tCopy n t r src dp c Hh Hsorted Hread Hs Hdiv Hd).
  unfold tCopy. rewrite (tcopy_clone n t src (dp ++ [c]) Hh Hc Hp).
  destruct t; simpl; try reflexivity;
    destruct (IgnoreUnsupportedFileTypes policy); reflexivity.
Qed.

(** *** Special files *)

Lemma special_not_plain (n : nat) : forall t,
  (height t < n)%nat -> (0 < count_special t)%nat -> plain t = false.
Proof.
  induction n as [|n IH]; intros t Hh Hc; [inversion Hh|].
  destruct t as [p m data | p m cs | m target | k p m]; try reflexivity.
  - simpl in Hc. inversion Hc.
  - simpl in *. induction cs as [|e tl IHl]; simpl in *; [inversion Hc|].
    destruct (plain (snd e)) eqn:He; [|reflexivity]. simpl.
    destruct (count_special (snd e)) eqn:Hce.
    + apply IHl; lia.
    + rewrite IH in He; [discriminate | lia | lia].
Qed.

(** *** Modes and contents of a clone *)


Lemma get_plain (q : path) : forall t n,
  plain t = true -> get t q = Some n -> plain n = true.
Proof.
  induction q as [|c q IH]; intros t n Hp; simpl.
  - intros [= <-]. exact Hp.
  - destruct t as [| p m cs | |]; try discriminate.
    destruct (assoc c cs) as [ch|] eqn:Ea; [|discriminate].
    apply IH. simpl in Hp. rewrite forallb_forall in Hp.
    clear - Hp Ea. induction cs as [|[k v] tl IHl]; [discriminate|].
    simpl in Ea. destruct (String.eqb c k).
    + injection Ea as <-. apply (Hp (k, v)). left. reflexivity.
    + apply IHl; [|exact Ea]. intros x Hx. apply Hp. right. exact Hx.
Qed.

Lemma clone_mode (n : Node) :
  PreservePermissions policy = false ->
  plain n = true ->
  exists n', clone env policy n = Some n' /\ node_mode n' = node_mode n.
Proof.
  intros Hpp Hpl. destruct n as [p m data | p m cs | |]; try discriminate.
  - eexists. split; [reflexivity|]. simpl. unfold perm_after. rewrite Hpp.
    simpl. rewrite !mode_mask_file. reflexivity.
  - eexists. split; [reflexivity|]. cbn [node_mode]. unfold perm_after.
    rewrite Hpp. cbn [node_mode]. rewrite mode_mask_dir, mode_mask_file.
    reflexivity.
Qed.

Lemma clone_entries (t : Node) (q : path) :
  sorted t = true ->
  match get t q with
  | Some n => copied_as n (get_opt (clone env policy t) q)
  | None => get_opt (clone env policy t) q = None
  end.
Proof.
  intros Hs. rewrite (get_clone q t Hs).
  destruct (get t q) as [n|]; [apply clone_copied_as | reflexivity].
Qed.

(** *** What a copy leaves alone *)


(** A path that resolves has its last component in a directory that may
    be searched. *)
Lemma resolve_locate (q : path) (r n : Node) :
  q <> [] ->
  resolve env r q = inr n ->
  exists pm m es,
    resolve env r (removelast q) = inr (Dir pm m es)
    /\ may env pm m 1 = true
    /\ assoc (last q EmptyString) es = Some n
    /\ locate env r q = inr (pm, m, Some n).
Proof.
  intros Hq. destruct (exists_last Hq) as (dp & c & ->).
  rewrite removelast_last, last_last, resolve_app.
  destruct (resolve env r dp) as [e|nd] eqn:E; [discriminate|].
  simpl. destruct nd as [| pm m es | |]; try discriminate.
  destruct (may env pm m 1) eqn:Hm; [|discriminate].
  destruct (assoc c es) as [ch|] eqn:Ea; [|discriminate].
  intros [= ->]. exists pm, m, es. repeat split; auto.
  rewrite (locate_snoc _ _ _ _ _ _ E Hm), Ea. reflexivity.
Qed.

Lemma symlink_existing (target : string) (q : path) (r n : Node) :
  resolve env r q = inr n ->
  symlink env target q r = (Some (LinkError "symlink" target q EEXIST), r).
Proof.
  intros H. destruct q as [|a q]; [reflexivity|].
  destruct (resolve_locate (a :: q) r n ltac:(discriminate) H)
    as (pm & m & es & _ & _ & _ & Hl).
  unfold symlink. rewrite Hl. reflexivity.
Qed.

(** *** The destination of a copy that passes every entry *)

Lemma Copy_clone_get (n : nat) (t r : Node) (src dp : path) (c : string) :
  (height t < n)%nat ->
  sorted t = true ->
  readable env t = true ->
  chown_ok env policy t = true ->
  resolve env r src = inr t ->
  diverge src (dp ++ [c]) = true ->
  dest_ready env r dp c ->
  passes policy t ->
  exists r',
    run_Copy env policy n src (dp ++ [c]) r = Some (None, r')
    /\ forall q : path,
         get r' ((dp ++ [c]) ++ q)
         = match get t q with
           | Some x => clone env policy x
           | None => None
           end.
Proof.
  intros Hh Hs Hr Hc Hsrc Hdiv Hd Hp.
  exists (place r (dp ++ [c]) (clone env policy t)). split.
  - rewrite (Copy_clone n t r src dp c Hh Hs Hr Hc Hsrc Hdiv Hd Hp).
    destruct Hp as [Hi|Hpl].
    + rewrite Hi. destruct t; reflexivity.
    + destruct t; try discriminate; reflexivity.
  - intros q. rewrite (get_place dp c q r _ Hd). apply get_clone, Hs.
Qed.

Lemma land_mask_perm (x : Z) : Z.land (Z.land x chmod_mask) ModePerm = Z.land x ModePerm.
Proof. rewrite <- Z.land_assoc. reflexivity. Qed.

Lemma land_perm_mask (x : Z) : Z.land (Z.land x ModePerm) chmod_mask = Z.land x ModePerm.
Proof. rewrite <- Z.land_assoc. reflexivity. Qed.

Lemma clone_mode_perm (n : Node) :
  PreservePermissions policy = true ->
  match n with
  | File _ _ _ =>
      option_map node_mode (clone env policy n) = Some (Perm (node_mode n))
  | Dir _ _ _ =>
      option_map node_mode (clone env policy n)
      = Some (Z.lor ModeDir (Perm (node_mode n)))
  | _ => True
  end.
Proof.
  intros Hpp. destruct n as [p m data | p m cs | |]; try exact I.
  - cbn [clone option_map]. unfold perm_after. rewrite Hpp.
    cbn [node_mode]. unfold Perm. rewrite mode_mask_file, land_perm_mask.
    reflexivity.
  - cbn [clone option_map]. unfold perm_after. rewrite Hpp.
    cbn [node_mode]. unfold Perm. rewrite mode_mask_file, land_perm_mask.
    reflexivity.
Qed.


(** *** A destination that is there already *)

Lemma placed_existing (q : path) (r n : Node) :
  resolve env r q = inr n -> placed env r q.
Proof.
  intros H x. rewrite <- (app_nil_r q) at 2.
  rewrite (resolve_put q [] x r n H). reflexivity.
Qed.

Lemma get_put_existing (q : path) (r n x : Node) :
  resolve env r q = inr n -> get (put r q x) q = Some x.
Proof.
  intros H. rewrite <- (app_nil_r q) at 2.
  rewrite (get_put q [] x r n (resolve_get _ _ _ H)). reflexivity.
Qed.

Lemma may_2_4_6 (p : FileMode) (m : Meta) :
  may env p m 2 = true -> may env p m 4 = true -> may env p m 6 = true.
Proof.
  unfold may. destruct (euid env =? 0); [reflexivity|]. cbn [orb].
  rewrite !Z.eqb_eq. intros H2 H4.
  change 6 with (Z.lor 2 4). rewrite Z.land_lor_distr_r, H2, H4. reflexivity.
Qed.

Lemma create_existing (q : path) (r : Node) p m data :
  q <> [] ->
  resolve env r q = inr (File p m data) ->
  create env q r
  = if may env p m 6
    then (Ok {| file_Name := q |}, put r q (File p (touch env m) []))
    else (Err (PathError "open" q EACCES), r).
Proof.
  intros Hq H.
  destruct (resolve_locate q r _ Hq H) as (pm & dm & es & _ & _ & _ & Hl).
  unfold create. rewrite Hl. destruct q; [contradiction|reflexivity].
Qed.

Lemma mkdirAll_parent (q : path) (perm : FileMode) (r n : Node) :
  q <> [] ->
  resolve env r q = inr n ->
  mkdirAll env (removelast q) perm r = (None, r).
Proof.
  intros Hq H.
  destruct (resolve_locate q r _ Hq H) as (pm & dm & es & Hr & _).
  apply (mkdirAll_existing _ _ _ _ _ _ Hr).
Qed.

(** The class of the permission bits looks at the nine permission bits
    only. *)
Lemma class_bits_mask (p : FileMode) (m : Meta) :
  class_bits env (Z.land p chmod_mask) m = class_bits env p m.
Proof.
  unfold class_bits.
  destruct (m_uid m =? euid env); [|destruct (m_gid m =? egid env)];
    rewrite ?Z.shiftr_land, <- Z.land_assoc; reflexivity.
Qed.

Lemma may_mask (p : FileMode) (m : Meta) (want : Z) :
  may env (Z.land p chmod_mask) m want = may env p m want.
Proof. unfold may. rewrite class_bits_mask. reflexivity. Qed.

(** [fcopy] over a regular file the process may write and owns. *)
Lemma fcopy_existing (src dest : path) (info : FileInfo) (r : Node)
      p m data p' m' data' :
  dest <> [] ->
  resolve env r dest = inr (File p' m' data') ->
  may env p' m' 6 = true ->
  owner_or_root env m' = true ->
  resolve env r src = inr (File p m data) ->
  may env p m 4 = true ->
  diverge src dest = true ->
  run_fcopy env src dest info r
  = Some (None, put r dest
                    (File (Z.land (Mode info) chmod_mask) (touch env m') data)).
Proof.
  intros Hq Hd Hw Ho Hs Hread Hdiv.
  pose proof (placed_existing _ _ _ Hd) as Hp.
  unfold run_fcopy, fcopy, bind, call, defer, ret, filepath_Dir. simpl.
  rewrite (mkdirAll_parent _ _ _ _ Hq Hd).
  rewrite (create_existing _ _ _ _ _ Hq Hd), Hw. simpl.
  unfold chmod. rewrite (at_path_put _ _ _ _ _ Hp). simpl.
  change (owner_or_root env (touch env m')) with (owner_or_root env m').
  rewrite Ho. cbv beta iota.
  unfold open. rewrite (resolve_put_diverge _ _ _ _ Hdiv), Hs, Hread.
  unfold copy_bytes. simpl.
  rewrite (resolve_get _ _ _ (eq_trans (resolve_put_diverge _ _ _ _ Hdiv) Hs)).
  rewrite (get_put_existing _ _ _ _ Hd). simpl.
  rewrite put_put. reflexivity.
Qed.

(** [fcopy] over a regular file the process may write and does not own:
    the file is emptied, and [Chmod] fails. *)
Lemma fcopy_not_owner (src dest : path) (info : FileInfo) (r : Node)
      p' m' data' :
  dest <> [] ->
  resolve env r dest = inr (File p' m' data') ->
  may env p' m' 6 = true ->
  owner_or_root env m' = false ->
  run_fcopy env src dest info r
  = Some (Some (PathError "chmod" dest EPERM),
          put r dest (File p' (touch env m') [])).
Proof.
  intros Hq Hd Hw Ho.
  pose proof (placed_existing _ _ _ Hd) as Hp.
  unfold run_fcopy, fcopy, bind, call, defer, ret, filepath_Dir. simpl.
  rewrite (mkdirAll_parent _ _ _ _ Hq Hd).
  rewrite (create_existing _ _ _ _ _ Hq Hd), Hw. simpl.
  unfold chmod. rewrite (at_path_put _ _ _ _ _ Hp). simpl.
  change (owner_or_root env (touch env m')) with (owner_or_root env m').
  rewrite Ho. reflexivity.
Qed.

(** [fcopy] over a regular file the process may not write. *)
Lemma fcopy_read_only (src dest : path) (info : FileInfo) (r : Node)
      p' m' data' :
  dest <> [] ->
  resolve env r dest = inr (File p' m' data') ->
  may env p' m' 6 = false ->
  run_fcopy env src dest info r
  = Some (Some (PathError "open" dest EACCES), r).
Proof.
  intros Hq Hd Hw.
  unfold run_fcopy, fcopy, bind, call, defer, ret, filepath_Dir. simpl.
  rewrite (mkdirAll_parent _ _ _ _ Hq Hd).
  rewrite (create_existing _ _ _ _ _ Hq Hd), Hw. reflexivity.
Qed.

(** [fcopy] of a regular file onto itself. *)
Lemma fcopy_self (q : path) (name : string) (r : Node) p m data :
  q <> [] ->
  resolve env r q = inr (File p m data) ->
  may env p m 2 = true ->
  may env p m 4 = true ->
  owner_or_root env m = true ->
  run_fcopy env q q (info_of name (File p m data)) r
  = Some (None, put r q (File (Z.land p chmod_mask) (touch env m) [])).
Proof.
  intros Hq Hd Hw Hread Ho.
  pose proof (may_2_4_6 _ _ Hw Hread) as Hrw.
  pose proof (placed_existing _ _ _ Hd) as Hp.
  unfold run_fcopy, fcopy, bind, call, defer, ret, filepath_Dir. simpl.
  rewrite (mkdirAll_parent _ _ _ _ Hq Hd).
  rewrite (create_existing _ _ _ _ _ Hq Hd), Hrw. simpl.
  unfold chmod. rewrite (at_path_put _ _ _ _ _ Hp). simpl.
  change (owner_or_root env (touch env m)) with (owner_or_root env m).
  rewrite Ho. cbv beta iota.
  unfold open. rewrite (Hp _).
  rewrite mode_mask_file, may_mask.
  change (may env p (touch env m) 4) with (may env p m 4). rewrite Hread.
  unfold copy_bytes. simpl.
  rewrite (get_put_existing _ _ _ _ Hd). simpl.
  rewrite put_put. reflexivity.
Qed.

(** The attribute restoration on a file of its owner's: every call
    succeeds, and the bytes are left alone. *)
Lemma trestore_own_file (dest : path) (name : string) p m data px dx :
  owner_or_root env m = true ->
  exists p' m',
    trestore env policy dest (info_of name (File p m data))
             (File px (touch env m) dx)
    = (None, File p' m' dx).
Proof.
  intros Ho. unfold trestore.
  assert ((euid env =? 0) || (m_uid m =? euid env) = true) as Ho' by exact Ho.
  destruct (PreservePermissions policy), (PreserveOwner policy),
    (PreserveTime policy); cbn [orb andb];
    repeat (restore_steps; cbn [touch m_uid m_gid m_atime m_mtime];
            rewrite ?Ho', ?Z.eqb_refl, ?andb_true_r, ?orb_true_r;
            cbn [orb andb]);
    try (eexists; eexists; reflexivity).
Qed.

(** *** A walk that stops *)

Lemma twalk_app_clone (src dest : path) (pre rest : list (string * Node)) :
  Forall (fun e => forall s d,
            tcopy env policy s d (snd e)
            = (unsupported s (snd e), clone env policy (snd e))) pre ->
  Forall (fun e => passes policy (snd e)) pre ->
  forall acc,
    twalk policy (tcopy env policy) src dest (pre ++ rest) acc
    = twalk policy (tcopy env policy) src dest rest
        (acc ++ flat_map (fun e => match clone env policy (snd e) with
                                   | Some x => [(fst e, x)]
                                   | None => []
                                   end) pre).
Proof.
  induction 1 as [|e tl He _ IH]; intros Hpass acc.
  - simpl. rewrite app_nil_r. reflexivity.
  - inversion Hpass as [|? ? Hp Hpass']; subst.
    rewrite <- app_comm_cons, twalk_cons, He. cbv beta iota zeta. simpl flat_map.
    destruct e as [k v]. cbn [fst snd] in *.
    destruct v; cbn [unsupported clone is_UnsupportedFileTypeError andb];
      try (rewrite (IH Hpass'), <- app_assoc; reflexivity).
    + destruct Hp as [Hi|Hpl]; [|discriminate].
      rewrite Hi, (IH Hpass'), <- app_assoc. reflexivity.
    + destruct Hp as [Hi|Hpl]; [|discriminate].
      rewrite Hi, (IH Hpass'). reflexivity.
Qed.

(** *** Directories made on the way to a file *)

Lemma resolve_nest (perm : FileMode) (meta : Meta) (leaf : Node) :
  may env perm meta 1 = true ->
  forall names, resolve env (nest perm meta names leaf) names = inr leaf.
Proof.
  intros Hm. induction names as [|c rest IH]; [reflexivity|].
  cbn [nest resolve assoc]. rewrite Hm, String.eqb_refl. exact IH.
Qed.

Lemma put_nest (perm : FileMode) (meta : Meta) (c : string) (x : Node) :
  forall names,
    put (nest perm meta names (Dir perm meta [])) (names ++ [c]) x
    = nest perm meta (names ++ [c]) x.
Proof.
  induction names as [|b rest IH]; [reflexivity|].
  cbn [nest app put assoc]. rewrite String.eqb_refl.
  cbn [set_entry]. rewrite compare_refl, IH. reflexivity.
Qed.

Lemma get_nest (perm : FileMode) (meta : Meta) (leaf : Node) (r2 : path) :
  forall r1, get (nest perm meta (r1 ++ r2) leaf) r1 = Some (nest perm meta r2 leaf).
Proof.
  induction r1 as [|c r1 IH]; [reflexivity|].
  cbn [app nest get assoc]. rewrite String.eqb_refl. exact IH.
Qed.

Lemma ldiff_perm (u : Z) : Perm (Z.ldiff ModePerm u) = Z.ldiff ModePerm u.
Proof.
  unfold Perm. apply Z.bits_inj'. intros i Hi.
  rewrite Z.land_spec, Z.ldiff_spec.
  destruct (Z.testbit ModePerm i), (Z.testbit u i); reflexivity.
Qed.

Lemma mkdirAll_from_skip (dp : path) : forall (pre rest : path) perm r pm m es,
  resolve env r (pre ++ dp) = inr (Dir pm m es) ->
  mkdirAll_from env pre (dp ++ rest) perm r
  = mkdirAll_from env (pre ++ dp) rest perm r.
Proof.
  induction dp as [|a dp IH]; intros pre rest perm r pm m es Hr.
  - rewrite app_nil_r. reflexivity.
  - cbn [app mkdirAll_from].
    replace (pre ++ a :: dp) with ((pre ++ [a]) ++ dp) in *
      by (rewrite <- app_assoc; reflexivity).
    unfold ensure_dir.
    pose proof Hr as Hr'. rewrite resolve_app in Hr'.
    destruct (resolve env r (pre ++ [a])) as [e|n] eqn:En; [discriminate|].
    destruct (resolve_dir_inv _ _ _ _ _ Hr') as (pm' & m' & es' & ->).
    apply (IH _ _ _ _ _ _ _ Hr).
Qed.

Lemma mkdirAll_from_chain (perm : FileMode) (rest : path) :
  may env (Z.ldiff (Z.land perm chmod_mask) (umask env)) (fresh env) 3 = true ->
  forall (pre : path) (a : string) (r : Node),
    dest_ready env r pre a ->
    mkdirAll_from env pre (a :: rest) perm r
    = (None,
       put r (pre ++ [a])
           (nest (Z.ldiff (Z.land perm chmod_mask) (umask env)) (fresh env) rest
                 (Dir (Z.ldiff (Z.land perm chmod_mask) (umask env))
                      (fresh env) []))).
Proof.
  intros Hm. induction rest as [|b rest IH]; intros pre a r Hd.
  - pose proof (mkdirAll_from_new [] pre a perm r) as H.
    rewrite app_nil_r in H. apply H, Hd.
  - cbn [mkdirAll_from]. cbn [mkdirAll_from] in IH.
    pose proof (placed_snoc _ _ _ Hd) as Hp.
    destruct Hd as (pm & m & es & Hr & Hw & Ha).
    unfold ensure_dir at 1.
    rewrite (resolve_snoc _ _ _ _ _ _ Hr (may_3_1 _ _ Hw)), Ha.
    rewrite mkdir_new by (exists pm, m, es; auto).
    rewrite IH.
    + f_equal.
      rewrite (put_app (pre ++ [a]) [b] _ _ _
                 (get_put_new pre a r _ pm m es (resolve_get _ _ _ Hr))).
      rewrite put_put. reflexivity.
    + eexists. eexists. eexists. split; [apply Hp|]. split; [exact Hm|reflexivity].
Qed.

Lemma mkdirAll_chain (perm : FileMode) (dp : path) (a : string) (rest : path)
      (r : Node) :
  may env (Z.ldiff (Z.land perm chmod_mask) (umask env)) (fresh env) 3 = true ->
  dest_ready env r dp a ->
  mkdirAll env (dp ++ a :: rest) perm r
  = (None,
     put r (dp ++ [a])
         (nest (Z.ldiff (Z.land perm chmod_mask) (umask env)) (fresh env) rest
               (Dir (Z.ldiff (Z.land perm chmod_mask) (umask env))
                    (fresh env) []))).
Proof.
  intros Hm Hd. pose proof Hd as (pm & m & es & Hr & Hw & Ha).
  unfold mkdirAll. rewrite resolve_app, Hr. cbn [resolve].
  rewrite (may_3_1 _ _ Hw), Ha.
  rewrite (mkdirAll_from_skip dp [] (a :: rest) perm r pm m es Hr).
  apply (mkdirAll_from_chain perm rest Hm), Hd.
Qed.

Lemma fcopy_after_mkdirAll (src dest : path) (info : FileInfo) (r r1 : Node) :
  mkdirAll env (filepath_Dir dest) ModePerm r = (None, r1) ->
  mkdirAll env (filepath_Dir dest) ModePerm r1 = (None, r1) ->
  run_fcopy env src dest info r = run_fcopy env src dest info r1.
Proof.
  intros H H1. unfold run_fcopy, fcopy.
  erewrite bind_call; [|exact H]. symmetry.
  erewrite bind_call; [|exact H1]. reflexivity.
Qed.

Lemma fcopy_makes_dirs (src dp : path) (a : string) (rest : path) (c : string)
      (info : FileInfo) (r : Node) p m data :
  may env (Z.ldiff ModePerm (umask env)) (fresh env) 3 = true ->
  dest_ready env r dp a ->
  resolve env r src = inr (File p m data) ->
  may env p m 4 = true ->
  diverge src (dp ++ [a]) = true ->
  run_fcopy env src (dp ++ a :: rest ++ [c]) info r
  = Some (None,
          put r (dp ++ [a])
              (nest (Z.ldiff ModePerm (umask env)) (fresh env) (rest ++ [c])
                    (File (Z.land (Mode info) chmod_mask) (fresh env) data))).
Proof.
  intros Hm Hd Hs Hread Hdiv.
  pose proof Hd as (pm & dm & es & Hr & Hw & Ha).
  set (perm' := Z.ldiff ModePerm (umask env)) in *.
  set (r1 := put r (dp ++ [a]) (nest perm' (fresh env) rest
                                     (Dir perm' (fresh env) []))).
  assert (dp ++ a :: rest ++ [c] = ((dp ++ [a]) ++ rest) ++ [c]) as Hpath
    by (rewrite <- !app_assoc; reflexivity).
  assert (resolve env r1 ((dp ++ [a]) ++ rest) = inr (Dir perm' (fresh env) []))
    as Hr1.
  { unfold r1. rewrite (resolve_put_snoc _ _ _ _ _ _ _ _ Hr (may_3_1 _ _ Hw)).
    apply resolve_nest, may_3_1, Hm. }
  assert (dest_ready env r1 ((dp ++ [a]) ++ rest) c) as Hd1.
  { exists perm', (fresh env), []. split; [exact Hr1|]. split; [exact Hm|reflexivity]. }
  rewrite Hpath.
  rewrite (fcopy_after_mkdirAll src _ info r r1).
  - rewrite (fcopy_new src _ c info r1 p m data Hd1).
    + f_equal. f_equal. unfold r1.
      rewrite <- app_assoc.
      rewrite (put_app (dp ++ [a]) (rest ++ [c]) _ _ _
                 (get_put_new dp a r _ pm dm es (resolve_get _ _ _ Hr))).
      rewrite put_put, put_nest. reflexivity.
    + unfold r1. rewrite (resolve_put_diverge _ _ _ _ Hdiv). exact Hs.
    + exact Hread.
    + rewrite <- app_assoc.
      pose proof (diverge_app src (dp ++ [a]) [] (rest ++ [c]) Hdiv) as H.
      rewrite app_nil_r in H. exact H.
  - unfold filepath_Dir. rewrite removelast_last.
    replace ((dp ++ [a]) ++ rest) with (dp ++ a :: rest)
      by (rewrite <- app_assoc; reflexivity).
    apply (mkdirAll_chain ModePerm dp a rest r Hm Hd).
  - unfold filepath_Dir. rewrite removelast_last.
    apply (mkdirAll_existing _ _ _ _ _ _ Hr1).
Qed.

(** *** A source that cannot be opened *)

Lemma open_put_diverge (src dest : path) (r x : Node) :
  diverge src dest = true ->
  fst (open env src (put r dest x)) = fst (open env src r).
Proof.
  intros Hdiv. unfold open. rewrite (resolve_put_diverge _ _ _ _ Hdiv).
  destruct (resolve env r src) as [e|[pp mm dd|pp mm ee|mm tt|kk pp mm]];
    try reflexivity; destruct (may env pp mm 4); reflexivity.
Qed.

Lemma open_state (src : path) (r : Node) : snd (open env src r) = r.
Proof.
  unfold open.
  destruct (resolve env r src) as [e|[pp mm dd|pp mm ee|mm tt|kk pp mm]];
    try reflexivity; destruct (may env pp mm 4); reflexivity.
Qed.

Lemma fcopy_no_source (src dp : path) (c : string) (info : FileInfo) (r : Node)
      (e : error) :
  dest_ready env r dp c ->
  fst (open env src r) = Err e ->
  diverge src (dp ++ [c]) = true ->
  run_fcopy env src (dp ++ [c]) info r
  = Some (Some e, put r (dp ++ [c])
                      (File (Z.land (Mode info) chmod_mask) (fresh env) [])).
Proof.
  intros Hd Ho Hdiv.
  pose proof (placed_snoc _ _ _ Hd) as Hp.
  destruct Hd as (pm & dm & es & Hr & Hm & Ha).
  assert (dest_ready env r dp c) as Hd by (exists pm, dm, es; auto).
  unfold run_fcopy, fcopy, bind, call, defer, ret, filepath_Dir. simpl.
  rewrite removelast_last, (mkdirAll_existing _ _ _ _ _ _ Hr).
  rewrite (create_new _ _ _ Hd). simpl.
  unfold chmod. rewrite (at_path_put _ _ _ _ _ Hp). simpl.
  unfold owner_or_root at 1. simpl. rewrite Z.eqb_refl, orb_true_r.
  match goal with
  | |- context [open env src ?s] =>
      pose proof (open_put_diverge src (dp ++ [c]) r
                    (File (Z.land (Mode info) chmod_mask) (fresh env) []) Hdiv) as H1;
      pose proof (open_state src s) as H2;
      destruct (open env src s) as [a w'] eqn:Eo
  end.
  cbn [fst snd] in H1, H2. rewrite Ho in H1. subst a w'. reflexivity.
Qed.

(** *** An owner that cannot be restored *)


(** *** A destination directory that may not be written *)

Lemma fcopy_unwritable_dir (src dp : path) (c : string) (info : FileInfo)
      (r : Node) pm dm es :
  resolve env r dp = inr (Dir pm dm es) ->
  may env pm dm 1 = true ->
  may env pm dm 3 = false ->
  assoc c es = None ->
  run_fcopy env src (dp ++ [c]) info r
  = Some (Some (PathError "open" (dp ++ [c]) EACCES), r).
Proof.
  intros Hr Hx Hw Ha.
  unfold run_fcopy, fcopy, bind, call, defer, ret, filepath_Dir. simpl.
  rewrite removelast_last, (mkdirAll_existing _ _ _ _ _ _ Hr).
  unfold create. rewrite snoc_match, (locate_snoc _ _ _ _ _ _ Hr Hx), Ha, Hw.
  reflexivity.
Qed.

Lemma mkdirAll_unwritable_dir (dp : path) (c : string) (perm : FileMode)
      (r : Node) pm dm es :
  resolve env r dp = inr (Dir pm dm es) ->
  may env pm dm 1 = true ->
  may env pm dm 3 = false ->
  assoc c es = None ->
  mkdirAll env (dp ++ [c]) perm r
  = (Some (PathError "mkdir" (dp ++ [c]) EACCES), r).
Proof.
  intros Hr Hx Hw Ha. unfold mkdirAll.
  rewrite (resolve_snoc _ _ _ _ _ _ Hr Hx), Ha.
  rewrite (mkdirAll_from_skip dp [] [c] perm r pm dm es Hr).
  cbn [app mkdirAll_from]. unfold ensure_dir.
  rewrite (resolve_snoc _ _ _ _ _ _ Hr Hx), Ha.
  unfold mkdir. rewrite snoc_match, (locate_snoc _ _ _ _ _ _ Hr Hx), Ha, Hw.
  reflexivity.
Qed.

(** *** A copy that stops at the first unsupported entry *)

Lemma first_in_none (f : Node -> option path) (es : list (string * Node)) :
  first_in f es = None -> Forall (fun e => f (snd e) = None) es.
Proof.
  induction es as [|e tl IH]; intros H; [constructor|].
  cbn [first_in] in H. destruct (f (snd e)) eqn:E; [discriminate|].
  constructor; [exact E | apply IH, H].
Qed.

Lemma first_in_split (f : Node -> option path) (es : list (string * Node))
      (q : path) :
  first_in f es = Some q ->
  exists pre name x post q1,
    es = pre ++ (name, x) :: post
    /\ q = name :: q1
    /\ f x = Some q1
    /\ Forall (fun e => f (snd e) = None) pre.
Proof.
  induction es as [|[k v] tl IH]; intros H; [discriminate|].
  cbn [first_in fst snd] in H. destruct (f v) as [q1|] eqn:E.
  - injection H as <-. exists [], k, v, tl, q1. repeat split; auto.
  - destruct (IH H) as (pre & name & x & post & q1 & -> & -> & Hx & Hpre).
    exists ((k, v) :: pre), name, x, post, q1. repeat split; auto.
Qed.

Lemma first_unsupported_plain (n : nat) : forall t,
  (height t < n)%nat -> first_unsupported t = None -> plain t = true.
Proof.
  induction n as [|n IH]; intros t Hh H; [inversion Hh|].
  destruct t as [p m data | p m cs | m target | k p m]; try discriminate;
    [reflexivity|].
  cbn [first_unsupported] in H. cbn [plain].
  apply forallb_forall. intros e Hin.
  pose proof (first_in_none _ _ H) as Hall. rewrite Forall_forall in Hall.
  apply IH; [|apply Hall, Hin].
  pose proof (height_entry e cs p m Hin). lia.
Qed.

Lemma names_sorted_app (l1 : list string) (a : string) (l2 : list string) :
  names_sorted (l1 ++ a :: l2) = true ->
  names_sorted l1 = true
  /\ (forall k, In k l1 -> String.ltb k a = true)
  /\ forallb (fun b => String.ltb a b) l2 = true.
Proof.
  induction l1 as [|x l1 IH]; cbn [app names_sorted].
  - intros H. apply andb_true_iff in H as [H _].
    split; [reflexivity|]. split; [intros k []|exact H].
  - intros H. apply andb_true_iff in H as [Hx H].
    rewrite forallb_app in Hx. apply andb_true_iff in Hx as [Hx1 Hx2].
    cbn [forallb] in Hx2. apply andb_true_iff in Hx2 as [Hxa _].
    destruct (IH H) as (Hs & Hlt & Hpost).
    repeat split.
    + rewrite Hx1, Hs. reflexivity.
    + intros k [<-|Hk]; [exact Hxa | apply Hlt, Hk].
    + exact Hpost.
Qed.

Lemma assoc_app (c : string) (l1 l2 : list (string * Node)) :
  assoc c (l1 ++ l2)
  = match assoc c l1 with Some v => Some v | None => assoc c l2 end.
Proof.
  induction l1 as [|[k v] l1 IH]; [reflexivity|].
  cbn [app assoc]. destruct (String.eqb c k); [reflexivity | exact IH].
Qed.

Lemma assoc_in_names (c : string) (l : list (string * Node)) (v : Node) :
  assoc c l = Some v -> In c (map fst l).
Proof.
  induction l as [|[k w] l IH]; [discriminate|].
  cbn [assoc map fst]. destruct (String.eqb c k) eqn:E.
  - apply String.eqb_eq in E. subst k. intros _. left. reflexivity.
  - intros H. right. apply IH, H.
Qed.

Lemma ltb_irrefl (a : string) : String.ltb a a = false.
Proof. unfold String.ltb. rewrite compare_refl. reflexivity. Qed.

Lemma ltb_asym (a b : string) : String.ltb a b = true -> String.ltb b a = false.
Proof. intros H. unfold String.ltb. rewrite (ltb_gt _ _ H). reflexivity. Qed.

(** The copy of a tree that holds an unsupported entry, with
    [IgnoreUnsupportedFileTypes] off: the error is the one of the first
    such entry, what the walk came to before is copied, and nothing the
    walk would have come to later is. *)
Lemma tcopy_abort (n : nat) : forall (t : Node) (src dest q : path),
  IgnoreUnsupportedFileTypes policy = false ->
  (height t < n)%nat ->
  sorted t = true ->
  chown_ok env policy t = true ->
  first_unsupported t = Some q ->
  exists x,
    get t q = Some x
    /\ fst (tcopy env policy src dest t)
       = Some (UnsupportedFileTypeError "" (node_mode x) (src ++ q))
    /\ (forall q' : path,
           match get t q' with
           | Some n' =>
               if walked_after q q'
               then get_opt (snd (tcopy env policy src dest t)) q' = None
               else copied_as n' (get_opt (snd (tcopy env policy src dest t)) q')
           | None => get_opt (snd (tcopy env policy src dest t)) q' = None
           end)
    /\ match t with
       | Dir p _ _ =>
           exists es',
             snd (tcopy env policy src dest t)
             = Some (Dir (Z.land p chmod_mask) (fresh env) es')
       | _ => True
       end.
Proof.
  induction n as [|n IH]; intros t src dest q Hi Hh Hs Hc Hq; [inversion Hh|].
  destruct t as [p m data | p m cs | m target | k p m]; try discriminate.
  - (* a directory *)
    cbn [first_unsupported] in Hq.
    destruct (first_in_split _ _ _ Hq)
      as (pre & name & x0 & post & q1 & -> & -> & Hx0 & Hpre).
    cbn [sorted] in Hs. apply andb_true_iff in Hs as [Hnames Hsorted].
    rewrite forallb_forall in Hsorted.
    pose proof (chown_ok_dir _ _ _ Hc) as Hcm.
    assert (forall e, In e (pre ++ (name, x0) :: post) ->
                      chown_ok env policy (snd e) = true) as Hce
      by (intros e Hin; apply (chown_ok_entry e p m _ Hc Hin)).
    assert (forall e, In e (pre ++ (name, x0) :: post) ->
                      (height (snd e) < n)%nat) as Hhe
      by (intros e Hin; pose proof (height_entry e _ p m Hin); lia).
    assert (In (name, x0) (pre ++ (name, x0) :: post)) as Hin0
      by (apply in_or_app; right; left; reflexivity).
    assert (forall e, In e pre -> In e (pre ++ (name, x0) :: post)) as Hinpre
      by (intros e Hin; apply in_or_app; left; exact Hin).
    assert (forall e, In e pre -> plain (snd e) = true) as Hplain.
    { intros e Hin. apply (first_unsupported_plain n); [apply Hhe, Hinpre, Hin|].
      rewrite Forall_forall in Hpre. apply (Hpre e Hin). }
    rewrite map_app in Hnames. cbn [map fst] in Hnames.
    destruct (names_sorted_app _ _ _ Hnames) as (Hspre & Hlt & Hgt).
    destruct (IH x0 (src ++ [name]) (dest ++ [name]) q1 Hi
                 (Hhe _ Hin0) (Hsorted _ Hin0) (Hce _ Hin0) Hx0)
      as (x & Hgx & Herr & Hget & _).
    rewrite <- app_assoc in Herr. cbn [app] in Herr.
    assert (assoc name pre = None) as Hnpre.
    { destruct (assoc name pre) as [v|] eqn:E; [|reflexivity].
      pose proof (Hlt _ (assoc_in_names _ _ _ E)) as H.
      rewrite ltb_irrefl in H. discriminate. }
    assert (assoc name (pre ++ (name, x0) :: post) = Some x0) as Hname.
    { rewrite assoc_app, Hnpre. cbn [assoc]. rewrite String.eqb_refl. reflexivity. }
    (* what [tcopy] computes *)
    assert (tcopy env policy src dest (Dir p m (pre ++ (name, x0) :: post))
            = (Some (UnsupportedFileTypeError "" (node_mode x)
                       (src ++ name :: q1)),
               Some (Dir (Z.land p chmod_mask) (fresh env)
                         (flat_map (fun e => match clone env policy (snd e) with
                                             | Some y => [(fst e, y)]
                                             | None => []
                                             end) pre
                          ++ match snd (tcopy env policy (src ++ [name])
                                          (dest ++ [name]) x0) with
                             | Some y => [(name, y)]
                             | None => []
                             end)))) as Htc.
    { rewrite tcopy_dir_eq.
      rewrite (twalk_app_clone src dest pre ((name, x0) :: post)).
      - rewrite twalk_cons. cbn [fst snd app].
        cbn [node_mode]. rewrite mode_mask_dir.
        destruct (tcopy env policy (src ++ [name]) (dest ++ [name]) x0)
          as [e0 d0].
        cbn [fst snd] in *. subst e0.
        cbn [is_UnsupportedFileTypeError andb]. rewrite Hi. cbn [andb].
        destruct d0; rewrite ?app_nil_r; reflexivity.
      - apply Forall_forall. intros e Hin s d. apply (tcopy_clone n).
        + apply Hhe, Hinpre, Hin.
        + apply Hce, Hinpre, Hin.
        + right. apply Hplain, Hin.
      - apply Forall_forall. intros e Hin. right. apply Hplain, Hin. }
    exists x. rewrite Htc. cbn [fst snd get_opt].
    split; [|split; [reflexivity|split; [|eexists; reflexivity]]].
    { cbn [get]. rewrite Hname. exact Hgx. }
    intros [|b q1'].
    { cbn [get walked_after copied_as]. eauto. }
    cbn [get walked_after].
    rewrite !assoc_app, (assoc_clone _ _ Hspre).
    destruct (String.eqb name b) eqn:Enb.
    + apply String.eqb_eq in Enb. subst b. rewrite Hnpre.
      cbn [assoc]. rewrite String.eqb_refl.
      specialize (Hget q1').
      destruct (snd (tcopy env policy (src ++ [name]) (dest ++ [name]) x0))
        as [y|]; cbn [assoc get_opt] in *.
      * rewrite String.eqb_refl. exact Hget.
      * exact Hget.
    + assert (String.eqb b name = false) as Ebn
        by (rewrite String.eqb_sym; exact Enb).
      destruct (assoc b pre) as [ch|] eqn:Eb.
      * pose proof (Hlt _ (assoc_in_names _ _ _ Eb)) as Hbn.
        rewrite (ltb_asym _ _ Hbn).
        assert (In (b, ch) pre) as Hinb.
        { clear - Eb. induction pre as [|[k v] tl IHl]; [discriminate|].
          cbn [assoc] in Eb. destruct (String.eqb b k) eqn:E.
          - apply String.eqb_eq in E. subst k. injection Eb as <-.
            left. reflexivity.
          - right. apply IHl, Eb. }
        pose proof (Hplain _ Hinb) as Hpl. cbn [snd] in Hpl.
        destruct (clone env policy ch) as [y|] eqn:Ecl.
        -- pose proof (get_clone q1' ch (Hsorted _ (Hinpre _ Hinb))) as Hgc.
           rewrite Ecl in Hgc. cbn [get_opt] in Hgc. rewrite Hgc.
           destruct (get ch q1') as [n'|]; [|reflexivity].
           apply clone_copied_as.
        -- destruct ch; discriminate.
      * cbn [assoc]. rewrite Ebn.
        assert (assoc b
                  match snd (tcopy env policy (src ++ [name]) (dest ++ [name]) x0)
                  with Some y => [(name, y)] | None => [] end = None) as ->.
        { destruct (snd (tcopy env policy (src ++ [name]) (dest ++ [name]) x0));
            cbn [assoc]; [rewrite Ebn|]; reflexivity. }
        destruct (assoc b post) as [ch|] eqn:Ep; [|reflexivity].
        destruct (get ch q1') as [n'|]; [|reflexivity].
        rewrite forallb_forall in Hgt.
        rewrite (Hgt _ (assoc_in_names _ _ _ Ep)). reflexivity.
  - (* a link *)
    cbn [first_unsupported] in Hq. injection Hq as <-.
    exists (Symlink m target). rewrite app_nil_r. cbn [tcopy fst snd get].
    split; [reflexivity|]. split; [reflexivity|]. split; [|exact I].
    intros [|b q']; cbn [get walked_after get_opt copied_as]; eauto.
  - (* a special file *)
    cbn [first_unsupported] in Hq. injection Hq as <-.
    exists (Special k p m). rewrite app_nil_r. cbn [tcopy fst snd get].
    split; [reflexivity|]. split; [reflexivity|]. split; [|exact I].
    intros [|b q']; cbn [get walked_after get_opt copied_as]; reflexivity.
Qed.

Lemma Copy_abort (n : nat) (t r : Node) (src dp : path) (c : string) (q : path) :
  IgnoreUnsupportedFileTypes policy = false ->
  chown_ok env policy t = true ->
  (height t < n)%nat ->
  sorted t = true ->
  readable env t = true ->
  first_unsupported t = Some q ->
  resolve env r src = inr t ->
  diverge src (dp ++ [c]) = true ->
  dest_ready env r dp c ->
  exists x,
    get t q = Some x
    /\ run_Copy env policy n src (dp ++ [c]) r
       = Some (Some (UnsupportedFileTypeError "" (node_mode x) (src ++ q)),
               place r (dp ++ [c]) (snd (tcopy env policy src (dp ++ [c]) t)))
    /\ (forall q' : path,
           match get t q' with
           | Some n' =>
               if walked_after q q'
               then get (place r (dp ++ [c])
                           (snd (tcopy env policy src (dp ++ [c]) t)))
                        ((dp ++ [c]) ++ q') = None
               else copied_as n'
                      (get (place r (dp ++ [c])
                              (snd (tcopy env policy src (dp ++ [c]) t)))
                           ((dp ++ [c]) ++ q'))
           | None =>
               get (place r (dp ++ [c])
                      (snd (tcopy env policy src (dp ++ [c]) t)))
                   ((dp ++ [c]) ++ q') = None
           end)
    /\ match t with
       | Dir p _ _ =>
           exists es',
             snd (tcopy env policy src (dp ++ [c]) t)
             = Some (Dir (Z.land p chmod_mask) (fresh env) es')
       | _ => True
       end.
Proof.
  intros Hi Hc Hh Hs Hr Hq Hsrc Hdiv Hd.
  destruct (tcopy_abort n t src (dp ++ [c]) q Hi Hh Hs Hc Hq)
    as (x & Hgx & Herr & Hget & Hdir).
  exists x. split; [exact Hgx|]. split; [|split; [|exact Hdir]].
  - rewrite (Copy_refines_tCopy n t r src dp c Hh Hs Hr Hsrc Hdiv Hd).
    unfold tCopy.
    destruct (tcopy env policy src (dp ++ [c]) t) as [e d].
    cbn [fst snd] in *. subst e.
    cbn [is_UnsupportedFileTypeError andb]. rewrite Hi. reflexivity.
  - intros q'. rewrite (get_place dp c q' r _ Hd). apply Hget.
Qed.
End Refinement.
End WithPolicy.
End Env.
End TreeFacts.

Import TreeFS Tree.

(* ================================================================= *)
(** ** The properties of the package *)

(** *** The attribute restoration *)

(** C9.  Whatever the operating system answers, the attribute restoration
    makes exactly the calls its flags enable ([Chmod], [Lchown], [Chtimes],
    in this order), each one whether or not an earlier one failed.  It
    returns [nil] when no failure was collected and otherwise one
    [FileCopyTasksError] with the destination path and the list of
    failures; with the platform data at hand each of them wraps, in order,
    the error one of the calls returned. *)
Theorem restore_attempts_every_step :
  forall (W : Type) (os : OS W) (policy : Policy) (dest : path)
         (info : FileInfo) (s : Logged W),
  exists (w' : W) (evs : list Event) (errs : list error),
    @restore _ (Logged_OS os) policy dest info s
      = Some (aggregated dest errs, (w', snd s ++ evs))
    /\ map fst evs = restore_calls policy dest info
    /\ match Sys info with
       | Some _ => map Unwrap errs = map Some (failures evs)
       | None => List.length errs
                 = (List.length (failures evs) + missing_data policy)%nat
       end.
Proof.
  intros W os [ign pp po pt] dest info [w l].
  unfold restore, restore_permissions, restore_owner, restore_time,
    restore_calls, missing_data, bind, call, ret; simpl.
  destruct pp, po, pt, (Sys info) as [st|]; simpl;
    unfold logged; simpl;
    repeat match goal with
    | |- context [os_Chmod ?a ?b ?c] => destruct (os_Chmod a b c) as [[?|] ?]; simpl
    | |- context [os_Lchown ?a ?b ?c ?d] => destruct (os_Lchown a b c d) as [[?|] ?]; simpl
    | |- context [os_Chtimes ?a ?b ?c ?d] => destruct (os_Chtimes a b c d) as [[?|] ?]; simpl
    end;
    rewrite <- ?app_assoc; simpl;
    match goal with
    | |- exists _ _ _, Some (Some (FileCopyTasksError _ ?errs), (?w1, _ ++ ?evs)) = _ /\ _ =>
        exists w1, evs, errs
    | |- exists _ _ _, Some (None, (?w1, _ ++ ?evs)) = _ /\ _ =>
        exists w1, evs, []
    | |- exists _ _ _, Some (None, (?w1, _)) = _ /\ _ =>
        exists w1, [], []; rewrite app_nil_r
    | |- exists _ _ _, Some (Some (FileCopyTasksError _ ?errs), (?w1, _)) = _ /\ _ =>
        exists w1, [], errs; rewrite app_nil_r
    end; repeat split.
Qed.

(** *** Entries that are neither files nor directories *)

(** For an entry that is neither a regular file nor a directory [copy]
    returns an [UnsupportedFileTypeError] as soon as the loop over the
    registry returns, whatever the registry holds and whatever the handler
    called returned. *)
Lemma copy_irregular (W : Type) (os : OS W) (policy : Policy)
      (hs : list (FileMode * FileCopyHandler W)) (n : nat)
      (src dest : path) (info : FileInfo) (w w' : W) (e : option error) :
  IsRegular (Mode info) = false ->
  FileInfo_IsDir info = false ->
  range_handlers hs src dest info None w = Some (e, w') ->
  copy policy hs (S n) src dest info w
  = Some (Some (UnsupportedFileTypeError "" (Mode info) src), w').
Proof.
  intros Hreg Hdir Hr. simpl. unfold bind at 1, copy_content.
  rewrite Hreg, Hdir. unfold bind at 1. rewrite Hr. reflexivity.
Qed.

(** When the content copy returns [nil], [copy] goes on with the attribute
    restoration on the destination and the descriptor, and returns what it
    returns. *)
Lemma copy_runs_restore (W : Type) (os : OS W) (policy : Policy)
      (hs : list (FileMode * FileCopyHandler W)) (n : nat)
      (src dest : path) (info : FileInfo) (w w1 : W) :
  copy_content policy hs (copy policy hs n) src dest info w = Some (None, w1) ->
  copy policy hs (S n) src dest info w = restore policy dest info w1.
Proof. intros H. simpl. unfold bind at 1. rewrite H. reflexivity. Qed.

(** The content copy of an entry that is neither a regular file nor a
    directory never returns [nil]. *)
Lemma copy_content_irregular (W : Type) (os : OS W) (policy : Policy)
      (hs : list (FileMode * FileCopyHandler W))
      (rec : path -> path -> FileInfo -> M W (option error))
      (src dest : path) (info : FileInfo) (w w1 : W) (res : option error) :
  IsRegular (Mode info) = false ->
  FileInfo_IsDir info = false ->
  copy_content policy hs rec src dest info w = Some (res, w1) ->
  res = Some (UnsupportedFileTypeError "" (Mode info) src).
Proof.
  intros Hreg Hdir. unfold copy_content. rewrite Hreg, Hdir. unfold bind.
  destruct (range_handlers hs src dest info None w) as [[e w']|]; [|discriminate].
  intros [= <- _]. reflexivity.
Qed.

(** C2.  [/home/link] is a symbolic link and the registry is the one of
    the package: the key [os.ModeSymlink] matches the mode of the entry,
    the handler [lcopy] returns [nil], and [copy] returns an
    [UnsupportedFileTypeError] all the same. *)
Theorem copy_symlink_reports_unsupported :
  let src := ["home"; "link"]%string in
  let dest := ["home"; "copy"]%string in
  let info := info_of "link" Example.link in
  (Z.land (Mode info) ModeSymlink =? 0) = false
  /\ option_map fst (run_lcopy Example.env src dest info Example.fs_link)
     = Some None
  /\ option_map fst
       (run_copy Example.env default_policy 1 src dest info Example.fs_link)
     = Some (Some (UnsupportedFileTypeError "" (Mode info) src)).
Proof. vm_compute. repeat split. Qed.

(** C3.  With every attribute to be restored, [copy] on the symbolic link
    [/home/link] makes two calls, [Readlink] and [Symlink], which both
    succeed, and returns an [UnsupportedFileTypeError]: none of the calls of
    the attribute restoration is made. *)
Theorem copy_symlink_skips_restore :
  let src := ["home"; "link"]%string in
  let dest := ["home"; "copy"]%string in
  let info := info_of "link" Example.link in
  let os := Logged_OS (TreeOS Example.env) in
  restore_calls Example.every_attribute dest info <> []
  /\ option_map (fun x => (fst x, snd (snd x)))
       (@copy _ os Example.every_attribute (@FileTypeCopyHandlers _ os) 1
              src dest info (Example.fs_link, []))
     = Some (Some (UnsupportedFileTypeError "" (Mode info) src),
             [(CReadlink src, None); (CSymlink "/etc/hosts" dest, None)]).
Proof. vm_compute. split; [discriminate | reflexivity]. Qed.

(** C1.  [/home/src] holds a regular file and a symbolic link and
    [/home/dst] does not exist: with the flags as the package sets them
    [Copy] returns an [UnsupportedFileTypeError] for the link. *)
Theorem Copy_tree_with_symlink_fails :
  option_map fst
    (run_Copy Example.env default_policy 2
              ["home"; "src"]%string ["home"; "dst"]%string Example.fs_mixed)
  = Some (Some (UnsupportedFileTypeError ""
                  (node_mode Example.link)
                  ["home"; "src"; "link"]%string)).
Proof. vm_compute. reflexivity. Qed.

(** *** Symbolic links *)

(** C4.  When the source of [Copy] is a symbolic link and the destination
    can be made (its directory is there and may be written, the name is
    free), the destination is a symbolic link with the target string of the
    source, whatever [Copy] returns and whatever the flags.  And whenever
    [lcopy] returns [nil], the link it made has the target string of the
    link it read. *)
Theorem Copy_symlink_makes_link :
  forall (env : Env),
    (forall (policy : Policy) (fuel : nat) (r : Node) (src dp : path)
            (c : string) (m : Meta) (target : string),
        resolve env r src = inr (Symlink m target) ->
        dest_ready env r dp c ->
        exists res r',
          run_Copy env policy (S fuel) src (dp ++ [c]) r = Some (res, r')
          /\ get r' (dp ++ [c]) = Some (Symlink (fresh env) target))
    /\ (forall (r r' : Node) (src dest : path) (info : FileInfo),
           run_lcopy env src dest info r = Some (None, r') ->
           exists m target,
             resolve env r src = inr (Symlink m target)
             /\ get r' dest = Some (Symlink (fresh env) target)).
Proof.
  intros env. split.
  - intros policy fuel r src dp c m target Hs Hd.
    unfold run_Copy, Copy.
    erewrite bind_call; [|exact (TreeFacts.lstat_node env src r _ Hs)].
    cbv beta iota.
    erewrite bind_eq;
      [|exact (TreeFacts.copy_symlink env policy fuel src dp c _ r m target Hs Hd)].
    cbv beta iota.
    assert (get (put r (dp ++ [c]) (Symlink (fresh env) target)) (dp ++ [c])
            = Some (Symlink (fresh env) target)) as Hg.
    { destruct Hd as (pm & dm & es & Hr & _ & _).
      apply (TreeFacts.get_put_new _ _ _ _ _ _ _
               (TreeFacts.resolve_get env _ _ _ Hr)). }
    cbn [is_UnsupportedFileTypeError].
    destruct (negb (IgnoreUnsupportedFileTypes policy));
      (eexists; eexists; split; [reflexivity | exact Hg]).
  - intros r r' src dest info. apply TreeFacts.lcopy_success.
Qed.

Lemma Copy_symlink_makes_link_witness :
  (exists res r',
      run_Copy Example.env default_policy 1
               ["home"; "link"]%string (["home"%string] ++ ["copy"%string])
               Example.fs_link = Some (res, r')
      /\ get r' (["home"%string] ++ ["copy"%string])
         = Some (Symlink (fresh Example.env) "/etc/hosts"))
  /\ (exists m target,
         resolve Example.env Example.fs_link ["home"; "link"]%string
         = inr (Symlink m target)
         /\ get Example.link_made ["home"; "copy"]%string
            = Some (Symlink (fresh Example.env) target)).
Proof.
  split.
  - apply (proj1 (Copy_symlink_makes_link Example.env)
                 default_policy 0%nat Example.fs_link ["home"; "link"]%string
                 ["home"]%string "copy"%string Example.user_meta "/etc/hosts"%string).
    + reflexivity.
    + exists 493, Example.user_meta, [("link"%string, Example.link)].
      repeat split; reflexivity.
  - apply (proj2 (Copy_symlink_makes_link Example.env)
                 Example.fs_link Example.link_made
                 ["home"; "link"]%string ["home"; "copy"]%string
                 (info_of "link" Example.link)).
    reflexivity.
Defined.

(** C10.  When the handler [lcopy] of a symbolic link returns [nil],
    [copy] returns an [UnsupportedFileTypeError] and leaves the state
    [lcopy] left, in which the destination is a symbolic link.  With
    [IgnoreUnsupportedFileTypes] off, [Copy] on a symbolic link whose
    destination can be made returns that error, and the link is there. *)
Theorem copy_symlink_error_after_link_made :
  forall (env : Env) (policy : Policy) (fuel : nat),
    (forall (r r' : Node) (src dest : path) (info : FileInfo),
        IsRegular (Mode info) = false ->
        FileInfo_IsDir info = false ->
        (Z.land (Mode info) ModeSymlink =? 0) = false ->
        run_lcopy env src dest info r = Some (None, r') ->
        run_copy env policy (S fuel) src dest info r
        = Some (Some (UnsupportedFileTypeError "" (Mode info) src), r')
        /\ exists m target, get r' dest = Some (Symlink m target))
    /\ (forall (r : Node) (src dp : path) (c : string) (m : Meta)
               (target : string),
           IgnoreUnsupportedFileTypes policy = false ->
           resolve env r src = inr (Symlink m target) ->
           dest_ready env r dp c ->
           exists e r',
             run_Copy env policy (S fuel) src (dp ++ [c]) r = Some (Some e, r')
             /\ get r' (dp ++ [c]) = Some (Symlink (fresh env) target)).
Proof.
  intros env policy fuel. split.
  - intros r r' src dest info Hreg Hdir Hbit Hl. split.
    + apply (copy_irregular Node (TreeOS env) policy _ fuel src dest info r r' None
               Hreg Hdir).
      unfold FileTypeCopyHandlers, range_handlers. rewrite Hbit. exact Hl.
    + destruct (TreeFacts.lcopy_success env _ _ _ _ _ Hl) as (m & target & _ & Hg).
      eauto.
  - intros r src dp c m target Hi Hs Hd.
    unfold run_Copy, Copy.
    erewrite bind_call; [|exact (TreeFacts.lstat_node env src r _ Hs)].
    cbv beta iota.
    erewrite bind_eq;
      [|exact (TreeFacts.copy_symlink env policy fuel src dp c _ r m target Hs Hd)].
    cbv beta iota. cbn [is_UnsupportedFileTypeError]. rewrite Hi.
    eexists. eexists. split; [reflexivity|].
    destruct Hd as (pm & dm & es & Hr & _ & _).
    apply (TreeFacts.get_put_new _ _ _ _ _ _ _
             (TreeFacts.resolve_get env _ _ _ Hr)).
Qed.

Lemma copy_symlink_error_after_link_made_witness :
  (run_copy Example.env default_policy 1
            ["home"; "link"]%string ["home"; "copy"]%string
            (info_of "link" Example.link) Example.fs_link
   = Some (Some (UnsupportedFileTypeError ""
                   (Mode (info_of "link" Example.link))
                   ["home"; "link"]%string),
           Example.link_made)
   /\ exists m target,
        get Example.link_made ["home"; "copy"]%string = Some (Symlink m target))
  /\ (exists e r',
         run_Copy Example.env default_policy 1
                  ["home"; "link"]%string (["home"%string] ++ ["copy"%string])
                  Example.fs_link = Some (Some e, r')
         /\ get r' (["home"%string] ++ ["copy"%string])
            = Some (Symlink (fresh Example.env) "/etc/hosts")).
Proof.
  split.
  - apply (proj1 (copy_symlink_error_after_link_made Example.env default_policy 0%nat)
                 Example.fs_link Example.link_made
                 ["home"; "link"]%string ["home"; "copy"]%string
                 (info_of "link" Example.link));
      reflexivity.
  - apply (proj2 (copy_symlink_error_after_link_made Example.env default_policy 0%nat)
                 Example.fs_link ["home"; "link"]%string
                 ["home"]%string "copy"%string Example.user_meta "/etc/hosts"%string).
    + reflexivity.
    + reflexivity.
    + exists 493, Example.user_meta, [("link"%string, Example.link)].
      repeat split; reflexivity.
Defined.

(** *** Modes *)

(** C5, as the code has it.  With the four flags off, a copy of a tree of
    regular files and directories the process may read, into a destination
    that is not there yet and whose directory the process may write,
    returns [nil], and every entry of the destination is of the kind of
    the entry of the source it comes from and has its nine permission bits:
    the directory made with 0755 gets the mode of the source directory
    when [dcopy] returns, and a file gets the mode of the source file right
    after it is created. *)
Theorem Copy_default_keeps_source_modes :
  forall (env : Env) (fuel : nat) (t r : Node) (src dp : path) (c : string),
    umask_ok env = true ->
    (height t < fuel)%nat ->
    sorted t = true ->
    readable env t = true ->
    plain t = true ->
    resolve env r src = inr t ->
    diverge src (dp ++ [c]) = true ->
    dest_ready env r dp c ->
    exists r',
      run_Copy env default_policy fuel src (dp ++ [c]) r = Some (None, r')
      /\ forall (q : path) (n : Node),
           get t q = Some n ->
           exists n', get r' ((dp ++ [c]) ++ q) = Some n'
                      /\ Perm (node_mode n') = Perm (node_mode n)
                      /\ IsDir (node_mode n') = IsDir (node_mode n).
Proof.
  intros env fuel t r src dp c Hu Hh Hs Hr Hpl Hsrc Hdiv Hd.
  exists (place r (dp ++ [c]) (clone env default_policy t)). split.
  - rewrite (TreeFacts.Copy_clone env default_policy Hu fuel t r src dp c
               Hh Hs Hr (TreeFacts.chown_ok_off env default_policy fuel t eq_refl Hh)
               Hsrc Hdiv Hd (or_intror Hpl)).
    destruct t; try discriminate; reflexivity.
  - intros q n Hq.
    rewrite (TreeFacts.get_place env dp c q r _ Hd).
    rewrite (TreeFacts.get_clone env default_policy q t Hs), Hq.
    destruct (TreeFacts.clone_mode env default_policy n eq_refl
                (TreeFacts.get_plain q t n Hpl Hq)) as (n' & -> & Hm).
    exists n'. rewrite Hm. auto.
Qed.

Lemma Copy_default_keeps_source_modes_witness :
  exists r',
    run_Copy Example.env default_policy 2
             ["home"; "src"]%string (["home"%string] ++ ["dst"%string])
             Example.fs_readonly = Some (None, r')
    /\ forall (q : path) (n : Node),
         get Example.readonly q = Some n ->
         exists n', get r' ((["home"%string] ++ ["dst"%string]) ++ q) = Some n'
                    /\ Perm (node_mode n') = Perm (node_mode n)
                    /\ IsDir (node_mode n') = IsDir (node_mode n).
Proof.
  apply (Copy_default_keeps_source_modes Example.env 2%nat Example.readonly
           Example.fs_readonly ["home"; "src"]%string ["home"%string] "dst"%string);
    try reflexivity.
  - simpl. lia.
  - exists 493, Example.user_meta, [("src"%string, Example.readonly)].
    repeat split; reflexivity.
Defined.

(** The claim C5 as the specification states it fails: [/home/src] has
    mode 0500 and holds a file of mode 0400; with the four flags off [Copy]
    returns [nil], the destination directory has mode 0500, not 0755, and
    the file has mode 0400, not the 0644 [os.Create] made it with. *)
Lemma Copy_default_mode_0755_counterexample :
  match run_Copy Example.env default_policy 2
                 ["home"; "src"]%string ["home"; "dst"]%string
                 Example.fs_readonly with
  | Some (None, r') =>
      option_map node_mode (get r' ["home"; "dst"]%string)
      = Some (Z.lor ModeDir 320)
      /\ Z.lor ModeDir 320 <> Z.lor ModeDir 493
      /\ option_map node_mode (get r' ["home"; "dst"; "a.txt"]%string)
         = Some 256
      /\ match create Example.env ["home"; "dst"; "a.txt"]%string
                 (put Example.fs_readonly ["home"; "dst"]%string
                      (Dir 493 (fresh Example.env) [])) with
         | (Ok _, r1) =>
             option_map node_mode (get r1 ["home"; "dst"; "a.txt"]%string)
             = Some 420
         | _ => False
         end
  | _ => False
  end.
Proof. vm_compute. repeat split; discriminate. Qed.

(** *** Unsupported entries *)

(** C6.  The source tree holds exactly one special file; the destination
    can be made, and the owner is not to be restored or can be (the process
    is root, or the files are its own).  With
    [IgnoreUnsupportedFileTypes] off, [Copy] returns the
    [UnsupportedFileTypeError] of the first entry the walk comes to that is
    neither a regular file nor a directory (the special file, or a link
    the walk comes to before it), and the copy aborts there: the
    destination holds what the walk came to before that entry, and nothing
    of what it would have come to after it.  With the flag on, [Copy]
    returns [nil] and the destination holds, at the same relative path,
    every entry of the source but the special file (a file with the same
    bytes, a directory, a link with the same target), and nothing else. *)
Theorem Copy_one_unsupported_entry :
  forall (env : Env) (policy : Policy) (fuel : nat) (t r : Node)
         (src dp : path) (c : string),
    umask_ok env = true ->
    chown_ok env policy t = true ->
    (height t < fuel)%nat ->
    sorted t = true ->
    readable env t = true ->
    count_special t = 1%nat ->
    resolve env r src = inr t ->
    diverge src (dp ++ [c]) = true ->
    dest_ready env r dp c ->
    (IgnoreUnsupportedFileTypes policy = false ->
     exists q x r',
       first_unsupported t = Some q
       /\ get t q = Some x
       /\ run_Copy env policy fuel src (dp ++ [c]) r
          = Some (Some (UnsupportedFileTypeError "" (node_mode x) (src ++ q)),
                  r')
       /\ forall q' : path,
            match get t q' with
            | Some n =>
                if walked_after q q'
                then get r' ((dp ++ [c]) ++ q') = None
                else copied_as n (get r' ((dp ++ [c]) ++ q'))
            | None => get r' ((dp ++ [c]) ++ q') = None
            end)
    /\ (IgnoreUnsupportedFileTypes policy = true ->
        exists r',
          run_Copy env policy fuel src (dp ++ [c]) r = Some (None, r')
          /\ forall q : path,
               match get t q with
               | Some n => copied_as n (get r' ((dp ++ [c]) ++ q))
               | None => get r' ((dp ++ [c]) ++ q) = None
               end).
Proof.
  intros env policy fuel t r src dp c Hu Ho Hh Hs Hr Hc Hsrc Hdiv Hd. split.
  - intros Hi.
    assert (plain t = false) as Hpl
      by (apply (TreeFacts.special_not_plain fuel t Hh); lia).
    destruct (first_unsupported t) as [q|] eqn:Hq.
    2:{ rewrite (TreeFacts.first_unsupported_plain fuel t Hh Hq) in Hpl.
        discriminate. }
    destruct (TreeFacts.Copy_abort env policy Hu fuel t r src dp c q
                Hi Ho Hh Hs Hr Hq Hsrc Hdiv Hd)
      as (x & Hgx & Hrun & Hget & _).
    exists q, x. eexists. split; [reflexivity|].
    split; [exact Hgx|]. split; [exact Hrun | exact Hget].
  - intros Hi.
    exists (place r (dp ++ [c]) (clone env policy t)). split.
    + rewrite (TreeFacts.Copy_clone env policy Hu fuel t r src dp c
                 Hh Hs Hr Ho Hsrc Hdiv Hd (or_introl Hi)).
      rewrite Hi. destruct t; reflexivity.
    + intros q. rewrite (TreeFacts.get_place env dp c q r _ Hd).
      apply (TreeFacts.clone_entries env policy t q Hs).
Qed.

Lemma Copy_one_unsupported_entry_witness :
  (exists q x r',
     first_unsupported Example.with_pipe = Some q
     /\ get Example.with_pipe q = Some x
     /\ run_Copy Example.env default_policy 2
                 ["home"; "src"]%string (["home"%string] ++ ["dst"%string])
                 Example.fs_pipe
        = Some (Some (UnsupportedFileTypeError "" (node_mode x)
                        (["home"; "src"]%string ++ q)), r')
     /\ forall q' : path,
          match get Example.with_pipe q' with
          | Some n =>
              if walked_after q q'
              then get r' ((["home"%string] ++ ["dst"%string]) ++ q') = None
              else copied_as n
                     (get r' ((["home"%string] ++ ["dst"%string]) ++ q'))
          | None => get r' ((["home"%string] ++ ["dst"%string]) ++ q') = None
          end)
  /\ (exists r',
        run_Copy Example.env Example.ignoring 2
                 ["home"; "src"]%string (["home"%string] ++ ["dst"%string])
                 Example.fs_pipe = Some (None, r')
        /\ forall q : path,
             match get Example.with_pipe q with
             | Some n =>
                 copied_as n (get r' ((["home"%string] ++ ["dst"%string]) ++ q))
             | None => get r' ((["home"%string] ++ ["dst"%string]) ++ q) = None
             end).
Proof.
  assert (dest_ready Example.env Example.fs_pipe ["home"%string] "dst"%string) as Hd.
  { exists 493, Example.user_meta, [("src"%string, Example.with_pipe)].
    repeat split; reflexivity. }
  split.
  - apply (proj1 (Copy_one_unsupported_entry Example.env default_policy 2%nat
                    Example.with_pipe Example.fs_pipe ["home"; "src"]%string
                    ["home"%string] "dst"%string
                    eq_refl eq_refl (le_n 2) eq_refl eq_refl eq_refl eq_refl eq_refl Hd)).
    reflexivity.
  - apply (proj2 (Copy_one_unsupported_entry Example.env Example.ignoring 2%nat
                    Example.with_pipe Example.fs_pipe ["home"; "src"]%string
                    ["home"%string] "dst"%string
                    eq_refl eq_refl (le_n 2) eq_refl eq_refl eq_refl eq_refl eq_refl Hd)).
    reflexivity.
Defined.

(** *** The walk over a directory *)

Lemma walk_app (W : Type) (policy : Policy)
      (rec : path -> path -> FileInfo -> M W (option error))
      (srcdir destdir : path) (pre rest : list FileInfo) (w : W) :
  walk policy rec srcdir destdir (pre ++ rest) w
  = match walk policy rec srcdir destdir pre w with
    | Some (None, w0) => walk policy rec srcdir destdir rest w0
    | other => other
    end.
Proof.
  revert w. induction pre as [|content pre IH]; intros w; simpl.
  - reflexivity.
  - unfold bind.
    destruct (rec (filepath_Join srcdir (Name content))
                  (filepath_Join destdir (Name content)) content w)
      as [[[err|] w1]|]; [| apply IH | reflexivity].
    destruct (is_UnsupportedFileTypeError err); [|reflexivity].
    destruct (negb (IgnoreUnsupportedFileTypes policy)); [reflexivity | apply IH].
Qed.

(** C8.  In the loop of [dcopy], once the earlier entries are done, an
    error of the copy of an entry is passed over exactly when it is an
    [UnsupportedFileTypeError] and [IgnoreUnsupportedFileTypes] is on: the
    loop goes on with the next entries.  Any other error is returned at
    once with the world as the failed copy left it, whatever entries come
    after and whatever the world is (a log of the calls, say): no further
    call is made.  And on
    the file-system tree neither [copy] nor [dcopy] ever removes an entry:
    what the earlier entries made is still there. *)
Theorem walk_child_error_policy :
  (forall (W : Type) (policy : Policy)
          (rec : path -> path -> FileInfo -> M W (option error))
          (srcdir destdir : path) (pre : list FileInfo) (content : FileInfo)
          (post : list FileInfo) (w w0 w1 : W) (err : error),
      walk policy rec srcdir destdir pre w = Some (None, w0) ->
      rec (filepath_Join srcdir (Name content))
          (filepath_Join destdir (Name content)) content w0
      = Some (Some err, w1) ->
      walk policy rec srcdir destdir (pre ++ content :: post) w
      = if is_UnsupportedFileTypeError err && IgnoreUnsupportedFileTypes policy
        then walk policy rec srcdir destdir post w1
        else Some (Some err, w1))
  /\ (forall (env : Env) (policy : Policy) (fuel : nat) (src dest : path)
             (info : FileInfo) (r r' : Node) (res : option error),
         run_copy env policy fuel src dest info r = Some (res, r') ->
         keeps r r')
  /\ (forall (env : Env) (policy : Policy) (fuel : nat) (srcdir destdir : path)
             (info : FileInfo) (r r' : Node) (res : option error),
         run_dcopy env policy fuel srcdir destdir info r = Some (res, r') ->
         keeps r r').
Proof.
  split; [|split].
  - intros W policy rec srcdir destdir pre content post w w0 w1 err Hpre Hrec.
    rewrite walk_app, Hpre. simpl. unfold bind. rewrite Hrec.
    destruct (is_UnsupportedFileTypeError err); [|reflexivity].
    destruct (IgnoreUnsupportedFileTypes policy); reflexivity.
  - intros env policy fuel src dest info r r' res H.
    exact (TreeFacts.mono_copy env policy fuel src dest info r res r' H).
  - intros env policy fuel srcdir destdir info r r' res H.
    exact (TreeFacts.mono_dcopy env policy fuel srcdir destdir info r res r' H).
Qed.

Lemma walk_child_error_policy_witness :
  keeps Example.started Example.first_done
  /\ keeps Example.fs_readonly (fst Example.after_dcopy)
  /\ walk default_policy (run_copy Example.env default_policy 1)
       ["home"; "src"]%string ["home"; "dst"]%string
       ([info_of "a.txt" (File 420 Example.user_meta Example.hello)]
          ++ info_of "fifo" (Special NamedPipe 420 Example.user_meta)
          :: [info_of "z.txt" (File 384 Example.user_meta [])])
       Example.started
  = Some (Some (UnsupportedFileTypeError ""
                  (node_mode (Special NamedPipe 420 Example.user_meta))
                  ["home"; "src"; "fifo"]%string),
          Example.first_done).
Proof.
  split; [|split].
  { apply (proj1 (proj2 walk_child_error_policy) Example.env default_policy 1%nat
                 ["home"; "src"; "a.txt"]%string ["home"; "dst"; "a.txt"]%string
                 (info_of "a.txt" (File 420 Example.user_meta Example.hello))
                 Example.started Example.first_done None).
    vm_compute. reflexivity. }
  { apply (proj2 (proj2 walk_child_error_policy) Example.env default_policy 1%nat
                 ["home"; "src"]%string ["home"; "dst"]%string
                 (info_of "src" Example.readonly)
                 Example.fs_readonly (fst Example.after_dcopy) None).
    vm_compute. reflexivity. }
  refine (proj1 walk_child_error_policy Node default_policy
                (run_copy Example.env default_policy 1)
                ["home"; "src"]%string ["home"; "dst"]%string
                [info_of "a.txt" (File 420 Example.user_meta Example.hello)]
                (info_of "fifo" (Special NamedPipe 420 Example.user_meta))
                [info_of "z.txt" (File 384 Example.user_meta [])]
                Example.started Example.first_done Example.first_done
                (UnsupportedFileTypeError ""
                   (node_mode (Special NamedPipe 420 Example.user_meta))
                   ["home"; "src"; "fifo"]%string) _ _).
  - vm_compute. reflexivity.
  - vm_compute. reflexivity.
Defined.

(** *** A source directory that cannot be written *)





(* ================================================================= *)
(** ** More properties of the code *)

(** *** What the functions call, on every operating system *)

(** X1.  When [Lstat] of the source fails, [Copy] returns that error and
    makes no other call, whatever the flags, the registry and the
    destination. *)
Theorem Copy_lstat_failure :
  forall (W : Type) (os : OS W) (policy : Policy)
         (hs : list (FileMode * FileCopyHandler (Logged W))) (fuel : nat)
         (src dest : path) (s : Logged W) (e : error) (w' : W),
    os_Lstat src (fst s) = (Err e, w') ->
    @Copy _ (Logged_OS os) policy hs fuel src dest s
    = Some (Some e, (w', snd s ++ [(CLstat src, Some e)])).
Proof.
  intros W os policy hs fuel src dest s e w' H.
  unfold Copy, bind, call. cbn [os_Lstat Logged_OS]. unfold logged.
  rewrite H. reflexivity.
Qed.

Lemma Copy_lstat_failure_witness :
  @Copy _ (Logged_OS (TreeOS Example.env)) default_policy
        (@FileTypeCopyHandlers _ (Logged_OS (TreeOS Example.env))) 0
        ["home"; "missing"]%string ["home"; "dst"]%string (Example.fs_link, [])
  = Some (Some (PathError "lstat" ["home"; "missing"]%string ENOENT),
          (Example.fs_link,
           [] ++ [(CLstat ["home"; "missing"]%string,
                   Some (PathError "lstat" ["home"; "missing"]%string ENOENT))])).
Proof.
  apply (Copy_lstat_failure Node (TreeOS Example.env) default_policy
           (@FileTypeCopyHandlers _ (Logged_OS (TreeOS Example.env))) 0%nat
           ["home"; "missing"]%string ["home"; "dst"]%string (Example.fs_link, [])
           (PathError "lstat" ["home"; "missing"]%string ENOENT) Example.fs_link).
  reflexivity.
Defined.

(** X2.  The calls of [fcopy], in order: [MkdirAll] of the parent of the
    destination with 0777, [Create], [Chmod] of the created file with the
    mode of the source, [Open] of the source, [io.Copy].  The first call
    that fails ends the sequence and its error is returned; a file that
    was opened is closed before [fcopy] returns on every path, the source
    before the destination, and what [Close] returns is dropped. *)
Theorem fcopy_calls :
  forall (W : Type) (os : OS W) (src dest : path) (info : FileInfo)
         (s : Logged W),
  exists (res : option error) (w' : W) (evs : list Event),
    @fcopy _ (Logged_OS os) src dest info s = Some (res, (w', snd s ++ evs))
    /\ ((exists e,
            evs = [(CMkdirAll (filepath_Dir dest) ModePerm, Some e)]
            /\ res = Some e)
        \/ (exists e,
               evs = [(CMkdirAll (filepath_Dir dest) ModePerm, None);
                      (CCreate dest, Some e)]
               /\ res = Some e)
        \/ (exists f e c1,
               evs = [(CMkdirAll (filepath_Dir dest) ModePerm, None);
                      (CCreate dest, None);
                      (CChmod (file_Name f) (Mode info), Some e);
                      (CClose f, c1)]
               /\ res = Some e)
        \/ (exists f e c1,
               evs = [(CMkdirAll (filepath_Dir dest) ModePerm, None);
                      (CCreate dest, None);
                      (CChmod (file_Name f) (Mode info), None);
                      (COpen src, Some e);
                      (CClose f, c1)]
               /\ res = Some e)
        \/ (exists f fs c1 c2,
               evs = [(CMkdirAll (filepath_Dir dest) ModePerm, None);
                      (CCreate dest, None);
                      (CChmod (file_Name f) (Mode info), None);
                      (COpen src, None);
                      (CCopy f fs, res);
                      (CClose fs, c1);
                      (CClose f, c2)])).
Proof.
  intros W os src dest info [w l].
  unfold fcopy, bind, call, defer, ret.
  cbn [os_MkdirAll os_Create os_Chmod os_Open io_Copy file_Close Logged_OS].
  unfold logged. cbn [fst snd].
  destruct (os_MkdirAll (filepath_Dir dest) ModePerm w) as [[e|] w1]; cbn.
  { eexists. eexists. eexists. split; [reflexivity|].
    left. exists e. split; reflexivity. }
  destruct (os_Create dest w1) as [[f|e] w2]; cbn.
  2:{ eexists. eexists. eexists. split; [rewrite <- app_assoc; reflexivity|].
      right. left. exists e. split; reflexivity. }
  destruct (os_Chmod (file_Name f) (Mode info) w2) as [[e|] w3]; cbn.
  { destruct (file_Close f w3) as [c1 w4]; cbn.
    eexists. eexists. eexists. split; [rewrite <- !app_assoc; reflexivity|].
    right. right. left. exists f, e, c1. split; reflexivity. }
  destruct (os_Open src w3) as [[fs|e] w4]; cbn.
  2:{ destruct (file_Close f w4) as [c1 w5]; cbn.
      eexists. eexists. eexists. split; [rewrite <- !app_assoc; reflexivity|].
      right. right. right. left. exists f, e, c1. split; reflexivity. }
  destruct (io_Copy f fs w4) as [[n ce] w5]; cbn.
  destruct (file_Close fs w5) as [c1 w6]; cbn.
  destruct (file_Close f w6) as [c2 w7]; cbn.
  eexists. eexists. eexists. split; [rewrite <- !app_assoc; reflexivity|].
  right. right. right. right. exists f, fs, c1, c2. reflexivity.
Qed.

(** X3.  When [MkdirAll] of the destination fails, [dcopy] returns its
    error and makes no other call: the source is not read and the mode of
    the destination is left alone.  When [ReadDir] of the source fails,
    [dcopy] returns its error after the deferred [Chmod] of the
    destination, and copies nothing. *)
Theorem dcopy_early_failure :
  forall (W : Type) (os : OS W) (policy : Policy)
         (rec : path -> path -> FileInfo -> M (Logged W) (option error))
         (srcdir destdir : path) (info : FileInfo) (s : Logged W),
    (forall e w1,
        os_MkdirAll destdir tmpPermissionForDirectory (fst s) = (Some e, w1) ->
        @dcopy_with _ (Logged_OS os) policy rec srcdir destdir info s
        = Some (Some e,
                (w1, snd s ++ [(CMkdirAll destdir tmpPermissionForDirectory,
                                Some e)])))
    /\ (forall e w1 w2,
           os_MkdirAll destdir tmpPermissionForDirectory (fst s) = (None, w1) ->
           ioutil_ReadDir srcdir w1 = (Err e, w2) ->
           @dcopy_with _ (Logged_OS os) policy rec srcdir destdir info s
           = Some (Some e,
                   (snd (os_Chmod destdir (Mode info) w2),
                    snd s ++ [(CMkdirAll destdir tmpPermissionForDirectory, None);
                              (CReadDir srcdir, Some e);
                              (CChmod destdir (Mode info),
                               fst (os_Chmod destdir (Mode info) w2))]))).
Proof.
  intros W os policy rec srcdir destdir info [w l]. split.
  - intros e w1 H. unfold dcopy_with, bind, call.
    cbn [os_MkdirAll Logged_OS]. unfold logged. cbn [fst snd] in *.
    rewrite H. reflexivity.
  - intros e w1 w2 H1 H2. unfold dcopy_with, bind, call, defer.
    cbn [os_MkdirAll ioutil_ReadDir os_Chmod Logged_OS]. unfold logged.
    cbn [fst snd] in *. rewrite H1. cbn. rewrite H2. cbn.
    destruct (os_Chmod destdir (Mode info) w2) as [c w3]. cbn.
    rewrite <- !app_assoc. reflexivity.
Qed.

Lemma dcopy_early_failure_witness :
  @dcopy_with _ (Logged_OS (TreeOS Example.env)) default_policy
     (fun _ _ _ => ret None)
     ["home"; "src"]%string ["home"; "src"; "a.txt"; "x"]%string
     (info_of "src" Example.readonly) (Example.fs_readonly, [])
  = Some (Some (PathError "mkdir" ["home"; "src"; "a.txt"]%string ENOTDIR),
          (Example.fs_readonly,
           [] ++ [(CMkdirAll ["home"; "src"; "a.txt"; "x"]%string
                             tmpPermissionForDirectory,
                   Some (PathError "mkdir" ["home"; "src"; "a.txt"]%string
                                   ENOTDIR))]))
  /\ option_map fst
       (@dcopy_with _ (Logged_OS (TreeOS Example.env)) default_policy
          (fun _ _ _ => ret None)
          ["home"; "src"; "a.txt"]%string ["home"; "dst"]%string
          (info_of "src" Example.readonly) (Example.fs_readonly, []))
     = Some (Some (PathError "readdirent" ["home"; "src"; "a.txt"]%string
                             ENOTDIR)).
Proof.
  split.
  - apply (proj1 (dcopy_early_failure Node (TreeOS Example.env) default_policy
                    (fun _ _ _ => ret None)
                    ["home"; "src"]%string ["home"; "src"; "a.txt"; "x"]%string
                    (info_of "src" Example.readonly) (Example.fs_readonly, []))).
    reflexivity.
  - rewrite (proj2 (dcopy_early_failure Node (TreeOS Example.env) default_policy
                      (fun _ _ _ => ret None)
                      ["home"; "src"; "a.txt"]%string ["home"; "dst"]%string
                      (info_of "src" Example.readonly) (Example.fs_readonly, []))
                   (PathError "readdirent" ["home"; "src"; "a.txt"]%string ENOTDIR)
                   Example.started_readonly Example.started_readonly);
      reflexivity.
Defined.

(** X4.  For an entry that is neither a regular file nor a directory,
    [copy] calls exactly one handler, the first of the registry whose key
    shares a bit with the mode of the entry, and none when no key does.
    Whatever the handler returned, [copy] returns an
    [UnsupportedFileTypeError] with the path of the source, and the world
    is as the handler left it: no attribute is restored. *)
Theorem copy_irregular_first_handler :
  forall (W : Type) (os : OS W) (policy : Policy)
         (hs : list (FileMode * FileCopyHandler W)) (fuel : nat)
         (src dest : path) (info : FileInfo) (w : W),
    IsRegular (Mode info) = false ->
    FileInfo_IsDir info = false ->
    copy policy hs (S fuel) src dest info w
    = match find (fun kh => negb (Z.land (Mode info) (fst kh) =? 0)) hs with
      | Some (_, handler) =>
          match handler src dest info w with
          | Some (_, w') =>
              Some (Some (UnsupportedFileTypeError "" (Mode info) src), w')
          | None => None
          end
      | None => Some (Some (UnsupportedFileTypeError "" (Mode info) src), w)
      end.
Proof.
  intros W os policy hs fuel src dest info w Hreg Hdir.
  assert (range_handlers hs src dest info None w
          = match find (fun kh => negb (Z.land (Mode info) (fst kh) =? 0)) hs with
            | Some (_, handler) => handler src dest info w
            | None => Some (None, w)
            end) as Hr.
  { induction hs as [|[k h] tl IH]; [reflexivity|].
    cbn [range_handlers find fst].
    destruct (negb (Z.land (Mode info) k =? 0)); [reflexivity | exact IH]. }
  destruct (find (fun kh => negb (Z.land (Mode info) (fst kh) =? 0)) hs)
    as [[k h]|].
  - destruct (h src dest info w) as [[e w']|] eqn:Eh.
    + apply (copy_irregular W os policy hs fuel src dest info w w' e Hreg Hdir Hr).
    + simpl. unfold bind at 1, copy_content. rewrite Hreg, Hdir.
      unfold bind at 1. rewrite Hr. reflexivity.
  - apply (copy_irregular W os policy hs fuel src dest info w w None Hreg Hdir Hr).
Qed.

Lemma copy_irregular_first_handler_witness :
  @copy Node (TreeOS Example.env) default_policy
       [(ModeNamedPipe, fun _ _ _ => ret None);
        (ModeSymlink, @lcopy Node (TreeOS Example.env));
        (ModeSymlink, fun _ _ _ => ret None)]
       1 ["home"; "link"]%string ["home"; "copy"]%string
       (info_of "link" Example.link) Example.fs_link
  = Some (Some (UnsupportedFileTypeError ""
                  (Mode (info_of "link" Example.link)) ["home"; "link"]%string),
          Example.link_made).
Proof.
  rewrite (copy_irregular_first_handler Node (TreeOS Example.env) default_policy
             [(ModeNamedPipe, fun _ _ _ => ret None);
              (ModeSymlink, @lcopy Node (TreeOS Example.env));
              (ModeSymlink, fun _ _ _ => ret None)]
             0%nat ["home"; "link"]%string ["home"; "copy"]%string
             (info_of "link" Example.link) Example.fs_link);
    reflexivity.
Defined.

(** *** Copies on the file-system tree *)



(** X6.  [lcopy] that returns an error has changed nothing, and the error
    is the one of [os.Readlink] on the source or the one of [os.Symlink]
    on the target read and the destination. *)
Theorem lcopy_failure_changes_nothing :
  forall (env : Env) (src dest : path) (info : FileInfo) (r r' : Node)
         (e : error),
    run_lcopy env src dest info r = Some (Some e, r') ->
    r' = r
    /\ ((exists en, e = PathError "readlink" src en)
        \/ (exists m target en,
               resolve env r src = inr (Symlink m target)
               /\ e = LinkError "symlink" target dest en)).
Proof.
  intros env src dest info r r' e.
  unfold run_lcopy, lcopy, bind, call, ret. cbn [os_Readlink os_Symlink TreeOS].
  unfold readlink.
  destruct (resolve env r src) as [en|[| |m target|]] eqn:Hs;
    try (intros [= <- <-]; split; [reflexivity | left; eauto]).
  unfold symlink.
  destruct dest as [|a q].
  { intros [= <- <-]. split; [reflexivity|]. right. eauto 6. }
  destruct (locate env r (a :: q)) as [en|[[pm dm] [x|]]].
  - intros [= <- <-]. split; [reflexivity|]. right. eauto 6.
  - intros [= <- <-]. split; [reflexivity|]. right. eauto 6.
  - destruct (may env pm dm 3).
    + discriminate.
    + intros [= <- <-]. split; [reflexivity|]. right. eauto 6.
Qed.

Lemma lcopy_failure_changes_nothing_witness :
  Example.fs_mixed = Example.fs_mixed
  /\ ((exists en,
          LinkError "symlink" "/etc/hosts" ["home"; "src"]%string EEXIST
          = PathError "readlink" ["home"; "src"; "link"]%string en)
      \/ (exists m target en,
             resolve Example.env Example.fs_mixed ["home"; "src"; "link"]%string
             = inr (Symlink m target)
             /\ LinkError "symlink" "/etc/hosts" ["home"; "src"]%string EEXIST
                = LinkError "symlink" target ["home"; "src"]%string en)).
Proof.
  apply (lcopy_failure_changes_nothing Example.env
           ["home"; "src"; "link"]%string ["home"; "src"]%string
           (info_of "link" Example.link) Example.fs_mixed Example.fs_mixed
           (LinkError "symlink" "/etc/hosts" ["home"; "src"]%string EEXIST)).
  reflexivity.
Defined.

(** X7.  The source is a symbolic link and the destination exists: the
    error of [os.Symlink] is lost.  [Copy] leaves everything as it was and
    returns an [UnsupportedFileTypeError] for the source, or [nil] when
    [IgnoreUnsupportedFileTypes] is on, although no link was made. *)
Theorem Copy_symlink_onto_existing :
  forall (env : Env) (policy : Policy) (fuel : nat) (r n : Node)
         (src dest : path) (m : Meta) (target : string),
    resolve env r src = inr (Symlink m target) ->
    resolve env r dest = inr n ->
    run_lcopy env src dest (info_of (last src "/"%string) (Symlink m target)) r
    = Some (Some (LinkError "symlink" target dest EEXIST), r)
    /\ run_Copy env policy (S fuel) src dest r
       = Some (if IgnoreUnsupportedFileTypes policy then None
               else Some (UnsupportedFileTypeError
                            "" (Z.lor ModeSymlink ModePerm) src),
               r).
Proof.
  intros env policy fuel r n src dest m target Hs Hn.
  assert (run_lcopy env src dest (info_of (last src "/"%string) (Symlink m target)) r
          = Some (Some (LinkError "symlink" target dest EEXIST), r)) as Hl.
  { unfold run_lcopy, lcopy.
    erewrite bind_call; [|cbn [os_Readlink TreeOS]; unfold readlink;
                          rewrite Hs; reflexivity].
    cbv beta iota. unfold call. cbn [os_Symlink TreeOS].
    rewrite (TreeFacts.symlink_existing env target dest r n Hn). reflexivity. }
  split; [exact Hl|].
  unfold run_Copy, Copy.
  erewrite bind_call; [|exact (TreeFacts.lstat_node env src r _ Hs)].
  cbv beta iota.
  erewrite bind_eq.
  2:{ apply (copy_irregular Node (TreeOS env) policy _ fuel src dest _ r r
               (Some (LinkError "symlink" target dest EEXIST)));
        [reflexivity | reflexivity |].
      exact Hl. }
  cbv beta iota. cbn [is_UnsupportedFileTypeError].
  destruct (IgnoreUnsupportedFileTypes policy); reflexivity.
Qed.

Lemma Copy_symlink_onto_existing_witness :
  run_lcopy Example.env ["home"; "src"; "link"]%string ["home"; "src"; "a.txt"]%string
            (info_of (last ["home"; "src"; "link"]%string "/"%string)
                     (Symlink Example.user_meta "/etc/hosts"))
            Example.fs_mixed
  = Some (Some (LinkError "symlink" "/etc/hosts"
                          ["home"; "src"; "a.txt"]%string EEXIST),
          Example.fs_mixed)
  /\ run_Copy Example.env Example.ignoring 1
              ["home"; "src"; "link"]%string ["home"; "src"; "a.txt"]%string
              Example.fs_mixed
     = Some (if IgnoreUnsupportedFileTypes Example.ignoring then None
             else Some (UnsupportedFileTypeError
                          "" (Z.lor ModeSymlink ModePerm)
                          ["home"; "src"; "link"]%string),
             Example.fs_mixed).
Proof.
  apply (Copy_symlink_onto_existing Example.env Example.ignoring 0%nat
           Example.fs_mixed (File 420 Example.user_meta Example.hello)
           ["home"; "src"; "link"]%string ["home"; "src"; "a.txt"]%string
           Example.user_meta "/etc/hosts"%string);
    reflexivity.
Defined.

(** X8.  When every unsupported entry is passed over (the flag
    [IgnoreUnsupportedFileTypes] is on, or the tree has regular files and
    directories only), [Copy] returns [nil] however many links and special
    files the tree holds, and the destination has, at the same relative
    path, every entry of the source but the special files: a file with the
    same bytes, a directory, a link with the same target, and nothing
    else. *)
Theorem Copy_passing_copies_every_entry :
  forall (env : Env) (policy : Policy) (fuel : nat) (t r : Node)
         (src dp : path) (c : string),
    umask_ok env = true ->
    chown_ok env policy t = true ->
    (height t < fuel)%nat ->
    sorted t = true ->
    readable env t = true ->
    passes policy t ->
    resolve env r src = inr t ->
    diverge src (dp ++ [c]) = true ->
    dest_ready env r dp c ->
    exists r',
      run_Copy env policy fuel src (dp ++ [c]) r = Some (None, r')
      /\ forall q : path,
           match get t q with
           | Some n => copied_as n (get r' ((dp ++ [c]) ++ q))
           | None => get r' ((dp ++ [c]) ++ q) = None
           end.
Proof.
  intros env policy fuel t r src dp c Hu Hc Hh Hs Hr Hp Hsrc Hdiv Hd.
  destruct (TreeFacts.Copy_clone_get env policy Hu fuel t r src dp c
              Hh Hs Hr Hc Hsrc Hdiv Hd Hp) as (r' & Hrun & Hget).
  exists r'. split; [exact Hrun|].
  intros q. rewrite Hget.
  destruct (get t q) as [n|]; [apply TreeFacts.clone_copied_as | reflexivity].
Qed.

Lemma Copy_passing_copies_every_entry_witness :
  exists r',
    run_Copy Example.env Example.ignoring 3
             ["home"]%string (["backup"%string] ++ ["home"%string])
             Example.fs_two = Some (None, r')
    /\ forall q : path,
         match get Example.two_unsupported q with
         | Some n =>
             copied_as n (get r' ((["backup"%string] ++ ["home"%string]) ++ q))
         | None => get r' ((["backup"%string] ++ ["home"%string]) ++ q) = None
         end.
Proof.
  apply (Copy_passing_copies_every_entry Example.env Example.ignoring 3%nat
           Example.two_unsupported Example.fs_two ["home"]%string
           ["backup"]%string "home"%string).
  - reflexivity.
  - reflexivity.
  - simpl. lia.
  - reflexivity.
  - reflexivity.
  - left. reflexivity.
  - reflexivity.
  - reflexivity.
  - exists 493, Example.user_meta, [].
    repeat split; reflexivity.
Defined.



(** X10.  With [PreservePermissions] on, a copied file or directory has
    the nine permission bits of its source and nothing else: the setuid,
    setgid and sticky bits of the source, which the copy has when the flag
    is off, are dropped by the [Chmod] with [info.Mode().Perm()]. *)
Theorem Copy_preserve_permissions_drops_special_bits :
  forall (env : Env) (policy : Policy) (fuel : nat) (t r : Node)
         (src dp : path) (c : string),
    PreservePermissions policy = true ->
    umask_ok env = true ->
    chown_ok env policy t = true ->
    (height t < fuel)%nat ->
    sorted t = true ->
    readable env t = true ->
    passes policy t ->
    resolve env r src = inr t ->
    diverge src (dp ++ [c]) = true ->
    dest_ready env r dp c ->
    exists r',
      run_Copy env policy fuel src (dp ++ [c]) r = Some (None, r')
      /\ forall (q : path) (n : Node),
           get t q = Some n ->
           match n with
           | File _ _ _ =>
               option_map node_mode (get r' ((dp ++ [c]) ++ q))
               = Some (Perm (node_mode n))
           | Dir _ _ _ =>
               option_map node_mode (get r' ((dp ++ [c]) ++ q))
               = Some (Z.lor ModeDir (Perm (node_mode n)))
           | _ => True
           end.
Proof.
  intros env policy fuel t r src dp c Hpp Hu Hc Hh Hs Hr Hp Hsrc Hdiv Hd.
  destruct (TreeFacts.Copy_clone_get env policy Hu fuel t r src dp c
              Hh Hs Hr Hc Hsrc Hdiv Hd Hp) as (r' & Hrun & Hget).
  exists r'. split; [exact Hrun|].
  intros q n Hq. rewrite Hget, Hq.
  apply (TreeFacts.clone_mode_perm env policy n Hpp).
Qed.

Lemma Copy_preserve_permissions_drops_special_bits_witness :
  exists r',
    run_Copy Example.env Example.every_attribute 2
             ["home"; "shared"]%string (["home"%string] ++ ["dst"%string])
             Example.fs_setgid = Some (None, r')
    /\ forall (q : path) (n : Node),
         get Example.setgid_dir q = Some n ->
         match n with
         | File _ _ _ =>
             option_map node_mode
               (get r' ((["home"%string] ++ ["dst"%string]) ++ q))
             = Some (Perm (node_mode n))
         | Dir _ _ _ =>
             option_map node_mode
               (get r' ((["home"%string] ++ ["dst"%string]) ++ q))
             = Some (Z.lor ModeDir (Perm (node_mode n)))
         | _ => True
         end.
Proof.
  apply (Copy_preserve_permissions_drops_special_bits Example.env
           Example.every_attribute 2%nat
           Example.setgid_dir Example.fs_setgid ["home"; "shared"]%string
           ["home"]%string "dst"%string).
  - reflexivity.
  - reflexivity.
  - reflexivity.
  - simpl. lia.
  - reflexivity.
  - reflexivity.
  - right. reflexivity.
  - reflexivity.
  - reflexivity.
  - exists 493, Example.user_meta, [("shared"%string, Example.setgid_dir)].
    repeat split; reflexivity.
Defined.

(** *** A destination that is there already *)

(** X11.  [fcopy] onto a regular file that is there.  When the process
    may not open the file for reading and writing, [os.Create] fails and
    nothing is changed.  When it may, but does not own the file,
    [os.Create] has emptied the file by the time [Chmod] fails: [fcopy]
    returns the error of [Chmod], the bytes of the destination are lost
    and nothing is copied.  When it owns the file, [fcopy] returns [nil];
    the file has the bytes of the source and the permission bits of the
    descriptor, and keeps its owner. *)
Theorem fcopy_onto_existing_file :
  forall (env : Env) (src dest : path) (info : FileInfo) (r : Node)
         (p' : FileMode) (m' : Meta) (data' : list Byte.byte),
    dest <> [] ->
    resolve env r dest = inr (File p' m' data') ->
    (may env p' m' 6 = false ->
     run_fcopy env src dest info r
     = Some (Some (PathError "open" dest EACCES), r))
    /\ (may env p' m' 6 = true ->
        owner_or_root env m' = false ->
        exists r' p'',
          run_fcopy env src dest info r
          = Some (Some (PathError "chmod" dest EPERM), r')
          /\ get r' dest = Some (File p'' (touch env m') [])
          /\ Perm p'' = Perm p')
    /\ (forall (p : FileMode) (m : Meta) (data : list Byte.byte),
           may env p' m' 6 = true ->
           owner_or_root env m' = true ->
           resolve env r src = inr (File p m data) ->
           may env p m 4 = true ->
           diverge src dest = true ->
           exists r' p'',
             run_fcopy env src dest info r = Some (None, r')
             /\ get r' dest = Some (File p'' (touch env m') data)
             /\ Perm p'' = Perm (Mode info)).
Proof.
  intros env src dest info r p' m' data' Hq Hd. repeat split.
  - intros Hw. apply (TreeFacts.fcopy_read_only env src dest info r p' m' data' Hq Hd Hw).
  - intros Hw Ho. eexists. eexists. split; [|split].
    + apply (TreeFacts.fcopy_not_owner env src dest info r p' m' data' Hq Hd Hw Ho).
    + apply (TreeFacts.get_put_existing env dest r _ _ Hd).
    + reflexivity.
  - intros p m data Hw Ho Hs Hread Hdiv. eexists. eexists. split; [|split].
    + apply (TreeFacts.fcopy_existing env src dest info r p m data p' m' data'
               Hq Hd Hw Ho Hs Hread Hdiv).
    + apply (TreeFacts.get_put_existing env dest r _ _ Hd).
    + apply TreeFacts.land_mask_perm.
Qed.

Lemma fcopy_onto_existing_file_witness :
  run_fcopy Example.env ["home"; "a.txt"]%string ["home"; "ro.txt"]%string
            (info_of "a.txt" (File 420 Example.user_meta Example.hello))
            Example.fs_existing
  = Some (Some (PathError "open" ["home"; "ro.txt"]%string EACCES),
          Example.fs_existing)
  /\ (exists r' p'',
         run_fcopy Example.env ["home"; "a.txt"]%string
                   ["home"; "shared.txt"]%string
                   (info_of "a.txt" (File 420 Example.user_meta Example.hello))
                   Example.fs_existing
         = Some (Some (PathError "chmod" ["home"; "shared.txt"]%string EPERM), r')
         /\ get r' ["home"; "shared.txt"]%string
            = Some (File p'' (touch Example.env Example.root_meta) [])
         /\ Perm p'' = Perm 438)
  /\ (exists r' p'',
         run_fcopy Example.env ["home"; "a.txt"]%string ["home"; "old.txt"]%string
                   (info_of "a.txt" (File 420 Example.user_meta Example.hello))
                   Example.fs_existing
         = Some (None, r')
         /\ get r' ["home"; "old.txt"]%string
            = Some (File p'' (touch Example.env Example.user_meta) Example.hello)
         /\ Perm p''
            = Perm (Mode (info_of "a.txt"
                            (File 420 Example.user_meta Example.hello)))).
Proof.
  split; [|split].
  - apply (proj1 (fcopy_onto_existing_file Example.env
                    ["home"; "a.txt"]%string ["home"; "ro.txt"]%string
                    (info_of "a.txt" (File 420 Example.user_meta Example.hello))
                    Example.fs_existing 292 Example.user_meta [Byte.x78]
                    ltac:(discriminate) eq_refl)).
    reflexivity.
  - apply (proj1 (proj2 (fcopy_onto_existing_file Example.env
                    ["home"; "a.txt"]%string ["home"; "shared.txt"]%string
                    (info_of "a.txt" (File 420 Example.user_meta Example.hello))
                    Example.fs_existing 438 Example.root_meta [Byte.x78]
                    ltac:(discriminate) eq_refl)));
      reflexivity.
  - apply (proj2 (proj2 (fcopy_onto_existing_file Example.env
                    ["home"; "a.txt"]%string ["home"; "old.txt"]%string
                    (info_of "a.txt" (File 420 Example.user_meta Example.hello))
                    Example.fs_existing 384 Example.user_meta [Byte.x78]
                    ltac:(discriminate) eq_refl))
                 420 Example.user_meta Example.hello);
      reflexivity.
Defined.

(** X12.  [Copy] of a regular file onto itself: [os.Create] empties the
    file before it is read, so [Copy] returns [nil] and the file is left
    with no bytes, whatever the flags. *)
Theorem Copy_file_onto_itself :
  forall (env : Env) (policy : Policy) (fuel : nat) (r : Node) (q : path)
         (p : FileMode) (m : Meta) (data : list Byte.byte),
    q <> [] ->
    resolve env r q = inr (File p m data) ->
    may env p m 2 = true ->
    may env p m 4 = true ->
    owner_or_root env m = true ->
    exists r' p' m',
      run_Copy env policy (S fuel) q q r = Some (None, r')
      /\ get r' q = Some (File p' m' []).
Proof.
  intros env policy fuel r q p m data Hq Hd Hw Hread Ho.
  pose proof (TreeFacts.placed_existing env q r _ Hd) as Hp.
  destruct (TreeFacts.trestore_own_file env policy q EmptyString p m data
              (Z.land p chmod_mask) [] Ho) as (p' & m' & Hres).
  exists (put r q (File p' m' [])), p', m'. split.
  - unfold run_Copy, Copy.
    erewrite bind_call; [|exact (TreeFacts.lstat_node env q r _ Hd)].
    cbv beta iota.
    erewrite bind_eq.
    2:{ change (@copy Node (TreeOS env) policy
                  (@FileTypeCopyHandlers Node (TreeOS env)))
          with (run_copy env policy).
        rewrite TreeFacts.copy_S.
        erewrite bind_eq.
        2:{ unfold copy_content.
            change (Mode (info_of (last q "/"%string) (File p m data)))
              with (Z.land p chmod_mask).
            rewrite TreeFacts.IsRegular_file.
            exact (TreeFacts.fcopy_self env q _ r p m data Hq Hd Hw Hread Ho). }
        cbv beta iota.
        rewrite (TreeFacts.restore_put env policy q _ (File p m data) _ r Hp).
        rewrite Hres. reflexivity. }
    reflexivity.
  - apply (TreeFacts.get_put_existing env q r _ _ Hd).
Qed.

Lemma Copy_file_onto_itself_witness :
  exists r' p' m',
    run_Copy Example.env default_policy 1
             ["home"; "a.txt"]%string ["home"; "a.txt"]%string
             Example.fs_existing = Some (None, r')
    /\ get r' ["home"; "a.txt"]%string = Some (File p' m' []).
Proof.
  apply (Copy_file_onto_itself Example.env default_policy 0%nat
           Example.fs_existing ["home"; "a.txt"]%string
           420 Example.user_meta Example.hello).
  - discriminate.
  - reflexivity.
  - reflexivity.
  - reflexivity.
  - reflexivity.
Defined.

(** *** Copies that stop half way *)

(** X13.  With [IgnoreUnsupportedFileTypes] off, [Copy] of a directory
    that holds, at any depth, an entry that is neither a regular file nor a
    directory stops at the first such entry the walk comes to (the names
    of a directory in their order, a directory before what comes after
    it) and returns the [UnsupportedFileTypeError] of that entry; nothing
    the walk would have come to later is copied.  The destination
    directory is left with the permission bits of the source, but it
    belongs to the process and has the times of the copy: its owner and
    times are not restored, whatever the flags. *)
Theorem Copy_stops_at_first_unsupported :
  forall (env : Env) (policy : Policy) (fuel : nat) (r : Node)
         (src dp : path) (c : string) (p : FileMode) (m : Meta)
         (cs : list (string * Node)) (q : path),
    umask_ok env = true ->
    IgnoreUnsupportedFileTypes policy = false ->
    chown_ok env policy (Dir p m cs) = true ->
    (height (Dir p m cs) < fuel)%nat ->
    sorted (Dir p m cs) = true ->
    readable env (Dir p m cs) = true ->
    first_unsupported (Dir p m cs) = Some q ->
    resolve env r src = inr (Dir p m cs) ->
    diverge src (dp ++ [c]) = true ->
    dest_ready env r dp c ->
    exists x r' p' m' es',
      get (Dir p m cs) q = Some x
      /\ run_Copy env policy fuel src (dp ++ [c]) r
         = Some (Some (UnsupportedFileTypeError "" (node_mode x) (src ++ q)),
                 r')
      /\ get r' (dp ++ [c]) = Some (Dir p' m' es')
      /\ Perm p' = Perm p
      /\ m_uid m' = euid env
      /\ m_atime m' = now env
      /\ m_mtime m' = now env
      /\ forall q' : path,
           walked_after q q' = true -> get r' ((dp ++ [c]) ++ q') = None.
Proof.
  intros env policy fuel r src dp c p m cs q
         Hu Hi Hc Hh Hs Hr Hq Hsrc Hdiv Hd.
  destruct (TreeFacts.Copy_abort env policy Hu fuel _ r src dp c q
              Hi Hc Hh Hs Hr Hq Hsrc Hdiv Hd)
    as (x & Hgx & Hrun & Hget & es' & Hdir).
  exists x. eexists. exists (Z.land p chmod_mask), (fresh env), es'.
  split; [exact Hgx|]. split; [exact Hrun|].
  rewrite Hdir. cbn [place]. split.
  - destruct Hd as (pm & dm & es0 & Hr0 & _ & _).
    apply (TreeFacts.get_put_new _ _ _ _ _ _ _
             (TreeFacts.resolve_get env _ _ _ Hr0)).
  - split; [apply TreeFacts.land_mask_perm|].
    repeat (split; [reflexivity|]).
    intros q' Hq'. specialize (Hget q'). rewrite Hdir in Hget. cbn [place] in Hget.
    destruct (get (Dir p m cs) q'); [rewrite Hq' in Hget|]; exact Hget.
Qed.

Lemma Copy_stops_at_first_unsupported_witness :
  exists x r' p' m' es',
    get (Dir 493 Example.user_meta
             [("a.txt"%string, File 420 Example.user_meta Example.hello);
              ("fifo"%string, Special NamedPipe 420 Example.user_meta);
              ("z.txt"%string, File 384 Example.user_meta [])])
        ["fifo"]%string = Some x
    /\ run_Copy Example.env Example.every_attribute 2
                ["home"; "src"]%string (["home"%string] ++ ["dst"%string])
                Example.fs_pipe
       = Some (Some (UnsupportedFileTypeError
                       "" (node_mode x)
                       (["home"; "src"]%string ++ ["fifo"]%string)), r')
    /\ get r' (["home"%string] ++ ["dst"%string]) = Some (Dir p' m' es')
    /\ Perm p' = Perm 493
    /\ m_uid m' = euid Example.env
    /\ m_atime m' = now Example.env
    /\ m_mtime m' = now Example.env
    /\ forall q' : path,
         walked_after ["fifo"]%string q' = true ->
         get r' ((["home"%string] ++ ["dst"%string]) ++ q') = None.
Proof.
  apply (Copy_stops_at_first_unsupported Example.env Example.every_attribute 2%nat
           Example.fs_pipe ["home"; "src"]%string ["home"]%string "dst"%string
           493 Example.user_meta
           [("a.txt"%string, File 420 Example.user_meta Example.hello);
            ("fifo"%string, Special NamedPipe 420 Example.user_meta);
            ("z.txt"%string, File 384 Example.user_meta [])]
           ["fifo"]%string).
  - reflexivity.
  - reflexivity.
  - reflexivity.
  - simpl. lia.
  - reflexivity.
  - reflexivity.
  - reflexivity.
  - reflexivity.
  - reflexivity.
  - exists 493, Example.user_meta, [("src"%string, Example.with_pipe)].
    repeat split; reflexivity.
Defined.

(** X14.  [Copy] of a regular file the process may not read: the
    destination has been created and given the mode of the source by the
    time [os.Open] fails, so [Copy] returns the error of [os.Open] and
    leaves an empty file of that mode at the destination. *)
Theorem Copy_unreadable_file :
  forall (env : Env) (policy : Policy) (fuel : nat) (r : Node)
         (src dp : path) (c : string) (p : FileMode) (m : Meta)
         (data : list Byte.byte),
    resolve env r src = inr (File p m data) ->
    may env p m 4 = false ->
    diverge src (dp ++ [c]) = true ->
    dest_ready env r dp c ->
    run_Copy env policy (S fuel) src (dp ++ [c]) r
    = Some (Some (PathError "open" src EACCES),
            put r (dp ++ [c]) (File (Z.land p chmod_mask) (fresh env) [])).
Proof.
  intros env policy fuel r src dp c p m data Hs Hread Hdiv Hd.
  unfold run_Copy, Copy.
  erewrite bind_call; [|exact (TreeFacts.lstat_node env src r _ Hs)].
  cbv beta iota.
  erewrite bind_eq.
  2:{ change (@copy Node (TreeOS env) policy
                (@FileTypeCopyHandlers Node (TreeOS env)))
        with (run_copy env policy).
      rewrite TreeFacts.copy_S.
      erewrite bind_eq.
      2:{ unfold copy_content.
          change (Mode (info_of (last src "/"%string) (File p m data)))
            with (Z.land p chmod_mask).
          rewrite TreeFacts.IsRegular_file.
          apply (TreeFacts.fcopy_no_source env src dp c _ r
                   (PathError "open" src EACCES) Hd); [|exact Hdiv].
          unfold open. rewrite Hs, Hread. reflexivity. }
      cbv beta iota. reflexivity. }
  cbv beta iota. cbn [is_UnsupportedFileTypeError info_of Mode].
  cbn [node_mode]. rewrite TreeFacts.mode_mask_file. reflexivity.
Qed.

Lemma Copy_unreadable_file_witness :
  run_Copy Example.env default_policy 1
           ["home"; "key"]%string (["home"%string] ++ ["key.bak"%string])
           Example.fs_existing
  = Some (Some (PathError "open" ["home"; "key"]%string EACCES),
          put Example.fs_existing (["home"%string] ++ ["key.bak"%string])
              (File (Z.land 384 chmod_mask) (fresh Example.env) [])).
Proof.
  apply (Copy_unreadable_file Example.env default_policy 0%nat
           Example.fs_existing ["home"; "key"]%string ["home"]%string
           "key.bak"%string 384 Example.root_meta [Byte.x78]).
  - reflexivity.
  - reflexivity.
  - reflexivity.
  - eexists. eexists. eexists. repeat split; reflexivity.
Defined.

(** *** Directories made on the way *)

(** X15.  [fcopy] to a destination under directories that are not there:
    [MkdirAll] makes every missing directory, one in the other, with the
    permission bits 0777 less the umask and the process as its user, and
    the file is made in the last one with the bytes of the source and the
    permission bits of the descriptor. *)
Theorem fcopy_makes_missing_directories :
  forall (env : Env) (src dp : path) (a : string) (rest : path) (c : string)
         (info : FileInfo) (r : Node) (p : FileMode) (m : Meta)
         (data : list Byte.byte),
    may env (Z.ldiff ModePerm (umask env)) (fresh env) 3 = true ->
    dest_ready env r dp a ->
    resolve env r src = inr (File p m data) ->
    may env p m 4 = true ->
    diverge src (dp ++ [a]) = true ->
    exists r',
      run_fcopy env src (dp ++ a :: rest ++ [c]) info r = Some (None, r')
      /\ (forall r1 r2 : path,
             rest = r1 ++ r2 ->
             exists pm dm es,
               get r' (dp ++ a :: r1) = Some (Dir pm dm es)
               /\ Perm pm = Z.ldiff ModePerm (umask env)
               /\ m_uid dm = euid env)
      /\ exists pf mf,
           get r' (dp ++ a :: rest ++ [c]) = Some (File pf mf data)
           /\ Perm pf = Perm (Mode info)
           /\ m_uid mf = euid env.
Proof.
  intros env src dp a rest c info r p m data Hm Hd Hs Hread Hdiv.
  eexists. split.
  { apply (TreeFacts.fcopy_makes_dirs env src dp a rest c info r p m data
             Hm Hd Hs Hread Hdiv). }
  destruct Hd as (pm0 & dm0 & es0 & Hr0 & _ & _).
  pose proof (TreeFacts.resolve_get env _ _ _ Hr0) as Hg0.
  split.
  - intros r1 r2 ->.
    replace (dp ++ a :: r1) with ((dp ++ [a]) ++ r1)
      by (rewrite <- app_assoc; reflexivity).
    rewrite (TreeFacts.get_put_snoc dp a r1 r _ pm0 dm0 es0 Hg0).
    rewrite <- app_assoc, TreeFacts.get_nest.
    destruct (r2 ++ [c]) as [|k tl] eqn:E; [destruct r2; discriminate|].
    cbn [nest]. eexists. eexists. eexists. split; [reflexivity|].
    split; [apply TreeFacts.ldiff_perm | reflexivity].
  - replace (dp ++ a :: rest ++ [c]) with ((dp ++ [a]) ++ (rest ++ [c]))
      by (rewrite <- app_assoc; reflexivity).
    rewrite (TreeFacts.get_put_snoc dp a (rest ++ [c]) r _ pm0 dm0 es0 Hg0).
    pose proof (TreeFacts.get_nest (Z.ldiff ModePerm (umask env)) (fresh env)
                  (File (Z.land (Mode info) chmod_mask) (fresh env) data)
                  [] (rest ++ [c])) as Hn.
    rewrite app_nil_r in Hn. rewrite Hn. cbn [nest].
    eexists. eexists. split; [reflexivity|].
    split; [apply TreeFacts.land_mask_perm | reflexivity].
Qed.

Lemma fcopy_makes_missing_directories_witness :
  exists r',
    run_fcopy Example.env ["home"; "a.txt"]%string
              (["home"%string] ++ "x"%string :: ["y"%string; "z"%string]
               ++ ["b.txt"%string])
              (info_of "a.txt" (File 420 Example.user_meta Example.hello))
              Example.fs_existing
    = Some (None, r')
    /\ (forall r1 r2 : path,
           ["y"%string; "z"%string] = r1 ++ r2 ->
           exists pm dm es,
             get r' (["home"%string] ++ "x"%string :: r1) = Some (Dir pm dm es)
             /\ Perm pm = Z.ldiff ModePerm (umask Example.env)
             /\ m_uid dm = euid Example.env)
    /\ exists pf mf,
         get r' (["home"%string] ++ "x"%string :: ["y"%string; "z"%string]
                 ++ ["b.txt"%string])
         = Some (File pf mf Example.hello)
         /\ Perm pf
            = Perm (Mode (info_of "a.txt"
                            (File 420 Example.user_meta Example.hello)))
         /\ m_uid mf = euid Example.env.
Proof.
  apply (fcopy_makes_missing_directories Example.env ["home"; "a.txt"]%string
           ["home"]%string "x"%string ["y"; "z"]%string "b.txt"%string
           (info_of "a.txt" (File 420 Example.user_meta Example.hello))
           Example.fs_existing 420 Example.user_meta Example.hello).
  - reflexivity.
  - eexists. eexists. eexists. repeat split; reflexivity.
  - reflexivity.
  - reflexivity.
  - reflexivity.
Defined.

(** *** Failures of the calls *)



(** X17.  The directory of the destination is there and may be searched
    but not written, and the destination is not there.  [Copy] of a
    regular file returns the error of [os.Create], [Copy] of a directory
    the error of [os.MkdirAll]; neither changes anything. *)
Theorem Copy_into_unwritable_directory :
  forall (env : Env) (policy : Policy) (fuel : nat) (r : Node)
         (src dp : path) (c : string) (pm : FileMode) (dm : Meta)
         (es : list (string * Node)),
    resolve env r dp = inr (Dir pm dm es) ->
    may env pm dm 1 = true ->
    may env pm dm 3 = false ->
    assoc c es = None ->
    (forall (p : FileMode) (m : Meta) (data : list Byte.byte),
        resolve env r src = inr (File p m data) ->
        run_Copy env policy (S fuel) src (dp ++ [c]) r
        = Some (Some (PathError "open" (dp ++ [c]) EACCES), r))
    /\ (forall (p : FileMode) (m : Meta) (cs : list (string * Node)),
           resolve env r src = inr (Dir p m cs) ->
           run_Copy env policy (S fuel) src (dp ++ [c]) r
           = Some (Some (PathError "mkdir" (dp ++ [c]) EACCES), r)).
Proof.
  intros env policy fuel r src dp c pm dm es Hr Hx Hw Ha. split.
  - intros p m data Hs.
    unfold run_Copy, Copy.
    erewrite bind_call; [|exact (TreeFacts.lstat_node env src r _ Hs)].
    cbv beta iota.
    erewrite bind_eq.
    2:{ change (@copy Node (TreeOS env) policy
                  (@FileTypeCopyHandlers Node (TreeOS env)))
          with (run_copy env policy).
        rewrite TreeFacts.copy_S.
        erewrite bind_eq.
        2:{ unfold copy_content.
            change (Mode (info_of (last src "/"%string) (File p m data)))
              with (Z.land p chmod_mask).
            rewrite TreeFacts.IsRegular_file.
            exact (TreeFacts.fcopy_unwritable_dir env src dp c _ r pm dm es
                     Hr Hx Hw Ha). }
        cbv beta iota. reflexivity. }
    cbv beta iota. reflexivity.
  - intros p m cs Hs.
    unfold run_Copy, Copy.
    erewrite bind_call; [|exact (TreeFacts.lstat_node env src r _ Hs)].
    cbv beta iota.
    erewrite bind_eq.
    2:{ change (@copy Node (TreeOS env) policy
                  (@FileTypeCopyHandlers Node (TreeOS env)))
          with (run_copy env policy).
        rewrite TreeFacts.copy_S.
        erewrite bind_eq.
        2:{ unfold copy_content, FileInfo_IsDir.
            change (Mode (info_of (last src "/"%string) (Dir p m cs)))
              with (Z.lor ModeDir (Z.land p chmod_mask)).
            rewrite TreeFacts.IsRegular_dir, TreeFacts.IsDir_dir.
            unfold dcopy_with.
            erewrite bind_call;
              [|exact (TreeFacts.mkdirAll_unwritable_dir env dp c
                         tmpPermissionForDirectory r pm dm es Hr Hx Hw Ha)].
            cbv beta iota. reflexivity. }
        cbv beta iota. reflexivity. }
    cbv beta iota. reflexivity.
Qed.

Lemma Copy_into_unwritable_directory_witness :
  run_Copy Example.env default_policy 1
           ["home"; "a.txt"]%string ([] ++ ["b.txt"%string]) Example.fs_existing
  = Some (Some (PathError "open" ([] ++ ["b.txt"%string]) EACCES),
          Example.fs_existing)
  /\ run_Copy Example.env default_policy 1
              ["home"]%string ([] ++ ["backup"%string]) Example.fs_existing
     = Some (Some (PathError "mkdir" ([] ++ ["backup"%string]) EACCES),
             Example.fs_existing).
Proof.
  split.
  - apply (proj1 (Copy_into_unwritable_directory Example.env default_policy 0%nat
                    Example.fs_existing ["home"; "a.txt"]%string [] "b.txt"%string
                    493 Example.root_meta _ eq_refl eq_refl eq_refl eq_refl)
                 420 Example.user_meta Example.hello).
    reflexivity.
  - refine (proj2 (Copy_into_unwritable_directory Example.env default_policy 0%nat
                     Example.fs_existing ["home"]%string [] "backup"%string
                     493 Example.root_meta _ eq_refl eq_refl eq_refl eq_refl)
                  493 Example.user_meta _ _).
    reflexivity.
Defined.
